(** * Build-plan resolution of verdafile.js

    A shallow embedding of the configuration-to-target compiler of
    [src/verdafile.js]: the axis resolver ([getSuffixMapping],
    [getSuffixMappingItem], [nValidate] and its validators), the plan
    expander ([BuildPlans]), the collection planner ([getCollectPlans])
    and the configuration loader ([RawPlans]), with the values derived
    from them: the font records ([FontInfoOf]), the export plans
    ([ExportPlans]), the option [OptimizeWithTtx], and the lists that
    [ExportTtcFile], [glyfTtc], [ExportSuperTtc] and
    [CollectionArchiveFile] build from.  Of a font record the model keeps
    the name and the shape, menu and CSS fields that come from the suffix
    mapping, the family name and the version.

    Modelling conventions.
    - A JavaScript object used as a table is an association list in
      own-property enumeration order (module [Obj]); property assignment
      follows the engine's key order (array-index keys first, ascending,
      then the other keys in creation order).  The members that a plain
      object inherits from [Object.prototype] are no keys of a table;
      where the script reads a table of its own under a name that it has
      not enumerated ([buildPlans[gid]] in [BuildPlanOf], the three reads
      of [FontInfoOf], [RecommendedMenuWeights[w]]) the read is
      [Obj.read], which finds them.  The lists that [ExportTtcFile],
      [glyfTtc], [ExportSuperTtc] and [CollectionArchiveFile] build from
      are given for the names that are no such member names.  An own key
      [__proto__] is outside the model.
    - A configuration leaf is a [val]: undefined, null, a boolean, a
      number or a string.  Numbers are the integers of the TOML files;
      fractional numbers are outside the model, and the text of a number
      ([NumberToString]) is its decimal digits, which is what the engine
      prints for the safe integers ([safeInteger]: at most 2^53 - 1 in
      magnitude).
    - [echo.warn] appends to a console log, [throw] and verda's [fail]
      abort with an exception, and [g_widthFixupMemory] is a finite map:
      the three are threaded through the state-and-exception monad [M].
    - A table that the code dereferences without a guard ([buildPlans] of
      the base file, [collectConfig], the entries of [weights] and
      [widths]) is typed as present; a table the code guards with [||],
      [&&] or [!] is an [option]. *)

From Stdlib Require Import ZArith String List Lia Reals Lra DecimalString.
From stdpp Require Import base option list gmap strings.
Import ListNotations.

Local Open Scope string_scope.
Local Open Scope list_scope.
Local Open Scope Z_scope.

(** ** Values *)

Inductive val : Type :=
| VUndefined
| VNull
| VBool (b : bool)
| VNum (n : Z)
| VStr (s : string).

(** ToBoolean. *)
Definition truthy (v : val) : bool :=
  match v with
  | VUndefined | VNull => false
  | VBool b => b
  | VNum n => negb (Z.eqb n 0)
  | VStr s => negb (String.eqb s "")
  end.

(** The integers that a double holds exactly, one by one
    ([Number.MAX_SAFE_INTEGER] is 2^53 - 1). *)
Definition safeInteger (n : Z) : bool := Z.abs n <=? 9007199254740991.

(** Number::toString on a safe integer: its decimal digits.  Beyond the
    safe integers the engine prints the shortest digits that give the
    double back, and from 1e21 on an exponent. *)
Definition NumberToString (n : Z) : string :=
  NilZero.string_of_int (Z.to_int n).

(** ToString, as applied by template literals. *)
Definition ToString (v : val) : string :=
  match v with
  | VUndefined => "undefined"
  | VNull => "null"
  | VBool true => "true"
  | VBool false => "false"
  | VNum n => NumberToString n
  | VStr s => s
  end.

(** The values whose text [ToString] gives as the engine does. *)
Definition printable (v : val) : bool :=
  match v with
  | VNum n => safeInteger n
  | _ => true
  end.

(** [a || b] on values. *)
Definition orElse (a b : val) : val := if truthy a then a else b.

(** [a || b] where [a] is an object or undefined. *)
Definition orObj {A : Type} (a b : option A) : option A :=
  match a with Some _ => a | None => b end.

(** ** Objects as ordered tables *)

Module Obj.

Abbreviation t A := (list (string * A)).

Definition keys {A} (o : t A) : list string := map fst o.

Fixpoint get {A} (k : string) (o : t A) : option A :=
  match o with
  | [] => None
  | (k', v) :: r => if String.eqb k' k then Some v else get k r
  end.

Definition has {A} (k : string) (o : t A) : bool :=
  match get k o with Some _ => true | None => false end.

(** An array index is the canonical decimal form of an integer in
    [0, 2^32 - 2]. *)
Definition digit (c : Ascii.ascii) : option N :=
  let n := Ascii.N_of_ascii c in
  if ((48 <=? n) && (n <=? 57))%N then Some (n - 48)%N else None.

Fixpoint digits (s : string) (acc : N) : option N :=
  match s with
  | EmptyString => Some acc
  | String c r =>
      match digit c with
      | Some d => digits r (10 * acc + d)%N
      | None => None
      end
  end.

Definition arrayIndex (k : string) : option N :=
  match k with
  | EmptyString => None
  | _ =>
      match digits k 0%N with
      | Some n =>
          if String.eqb (NumberToString (Z.of_N n)) k && (n <? 4294967295)%N
          then Some n else None
      | None => None
      end
  end.

(** Overwrite the value of an existing key, in place. *)
Fixpoint replace {A} (k : string) (v : A) (o : t A) : t A :=
  match o with
  | [] => []
  | (k', v') :: r =>
      if String.eqb k' k then (k', v) :: r else (k', v') :: replace k v r
  end.

(** Create an array-index key: it goes before the first key that is not
    an array index or is a larger one. *)
Fixpoint insertIndex {A} (n : N) (k : string) (v : A) (o : t A) : t A :=
  match o with
  | [] => [(k, v)]
  | (k', v') :: r =>
      match arrayIndex k' with
      | Some n' =>
          if (n' <? n)%N then (k', v') :: insertIndex n k v r
          else (k, v) :: (k', v') :: r
      | None => (k, v) :: (k', v') :: r
      end
  end.

(** [o[k] = v]. *)
Definition set {A} (k : string) (v : A) (o : t A) : t A :=
  if has k o then replace k v o
  else match arrayIndex k with
       | Some n => insertIndex n k v o
       | None => o ++ [(k, v)]
       end.

(** [Object.assign(target, source)]. *)
Definition assign {A} (target source : t A) : t A :=
  fold_left
    (fun acc k => match get k source with
                  | Some v => set k v acc
                  | None => acc
                  end)
    (keys source) target.

(** No key occurs twice: every object of the program is of this kind. *)
Definition wf {A} (o : t A) : Prop := List.NoDup (keys o).

(** The names that a plain object inherits from [Object.prototype].  A
    read [o[k]] of such a name that is not an own key gives the inherited
    member: a function (for [__proto__] the prototype itself), which is
    truthy and has none of the properties that the build script reads. *)
Definition inheritedNames : list string :=
  ["constructor"; "__defineGetter__"; "__defineSetter__"; "hasOwnProperty";
   "__lookupGetter__"; "__lookupSetter__"; "isPrototypeOf";
   "propertyIsEnumerable"; "toString"; "valueOf"; "__proto__";
   "toLocaleString"].

Definition inherited (k : string) : bool :=
  existsb (String.eqb k) inheritedNames.

(** What a read [o[k]] finds: the value of the own key, an inherited
    member, or undefined. *)
Inductive slot (A : Type) : Type :=
| Own (a : A)
| Member
| Absent.
Arguments Own {A} a.
Arguments Member {A}.
Arguments Absent {A}.

Definition read {A} (k : string) (o : t A) : slot A :=
  match get k o with
  | Some a => Own a
  | None => if inherited k then Member else Absent
  end.

(** A property of what was read: undefined on an inherited member. *)
Definition prop {A} (f : A -> val) (s : slot A) : val :=
  match s with
  | Own a => f a
  | _ => VUndefined
  end.

(** The text of an inherited member in a template literal. *)
Definition memberText (k : string) : string :=
  if String.eqb k "__proto__" then "[object Object]"
  else "function " +:+ (if String.eqb k "constructor" then "Object" else k)
       +:+ "() { [native code] }".

End Obj.

(** ** State, exceptions and the monad *)

Inductive exn : Type :=
| TypeError (msg : string)
| Failure (msg : string).

Inductive Result (A : Type) : Type :=
| Ok (a : A)
| Throw (e : exn).
Arguments Ok {A} a.
Arguments Throw {A} e.

Record State : Type := mkState {
  g_widthFixupMemory : gmap Z Z;
  console : list string
}.

Definition initialState : State :=
  {| g_widthFixupMemory := ∅; console := [] |}.

Definition M (A : Type) : Type := State -> Result A * State.

Definition ret {A} (a : A) : M A := fun st => (Ok a, st).

Definition bind {A B} (m : M A) (k : A -> M B) : M B :=
  fun st =>
    match m st with
    | (Ok a, st') => k a st'
    | (Throw e, st') => (Throw e, st')
    end.

Definition throw {A} (e : exn) : M A := fun st => (Throw e, st).

Notation "'let*' x ':=' m 'in' k" := (bind m (fun x => k))
  (at level 10, x name, m at level 100, k at level 200).

(** [echo.warn(msg)]. *)
Definition echo_warn (msg : string) : M unit :=
  fun st => (Ok tt, {| g_widthFixupMemory := g_widthFixupMemory st;
                       console := console st ++ [msg] |}).

(** verda's [fail(msg)]. *)
Definition fail {A} (msg : string) : M A := throw (Failure msg).

Definition memoryGet (x : Z) : M (option Z) :=
  fun st => (Ok (g_widthFixupMemory st !! x), st).

Definition memorySet (x v : Z) : M unit :=
  fun st => (Ok tt, {| g_widthFixupMemory := <[x := v]> (g_widthFixupMemory st);
                       console := console st |}).

(** A loop with an accumulator over a list. *)
Fixpoint forEach {A B} (l : list A) (body : A -> B -> M B) (acc : B) : M B :=
  match l with
  | [] => ret acc
  | x :: r => let* acc' := body x acc in forEach r body acc'
  end.

(** ** Exception-only computations *)

Definition retR {A} (a : A) : Result A := Ok a.

Definition bindR {A B} (m : Result A) (k : A -> Result B) : Result B :=
  match m with
  | Ok a => k a
  | Throw e => Throw e
  end.

Fixpoint forEachR {A B} (l : list A) (body : A -> B -> Result B) (acc : B)
  : Result B :=
  match l with
  | [] => Ok acc
  | x :: r => bindR (body x acc) (forEachR r body)
  end.

(** ** Constants *)

Definition WIDTH_NORMAL : string := "normal".
Definition WEIGHT_NORMAL : string := "regular".
Definition SLOPE_NORMAL : string := "upright".
Definition DEFAULT_SUBFAMILY : string := "regular".

Definition dquote : string :=
  String (Ascii.Ascii false true false false false true false false) "".
Definition newline : string :=
  String (Ascii.Ascii false true false true false false false false) "".

(** ** Target names *)

Definition makeFileName (prefix suffix : string) : string :=
  prefix +:+ "-" +:+ suffix.

Definition makeSuffix (w wd s fallback : string) : string :=
  let r := (if String.eqb wd WIDTH_NORMAL then "" else wd)
           +:+ (if String.eqb w WEIGHT_NORMAL then "" else w)
           +:+ (if String.eqb s SLOPE_NORMAL then "" else s) in
  if String.eqb r "" then fallback else r.

(** ** Validators *)

Record Validator : Type := mkValidator {
  validate : Z -> bool;
  fixup : option (Z -> M Z);   (* the property nValidate tests *)
  fix_ : option (Z -> M Z)     (* the property [fix], which nValidate calls *)
}.

Definition VlShapeWeight : Validator :=
  {| validate := fun x => (100 <=? x) && (x <=? 900);
     fixup := None; fix_ := None |}.
Definition VlCssWeight : Validator :=
  {| validate := fun x => (0 <? x) && (x <? 1000);
     fixup := None; fix_ := None |}.
Definition VlMenuWeight : Validator := VlCssWeight.

(** [Math.round(500 * Math.pow(Math.sqrt(576 / 500), x - 5))], computed on
    integers: with [y = 500 * sqrt(576/500)^(x-5)], the rounded value is
    [floor((sqrt(4 * y^2) + 1) / 2)] and [4 * y^2 = 1000^2 * (576/500)^(x-5)].
    [xCorrected_real] below relates it to the formula over the reals. *)
Definition xCorrected (x : Z) : Z :=
  let k := x - 5 in
  let r := if 0 <=? k then 1000 ^ 2 * 576 ^ k / 500 ^ k
           else 1000 ^ 2 * 500 ^ (- k) / 576 ^ (- k) in
  (Z.sqrt r + 1) / 2.

Definition legacyWidthWarning (x xc : Z) : string :=
  "The build plan is using legacy width grade " +:+ NumberToString x
  +:+ ". Converting to unit width " +:+ NumberToString xc +:+ ".".

Definition VlShapeWidth_fix (x : Z) : M Z :=
  if (3 <=? x) && (x <=? 9) then
    let* cached := memoryGet x in
    match cached with
    | Some v => ret v
    | None =>
        let xc := xCorrected x in
        let* _ := echo_warn (legacyWidthWarning x xc) in
        let* _ := memorySet x xc in
        ret xc
    end
  else ret x.

Definition VlShapeWidth : Validator :=
  {| validate := fun x => (433 <=? x) && (x <=? 665);
     fixup := None; fix_ := Some VlShapeWidth_fix |}.
Definition VlMenuWidth : Validator :=
  {| validate := fun x => (1 <=? x) && (x <=? 9) && (x mod 1 =? 0);
     fixup := None; fix_ := None |}.

Definition notValidNumber (key : string) (v : val) : string :=
  key +:+ " = " +:+ ToString v +:+ " is not a valid number.".

(** [nValidate(key, v, validator)].  The fix functions are modelled on
    numbers; no validator of the file has a [fixup] property, so the call
    of [validator.fix] is never reached. *)
Definition nValidate (key : string) (v : val) (validator : Validator) : M Z :=
  let* v :=
    match fixup validator with
    | Some _ =>
        match fix_ validator, v with
        | Some f, VNum n => let* n' := f n in ret (VNum n')
        | Some _, _ => ret v
        | None, _ => throw (TypeError "validator.fix is not a function")
        end
    | None => ret v
    end in
  match v with
  | VNum n =>
      if validate validator n then ret n
      else throw (TypeError (notValidNumber key v))
  | _ => throw (TypeError (notValidNumber key v))
  end.

#[global] Instance val_eq_dec : EqDecision val.
Proof. solve_decision. Defined.

Definition RecommendedMenuWeights : Obj.t Z :=
  [("thin", 100); ("extralight", 200); ("light", 300); ("regular", 400);
   ("book", 450); ("medium", 500); ("semibold", 600); ("bold", 700);
   ("extrabold", 800); ("heavy", 900)].

(** The warning of [validateRecommendedWeight]; [recommended] is the text
    of [RecommendedMenuWeights[w]]. *)
Definition recommendedWeightWarning (w : string) (value : val)
    (label recommended : string) : string :=
  label +:+ " weight settings of " +:+ w +:+ " ( = " +:+ ToString value
  +:+ ") doesn't match the recommended value ( = " +:+ recommended +:+ ").".

(** [validateRecommendedWeight(w, value, label)].  A weight that is named
    as a member of [Object.prototype] finds that member in the table of
    recommended weights: it is truthy and differs from every value. *)
Definition validateRecommendedWeight (w : string) (value : val) (label : string)
  : M unit :=
  match Obj.read w RecommendedMenuWeights with
  | Obj.Own r =>
      if truthy (VNum r) && negb (bool_decide (VNum r = value)) then
        echo_warn (recommendedWeightWarning w value label (NumberToString r))
      else ret tt
  | Obj.Member =>
      echo_warn (recommendedWeightWarning w value label (Obj.memberText w))
  | Obj.Absent => ret tt
  end.

(** ** Axis tables and the suffix mapping *)

Module AxisEntry.
Record t : Type := mk { shape : val; css : val; menu : val }.
End AxisEntry.

Module SuffixItem.
Record t : Type := mk {
  weight : string;
  shapeWeight : Z;
  cssWeight : Z;
  menuWeight : Z;
  width : string;
  shapeWidth : Z;
  cssStretch : val;
  menuWidth : Z;
  slope : string;
  cssStyle : val;
  menuSlope : val
}.
End SuffixItem.

Definition ownKeys {A} (o : option (Obj.t A)) : list string :=
  match o with Some t => Obj.keys t | None => [] end.

(** [o[k]] followed by a property read: a TypeError when [o] or [o[k]] is
    undefined (the text of the message is the engine's). *)
Definition entryOf {A} (o : option (Obj.t A)) (k : string) : M A :=
  match o with
  | Some t =>
      match Obj.get k t with
      | Some a => ret a
      | None => throw (TypeError "Cannot read properties of undefined")
      end
  | None => throw (TypeError "Cannot read properties of undefined")
  end.

(** [o[k]] alone: undefined when the key is missing. *)
Definition valueOf (o : option (Obj.t val)) (k : string) : M val :=
  match o with
  | Some t => ret (default VUndefined (Obj.get k t))
  | None => throw (TypeError "Cannot read properties of undefined")
  end.

Definition getSuffixMappingItem
    (weights : option (Obj.t AxisEntry.t)) (w : string)
    (slopes : option (Obj.t val)) (s : string)
    (widths : option (Obj.t AxisEntry.t)) (wd : string) : M SuffixItem.t :=
  let* we := entryOf weights w in
  let* shapeWeight :=
    nValidate ("Shape weight of " +:+ w) (AxisEntry.shape we) VlShapeWeight in
  let* cssWeight :=
    nValidate ("CSS weight of " +:+ w) (AxisEntry.css we) VlCssWeight in
  let* menuWeight :=
    nValidate ("Menu weight of " +:+ w) (AxisEntry.menu we) VlMenuWeight in
  let* wde := entryOf widths wd in
  let* shapeWidth :=
    nValidate ("Shape width of " +:+ wd) (AxisEntry.shape wde) VlShapeWidth in
  let cssStretch := orElse (AxisEntry.css wde) (VStr wd) in
  let* menuWidth :=
    nValidate ("Menu width of " +:+ wd) (AxisEntry.menu wde) VlMenuWidth in
  let* sv := valueOf slopes s in
  let cssStyle := orElse sv (VStr s) in
  let* sv' := valueOf slopes s in
  let menuSlope := orElse sv' (VStr s) in
  ret {| SuffixItem.weight := w;
         SuffixItem.shapeWeight := shapeWeight;
         SuffixItem.cssWeight := cssWeight;
         SuffixItem.menuWeight := menuWeight;
         SuffixItem.width := wd;
         SuffixItem.shapeWidth := shapeWidth;
         SuffixItem.cssStretch := cssStretch;
         SuffixItem.menuWidth := menuWidth;
         SuffixItem.slope := s;
         SuffixItem.cssStyle := cssStyle;
         SuffixItem.menuSlope := menuSlope |}.

Definition getSuffixMapping
    (weights : option (Obj.t AxisEntry.t))
    (slopes : option (Obj.t val))
    (widths : option (Obj.t AxisEntry.t)) : M (Obj.t SuffixItem.t) :=
  forEach (ownKeys weights) (fun w mapping =>
    let* we := entryOf weights w in
    let* _ := validateRecommendedWeight w (AxisEntry.menu we) "Menu" in
    let* _ := validateRecommendedWeight w (AxisEntry.css we) "CSS" in
    forEach (ownKeys slopes) (fun s mapping =>
      forEach (ownKeys widths) (fun wd mapping =>
        let suffix := makeSuffix w wd s DEFAULT_SUBFAMILY in
        let* item := getSuffixMappingItem weights w slopes s widths wd in
        ret (Obj.set suffix item mapping))
      mapping)
    mapping)
  [].

(** ** Build plans *)

Module Plan.
Record t : Type := mk {
  family : val;
  weights : option (Obj.t AxisEntry.t);
  slopes : option (Obj.t val);
  slants : option (Obj.t val);
  widths : option (Obj.t AxisEntry.t);
  targets : list string
}.
End Plan.

(** The build-plan fields that the functions below neither read nor write
    (serifs, spacing, variants, hintParams, ...) are carried along by the
    object spread and are left out of the record. *)

Definition validateAndShimBuildPlans (prefix : string) (bp : Plan.t)
    (dWeights : option (Obj.t AxisEntry.t)) (dSlopes : option (Obj.t val))
    (dWidths : option (Obj.t AxisEntry.t)) : M Plan.t :=
  let* _ :=
    if negb (truthy (Plan.family bp)) then
      fail ("Build plan for " +:+ prefix
            +:+ " does not have a family name. Exit.")
    else ret tt in
  let* _ :=
    match Plan.slopes bp, Plan.slants bp with
    | None, Some _ =>
        echo_warn ("Build plan for " +:+ prefix +:+ " uses legacy "
                   +:+ dquote +:+ "slants" +:+ dquote
                   +:+ " to define slopes. Use "
                   +:+ dquote +:+ "slopes" +:+ dquote +:+ " instead.")
    | _, _ => ret tt
    end in
  ret {| Plan.family := Plan.family bp;
         Plan.weights := orObj (Plan.weights bp) dWeights;
         Plan.slopes := orObj (orObj (Plan.slopes bp) (Plan.slants bp)) dSlopes;
         Plan.slants := Plan.slants bp;
         Plan.widths := orObj (Plan.widths bp) dWidths;
         Plan.targets := Plan.targets bp |}.

Module CollectConfig.
Record t : Type := mk {
  distinguishWeights : val;
  distinguishWidths : val;
  distinguishSlope : val
}.
End CollectConfig.

Module Collect.
Record t : Type := mk { from : option (list string) }.
End Collect.

Module Raw.
Record t : Type := mk {
  buildPlans : Obj.t Plan.t;
  buildOptions : option (Obj.t val);
  weights : option (Obj.t AxisEntry.t);
  slopes : option (Obj.t val);
  widths : option (Obj.t AxisEntry.t);
  collectPlans : Obj.t Collect.t;
  collectConfig : CollectConfig.t
}.
End Raw.

Module Index.
Record t : Type := mk { prefix : string; suffix : string }.
End Index.

Module BuildPlansResult.
Record t : Type := mk {
  fileNameToBpMap : Obj.t Index.t;
  buildPlans : Obj.t Plan.t
}.
End BuildPlansResult.

(** [o && !o[k]]: [truth] is the truthiness of an entry (an entry of
    [weights] is an object, hence truthy; an entry of [slopes] is a
    value). *)
Definition restrictedOut {A} (o : option (Obj.t A)) (k : string)
    (truth : A -> bool) : bool :=
  match o with
  | Some t =>
      match Obj.get k t with
      | Some a => negb (truth a)
      | None => true
      end
  | None => false
  end.

(** The body of the loop over the suffix mapping in [BuildPlans]. *)
Definition recordTarget (prefix : string) (bp : Plan.t)
    (suffixMapping : Obj.t SuffixItem.t) (suffix : string)
    (acc : list string * Obj.t Index.t) : list string * Obj.t Index.t :=
  match Obj.get suffix suffixMapping with
  | Some sfi =>
      if restrictedOut (Plan.weights bp) (SuffixItem.weight sfi) (fun _ => true)
      then acc
      else if restrictedOut (Plan.slopes bp) (SuffixItem.slope sfi) truthy
      then acc
      else
        let fileName := makeFileName prefix suffix in
        (fst acc ++ [fileName],
         Obj.set fileName {| Index.prefix := prefix; Index.suffix := suffix |}
                 (snd acc))
  | None => acc
  end.

(** The spread of an undefined value: an object without properties. *)
Definition emptyPlan : Plan.t :=
  {| Plan.family := VUndefined;
     Plan.weights := None; Plan.slopes := None; Plan.slants := None;
     Plan.widths := None; Plan.targets := [] |}.

(** The body of the loop over the raw build plans in [BuildPlans]. *)
Definition BuildPlans_body (rp : Raw.t) (prefix : string)
    (acc : Obj.t Plan.t * Obj.t Index.t) : M (Obj.t Plan.t * Obj.t Index.t) :=
  let '(returnBuildPlans, fileNameToBpMap) := acc in
  let bp := default emptyPlan (Obj.get prefix (Raw.buildPlans rp)) in
  let* bp := validateAndShimBuildPlans prefix bp
               (Raw.weights rp) (Raw.slopes rp) (Raw.widths rp) in
  let* suffixMapping :=
    getSuffixMapping (Plan.weights bp) (Plan.slopes bp) (Plan.widths bp) in
  let '(targets, fileNameToBpMap) :=
    fold_left (fun a suffix => recordTarget prefix bp suffixMapping suffix a)
              (Obj.keys suffixMapping) ([], fileNameToBpMap) in
  let bp := {| Plan.family := Plan.family bp;
               Plan.weights := Plan.weights bp;
               Plan.slopes := Plan.slopes bp;
               Plan.slants := Plan.slants bp;
               Plan.widths := Plan.widths bp;
               Plan.targets := targets |} in
  ret (Obj.set prefix bp returnBuildPlans, fileNameToBpMap).

Definition BuildPlans (rp : Raw.t) : M BuildPlansResult.t :=
  let* r := forEach (Obj.keys (Raw.buildPlans rp)) (BuildPlans_body rp) ([], []) in
  ret {| BuildPlansResult.fileNameToBpMap := snd r;
         BuildPlansResult.buildPlans := fst r |}.

(** ** Collection plans *)

Module GlyfPart.
Record t : Type := mk { dir : string; file : string }.
End GlyfPart.

Module CollectPlansResult.
Record t : Type := mk {
  glyfTtcComposition : Obj.t (list GlyfPart.t);
  ttcComposition : Obj.t (list string);
  ttcContents : Obj.t (list string);
  groupDecomposition : Obj.t (list string)
}.
End CollectPlansResult.

(** [whyBuildPlanIsnNotThere]: [privateExists] is
    [fs.existsSync(PRIVATE_BUILD_PLANS)]. *)
Definition whyBuildPlanIsnNotThere (privateExists : bool) (gid : string) : string :=
  if negb privateExists then
    newline +:+ "        -- Possible reason: Config file "
    +:+ "'private-build-plans.toml' does not exist."
  else "".

(** [BuildPlanOf(gid)], given the settled value of [BuildPlans]: the
    plan of the own key [gid], or [None] for the inherited member that
    [buildPlans[gid]] finds under a name of [Object.prototype], which is
    truthy and is returned as it is. *)
Definition BuildPlanOf (privateExists : bool) (buildPlans : Obj.t Plan.t)
    (gid : string) : Result (option Plan.t) :=
  match Obj.read gid buildPlans with
  | Obj.Own plan => Ok (Some plan)
  | Obj.Member => Ok None
  | Obj.Absent =>
      Throw (Failure ("Build plan for '" +:+ gid +:+ "' not found."
                      +:+ whyBuildPlanIsnNotThere privateExists gid))
  end.

Definition fnStandardTtc (collectConfig : CollectConfig.t)
    (prefix w wd s : string) : string :=
  let ttcSuffix :=
    makeSuffix
      (if truthy (CollectConfig.distinguishWeights collectConfig)
       then w else WEIGHT_NORMAL)
      (if truthy (CollectConfig.distinguishWidths collectConfig)
       then wd else WIDTH_NORMAL)
      (if truthy (CollectConfig.distinguishSlope collectConfig)
       then s else SLOPE_NORMAL)
      DEFAULT_SUBFAMILY in
  prefix +:+ "-" +:+ ttcSuffix.

(** A [Set] of strings in insertion order. *)
Definition setHas (x : string) (l : list string) : bool :=
  existsb (String.eqb x) l.
Definition setAdd (x : string) (l : list string) : list string :=
  if setHas x l then l else l ++ [x].
(** [Array.from(new Set(l))]. *)
Definition setFrom (l : list string) : list string :=
  fold_left (fun acc x => setAdd x acc) l [].

(** [new Set(gri.targets)]: [targets] is undefined on an inherited
    member, and the set of undefined is empty. *)
Definition targetSet (gri : option Plan.t) : list string :=
  match gri with
  | Some plan => setFrom (Plan.targets plan)
  | None => []
  end.

(** [if (!o[k]) o[k] = []; o[k].push(x)]. *)
Definition pushTo {A} (k : string) (x : A) (o : Obj.t (list A)) : Obj.t (list A) :=
  Obj.set k (default [] (Obj.get k o) ++ [x]) o.

Definition CollectAcc : Type :=
  Obj.t (list GlyfPart.t) * Obj.t (list string) * list string.

(** The body of the loop over the suffix mapping in [getCollectPlans];
    [sfi] is defined, [suffix] being an own key of the mapping. *)
Definition collectSuffix
    (fnFileName : CollectConfig.t -> string -> string -> string -> string -> string)
    (config : CollectConfig.t) (collectPrefix prefix : string)
    (ttfFileNameSet : list string) (suffixMapping : Obj.t SuffixItem.t)
    (suffix : string) (acc : CollectAcc) : CollectAcc :=
  let '(glyfTtcComposition, ttcComposition, groupFileList) := acc in
  match Obj.get suffix suffixMapping with
  | Some sfi =>
      let ttcFileName :=
        fnFileName config collectPrefix (SuffixItem.weight sfi)
                   (SuffixItem.width sfi) (SuffixItem.slope sfi) in
      let glyfTtcFileName :=
        fnFileName
          {| CollectConfig.distinguishWeights :=
               CollectConfig.distinguishWeights config;
             CollectConfig.distinguishWidths := VBool true;
             CollectConfig.distinguishSlope :=
               CollectConfig.distinguishSlope config |}
          collectPrefix (SuffixItem.weight sfi)
          (SuffixItem.width sfi) (SuffixItem.slope sfi) in
      let ttfTargetName := makeFileName prefix suffix in
      if negb (setHas ttfTargetName ttfFileNameSet) then acc
      else
        (pushTo glyfTtcFileName
                {| GlyfPart.dir := prefix; GlyfPart.file := ttfTargetName |}
                glyfTtcComposition,
         pushTo ttcFileName glyfTtcFileName ttcComposition,
         setAdd ttcFileName groupFileList)
  | None => acc
  end.

(** The body of the loop over [collect.from] in [getCollectPlans]. *)
Definition collectSource (privateExists : bool) (buildPlans : Obj.t Plan.t)
    (suffixMapping : Obj.t SuffixItem.t) (config : CollectConfig.t)
    (fnFileName : CollectConfig.t -> string -> string -> string -> string -> string)
    (collectPrefix prefix : string) (acc : CollectAcc) : Result CollectAcc :=
  bindR (BuildPlanOf privateExists buildPlans prefix) (fun gri =>
    let ttfFileNameSet := targetSet gri in
    Ok (fold_left
          (fun a suffix =>
             collectSuffix fnFileName config collectPrefix prefix
                           ttfFileNameSet suffixMapping suffix a)
          (Obj.keys suffixMapping) acc)).

(** The body of the loop over the raw collect plans. *)
Definition collectGroup (privateExists : bool) (buildPlans : Obj.t Plan.t)
    (rawCollectPlans : Obj.t Collect.t) (suffixMapping : Obj.t SuffixItem.t)
    (config : CollectConfig.t)
    (fnFileName : CollectConfig.t -> string -> string -> string -> string -> string)
    (collectPrefix : string) (cp : CollectPlansResult.t)
  : Result CollectPlansResult.t :=
  match Obj.get collectPrefix rawCollectPlans with
  | Some {| Collect.from := Some (p :: ps) |} =>
      let from := p :: ps in
      bindR
        (forEachR from
           (collectSource privateExists buildPlans suffixMapping config
                          fnFileName collectPrefix)
           (CollectPlansResult.glyfTtcComposition cp,
            CollectPlansResult.ttcComposition cp, []))
        (fun '(glyfTtcComposition, ttcComposition, groupFileList) =>
           Ok {| CollectPlansResult.glyfTtcComposition := glyfTtcComposition;
                 CollectPlansResult.ttcComposition := ttcComposition;
                 CollectPlansResult.ttcContents :=
                   Obj.set collectPrefix groupFileList
                           (CollectPlansResult.ttcContents cp);
                 CollectPlansResult.groupDecomposition :=
                   Obj.set collectPrefix from
                           (CollectPlansResult.groupDecomposition cp) |})
  | _ => Ok cp
  end.

Definition getCollectPlans (privateExists : bool) (buildPlans : Obj.t Plan.t)
    (rawCollectPlans : Obj.t Collect.t) (suffixMapping : Obj.t SuffixItem.t)
    (config : CollectConfig.t)
    (fnFileName : CollectConfig.t -> string -> string -> string -> string -> string)
  : Result CollectPlansResult.t :=
  forEachR (Obj.keys rawCollectPlans)
    (collectGroup privateExists buildPlans rawCollectPlans suffixMapping
                  config fnFileName)
    {| CollectPlansResult.glyfTtcComposition := [];
       CollectPlansResult.ttcComposition := [];
       CollectPlansResult.ttcContents := [];
       CollectPlansResult.groupDecomposition := [] |}.

(** The constituents that [ExportTtcFile(gr, f)] builds from:
    [Array.from(new Set(cp.ttcComposition[f]))]. *)
Definition ExportTtcFile_parts (cp : CollectPlansResult.t) (f : string)
  : list string :=
  setFrom (default [] (Obj.get f (CollectPlansResult.ttcComposition cp))).

(** The constituents that [glyfTtc(gr, f)] builds from:
    [cp.glyfTtcComposition[f]]. *)
Definition glyfTtc_parts (cp : CollectPlansResult.t) (f : string)
  : option (list GlyfPart.t) :=
  Obj.get f (CollectPlansResult.glyfTtcComposition cp).

(** ** Configuration loading *)

Module Private.
Record t : Type := mk {
  buildPlans : option (Obj.t Plan.t);
  buildOptions : option (Obj.t val);
  weights : option (Obj.t AxisEntry.t);
  slopes : option (Obj.t val);
  widths : option (Obj.t AxisEntry.t);
  collectPlans : option (Obj.t Collect.t);
  collectConfig : option CollectConfig.t
}.
End Private.

(** [RawPlans]: [base] is the parsed build-plans.toml, [privateBP] the
    parsed private-build-plans.toml when that file exists. *)
Definition RawPlans (base : Raw.t) (privateBP : option Private.t) : Raw.t :=
  let buildOptions := default [] (Raw.buildOptions base) in
  match privateBP with
  | Some pv =>
      {| Raw.buildPlans :=
           match Private.buildPlans pv with
           | Some src => Obj.assign (Raw.buildPlans base) src
           | None => Raw.buildPlans base
           end;
         Raw.buildOptions :=
           Some (Obj.assign buildOptions (default [] (Private.buildOptions pv)));
         Raw.weights := Raw.weights base;
         Raw.slopes := Raw.slopes base;
         Raw.widths := Raw.widths base;
         Raw.collectPlans := Raw.collectPlans base;
         Raw.collectConfig := Raw.collectConfig base |}
  | None =>
      {| Raw.buildPlans := Raw.buildPlans base;
         Raw.buildOptions := Some buildOptions;
         Raw.weights := Raw.weights base;
         Raw.slopes := Raw.slopes base;
         Raw.widths := Raw.widths base;
         Raw.collectPlans := Raw.collectPlans base;
         Raw.collectConfig := Raw.collectConfig base |}
  end.

(** ** The width formula over the reals *)

(** [Math.round]: the nearest integer, ties towards positive infinity. *)
Definition Math_round (r : R) : Z := Zfloor (r + / 2).

(** [Math.round(500 * Math.pow(Math.sqrt(576 / 500), x - 5))] read over
    the real numbers. *)
Definition xCorrected_R (x : Z) : Z :=
  Math_round (500 * Rpower (sqrt (576 / 500)) (IZR x - 5)).

(** ** Runs of the fix-up *)

(** Successive calls of [VlShapeWidth.fix], collecting the results. *)
Fixpoint fixAll (xs : list Z) : M (list Z) :=
  match xs with
  | [] => ret []
  | x :: r =>
      let* v := VlShapeWidth_fix x in
      let* vs := fixAll r in
      ret (v :: vs)
  end.

(** The number of times a message was printed. *)
Definition printed (msg : string) (log : list string) : nat :=
  length (List.filter (fun m => String.eqb m msg) log).

(** The value [VlShapeWidth.fix] returns for [x] once the memory holds
    what earlier calls stored. *)
Definition fixedWidth (x : Z) : Z :=
  if (3 <=? x) && (x <=? 9) then xCorrected x else x.

(** The memory holds only what [VlShapeWidth.fix] stores. *)
Definition memoSound (st : State) : Prop :=
  forall x v, g_widthFixupMemory st !! x = Some v -> v = xCorrected x.

(** Memory and console agree: a grade is cached exactly when its warning
    was printed, and then it was printed once. *)
Definition memoLogged (st : State) : Prop :=
  forall g, 3 <= g <= 9 ->
    (g_widthFixupMemory st !! g = None /\
     printed (legacyWidthWarning g (xCorrected g)) (console st) = 0%nat)
    \/ (g_widthFixupMemory st !! g = Some (xCorrected g) /\
        printed (legacyWidthWarning g (xCorrected g)) (console st) = 1%nat).

Definition sqrt_ratio : R := sqrt (576 / 500).

(** What a validator without fix-up lets through: a number that passes
    its range check. *)
Definition accepted (validator : Validator) (v : val) : option Z :=
  match v with
  | VNum n => if validate validator n then Some n else None
  | _ => None
  end.

(** A weight entry and a width entry whose numbers all pass their
    checks. *)
Definition validWeight (we : AxisEntry.t) : bool :=
  match accepted VlShapeWeight (AxisEntry.shape we),
        accepted VlCssWeight (AxisEntry.css we),
        accepted VlMenuWeight (AxisEntry.menu we) with
  | Some _, Some _, Some _ => true
  | _, _, _ => false
  end.

Definition validWidth (wde : AxisEntry.t) : bool :=
  match accepted VlShapeWidth (AxisEntry.shape wde),
        accepted VlMenuWidth (AxisEntry.menu wde) with
  | Some _, Some _ => true
  | _, _ => false
  end.

(** The state of the loop over the plans in [BuildPlans] after the
    prefixes [done]: the returned plans are among them, and every target
    of a returned plan is indexed under a pair that spells the target's
    name, that of the last plan of [done] that records the target. *)
Definition indexed (done : list string) (plans : Obj.t Plan.t)
    (idx : Obj.t Index.t) : Prop :=
  (forall p, In p (Obj.keys plans) -> In p done)
  /\ forall p bp name,
       Obj.get p plans = Some bp -> In name (Plan.targets bp) ->
       exists p' s' bp' before after,
         Obj.get name idx = Some (Index.mk p' s')
         /\ makeFileName p' s' = name
         /\ Obj.get p' plans = Some bp' /\ In name (Plan.targets bp')
         /\ done = before ++ p' :: after
         /\ forall p2 bp2,
              In p2 after -> Obj.get p2 plans = Some bp2 ->
              ~ In name (Plan.targets bp2).

(** Every pair of a glyf list names a target of its source plan. *)
Definition produced (buildPlans : Obj.t Plan.t)
    (glyf : Obj.t (list GlyfPart.t)) : Prop :=
  forall name parts part,
    Obj.get name glyf = Some parts -> In part parts ->
    exists plan,
      Obj.get (GlyfPart.dir part) buildPlans = Some plan
      /\ In (GlyfPart.file part) (Plan.targets plan).

(** Every name of a ttc list is a glyf list with constituents. *)
Definition composed (glyf : Obj.t (list GlyfPart.t))
    (ttc : Obj.t (list string)) : Prop :=
  forall name glyfs g,
    Obj.get name ttc = Some glyfs -> In g glyfs ->
    exists parts, Obj.get g glyf = Some parts /\ parts <> [].

Definition sound (buildPlans : Obj.t Plan.t) (acc : CollectAcc) : Prop :=
  produced buildPlans (fst (fst acc)) /\ composed (fst (fst acc)) (snd (fst acc)).

(** The name of the intermediate container of a suffix-mapping item, as
    [getCollectPlans] computes it ([distinguishWidths] forced). *)
Definition glyfName
    (fnFileName : CollectConfig.t -> string -> string -> string -> string -> string)
    (config : CollectConfig.t) (collectPrefix : string) (sfi : SuffixItem.t)
  : string :=
  fnFileName
    {| CollectConfig.distinguishWeights := CollectConfig.distinguishWeights config;
       CollectConfig.distinguishWidths := VBool true;
       CollectConfig.distinguishSlope := CollectConfig.distinguishSlope config |}
    collectPrefix (SuffixItem.weight sfi) (SuffixItem.width sfi)
    (SuffixItem.slope sfi).

(** The glyf lists while the planner runs: no list repeats a pair, and
    every pair was pushed for a (collection, source, suffix) triple of
    [visited], into the list that the collection and the suffix name. *)
Definition distinct
    (fnFileName : CollectConfig.t -> string -> string -> string -> string -> string)
    (config : CollectConfig.t) (suffixMapping : Obj.t SuffixItem.t)
    (visited : string -> string -> string -> Prop)
    (glyf : Obj.t (list GlyfPart.t)) : Prop :=
  (forall gname parts, Obj.get gname glyf = Some parts -> List.NoDup parts)
  /\ (forall gname parts part,
        Obj.get gname glyf = Some parts -> In part parts ->
        exists c k sfi,
          visited c (GlyfPart.dir part) k
          /\ Obj.get k suffixMapping = Some sfi
          /\ GlyfPart.file part = makeFileName (GlyfPart.dir part) k
          /\ gname = glyfName fnFileName config c sfi).

(** The triples visited when the loops of [getCollectPlans] have gone
    through the collections [dc], the sources [ds] of the collection [c]
    and the suffixes [dk] of its source [p]. *)
Definition visitedGroups (dc : list string) : string -> string -> string -> Prop :=
  fun c _ _ => In c dc.
Definition visitedSources (dc : list string) (c : string) (ds : list string)
  : string -> string -> string -> Prop :=
  fun c' p _ => In c' dc \/ (c' = c /\ In p ds).
Definition visitedSuffixes (dc : list string) (c : string) (ds : list string)
    (p : string) (dk : list string) : string -> string -> string -> Prop :=
  fun c' p' k => In c' dc \/ (c' = c /\ In p' ds)
                 \/ (c' = c /\ p' = p /\ In k dk).

(** ** Sample configurations *)

Definition uprightOnly : Obj.t val := [("upright", VStr "normal")].
Definition normalWidth : Obj.t AxisEntry.t :=
  [("normal", AxisEntry.mk (VNum 500) (VStr "normal") (VNum 5))].
Definition boldEntry : AxisEntry.t :=
  AxisEntry.mk (VNum 700) (VNum 700) (VNum 700).
Definition regularEntry : AxisEntry.t :=
  AxisEntry.mk (VNum 400) (VNum 400) (VNum 400).
Definition standardCollectConfig : CollectConfig.t :=
  CollectConfig.mk (VBool false) (VBool true) (VBool false).

(** Two plans whose target names coincide: prefix "iosevka" with the
    weight "slab-bold", and prefix "iosevka-slab" with the weight "bold". *)
Definition collidingPlans : Raw.t :=
  {| Raw.buildPlans :=
       [("iosevka",
         {| Plan.family := VStr "Iosevka";
            Plan.weights := Some [("slab-bold", boldEntry)];
            Plan.slopes := Some uprightOnly;
            Plan.slants := None;
            Plan.widths := Some normalWidth;
            Plan.targets := [] |});
        ("iosevka-slab",
         {| Plan.family := VStr "Iosevka Slab";
            Plan.weights := Some [("bold", boldEntry)];
            Plan.slopes := Some uprightOnly;
            Plan.slants := None;
            Plan.widths := Some normalWidth;
            Plan.targets := [] |})];
     Raw.buildOptions := None;
     Raw.weights := None; Raw.slopes := None; Raw.widths := None;
     Raw.collectPlans := [];
     Raw.collectConfig := standardCollectConfig |}.

(** Two plans on the global axes, the second restricted to the upright
    slope, and two collections: "c" draws from both plans, "d" names the
    first plan twice. *)
Definition sparsePlans : Raw.t :=
  {| Raw.buildPlans :=
       [("a",
         {| Plan.family := VStr "A";
            Plan.weights := None; Plan.slopes := None; Plan.slants := None;
            Plan.widths := None; Plan.targets := [] |});
        ("b",
         {| Plan.family := VStr "B";
            Plan.weights := None; Plan.slopes := Some uprightOnly;
            Plan.slants := None; Plan.widths := None; Plan.targets := [] |})];
     Raw.buildOptions := None;
     Raw.weights := Some [("regular", regularEntry)];
     Raw.slopes := Some [("upright", VStr "normal"); ("italic", VStr "italic")];
     Raw.widths := Some normalWidth;
     Raw.collectPlans :=
       [("c", Collect.mk (Some ["a"; "b"]));
        ("d", Collect.mk (Some ["a"; "a"]))];
     Raw.collectConfig := standardCollectConfig |}.

(** The settled values of [BuildPlans] and [StandardSuffixes] for
    [sparsePlans]. *)
Definition sparseBuildPlans : Obj.t Plan.t :=
  match fst (BuildPlans sparsePlans initialState) with
  | Ok r => BuildPlansResult.buildPlans r
  | Throw _ => []
  end.
Definition sparseStandardSuffixes : Obj.t SuffixItem.t :=
  match fst (getSuffixMapping (Raw.weights sparsePlans) (Raw.slopes sparsePlans)
                              (Raw.widths sparsePlans) initialState) with
  | Ok m => m
  | Throw _ => []
  end.
Definition sparseCollectPlans : Result CollectPlansResult.t :=
  getCollectPlans true sparseBuildPlans (Raw.collectPlans sparsePlans)
                  sparseStandardSuffixes (Raw.collectConfig sparsePlans)
                  fnStandardTtc.

(** ** Font metadata *)

Module FontShape.
Record t : Type := mk { weight : val; slope : val; width : val }.
End FontShape.

Module FontMenu.
Record t : Type := mk {
  family : val; version : string; width : val; slope : val; weight : val
}.
End FontMenu.

Module FontCss.
Record t : Type := mk { weight : val; stretch : val; style : val }.
End FontCss.

(** The record that [FontInfoOf] returns.  The fields that are read off
    build-plan properties outside [Plan.t] (variants, featureControl,
    ligations, serifs, spacing, hintParams, ...) are left out with them. *)
Module FontInfo.
Record t : Type := mk {
  name : string;
  shape : FontShape.t;
  menu : FontMenu.t;
  css : FontCss.t
}.
End FontInfo.

Definition planNotFound (privateExists : bool) (gid : string) : string :=
  "Build plan for '" +:+ gid +:+ "' not found."
  +:+ whyBuildPlanIsnNotThere privateExists gid.

(** [FontInfoOf(fileName)], given the settled values of [BuildPlans] and
    [Version].  Each of the three reads ([fileNameToBpMap[fileName]],
    [buildPlans[fi0.prefix]], the mapping under [fi0.suffix]) finds the
    own key, an inherited member or nothing.  An inherited member passes
    the guards; its properties are undefined: as the index entry it sends
    the next two reads to the key "undefined", as the plan it has no
    family name and no tables, as the suffix item it leaves the fields
    of the record undefined. *)
Definition FontInfoOf (privateExists : bool) (plans : BuildPlansResult.t)
    (version : string) (fileName : string) : M FontInfo.t :=
  match Obj.read fileName (BuildPlansResult.fileNameToBpMap plans) with
  | Obj.Absent => fail (planNotFound privateExists fileName)
  | fi0 =>
      let prefix := ToString (Obj.prop (fun i => VStr (Index.prefix i)) fi0) in
      let suffix := ToString (Obj.prop (fun i => VStr (Index.suffix i)) fi0) in
      match Obj.read prefix (BuildPlansResult.buildPlans plans) with
      | Obj.Absent => fail (planNotFound privateExists fileName)
      | bp0 =>
          let bp := match bp0 with Obj.Own bp => bp | _ => emptyPlan end in
          let* mapping :=
            getSuffixMapping (Plan.weights bp) (Plan.slopes bp) (Plan.widths bp) in
          match Obj.read suffix mapping with
          | Obj.Absent => throw (TypeError "Cannot read properties of undefined")
          | sfi =>
              ret {| FontInfo.name := fileName;
                     FontInfo.shape :=
                       {| FontShape.weight :=
                            Obj.prop (fun i => VNum (SuffixItem.shapeWeight i)) sfi;
                          FontShape.slope :=
                            Obj.prop (fun i => VStr (SuffixItem.slope i)) sfi;
                          FontShape.width :=
                            Obj.prop (fun i => VNum (SuffixItem.shapeWidth i)) sfi |};
                     FontInfo.menu :=
                       {| FontMenu.family := Plan.family bp;
                          FontMenu.version := version;
                          FontMenu.width :=
                            Obj.prop (fun i => VNum (SuffixItem.menuWidth i)) sfi;
                          FontMenu.slope := Obj.prop SuffixItem.menuSlope sfi;
                          FontMenu.weight :=
                            Obj.prop (fun i => VNum (SuffixItem.menuWeight i)) sfi |};
                     FontInfo.css :=
                       {| FontCss.weight :=
                            Obj.prop (fun i => VNum (SuffixItem.cssWeight i)) sfi;
                          FontCss.stretch := Obj.prop SuffixItem.cssStretch sfi;
                          FontCss.style := Obj.prop SuffixItem.cssStyle sfi |} |}
          end
      end
  end.

(** ** Export plans and archives *)



(** The containers that [ExportSuperTtc(gr)], [CollectionArchiveFile] and
    [TtcOnlyCollectionArchiveFile] request:
    [Array.from(new Set(cp.ttcContents[gr]))]. *)
Definition ExportSuperTtc_parts (cp : CollectPlansResult.t) (gr : string)
  : list string :=
  setFrom (default [] (Obj.get gr (CollectPlansResult.ttcContents cp))).

(** [OptimizeWithTtx], given the settled values of [HasTtx] and
    [RawPlans]: [hasTtx && !!rp.buildOptions.optimizeWithTtx]; the
    options are read only when [hasTtx] is true. *)
Definition OptimizeWithTtx (hasTtx : bool) (rp : Raw.t) : Result bool :=
  if hasTtx then
    match Raw.buildOptions rp with
    | Some options =>
        Ok (truthy (default VUndefined (Obj.get "optimizeWithTtx" options)))
    | None => Throw (TypeError "Cannot read properties of undefined")
    end
  else Ok false.

(** ** Computations that only print *)

(** [m] returns [res] and appends [log] to the console, whatever the
    state, and leaves the fix-up memory as it is. *)
Definition prints {A} (m : M A) (res : Result A) (log : list string) : Prop :=
  forall st,
    m st = (res, {| g_widthFixupMemory := g_widthFixupMemory st;
                    console := console st ++ log |}).

Definition printsOnly {A} (m : M A) : Prop :=
  exists res log, prints m res log.

(** What [getSuffixMapping] guarantees of an entry of its result. *)
Definition resolvedItem (weights : Obj.t AxisEntry.t) (slopes : Obj.t val)
    (widths : Obj.t AxisEntry.t) (suffix : string) (item : SuffixItem.t)
  : Prop :=
  exists we wde,
    Obj.get (SuffixItem.weight item) weights = Some we
    /\ Obj.get (SuffixItem.width item) widths = Some wde
    /\ In (SuffixItem.slope item) (Obj.keys slopes)
    /\ suffix = makeSuffix (SuffixItem.weight item) (SuffixItem.width item)
                           (SuffixItem.slope item) DEFAULT_SUBFAMILY
    /\ AxisEntry.shape we = VNum (SuffixItem.shapeWeight item)
    /\ AxisEntry.css we = VNum (SuffixItem.cssWeight item)
    /\ AxisEntry.menu we = VNum (SuffixItem.menuWeight item)
    /\ AxisEntry.shape wde = VNum (SuffixItem.shapeWidth item)
    /\ AxisEntry.menu wde = VNum (SuffixItem.menuWidth item)
    /\ 100 <= SuffixItem.shapeWeight item <= 900
    /\ 0 < SuffixItem.cssWeight item < 1000
    /\ 0 < SuffixItem.menuWeight item < 1000
    /\ 433 <= SuffixItem.shapeWidth item <= 665
    /\ 1 <= SuffixItem.menuWidth item <= 9.



(** The sources of a collection that [getCollectPlans] does not skip
    ([!collect || !collect.from || !collect.from.length]). *)
Definition groupSources (rawCollectPlans : Obj.t Collect.t) (c : string)
  : option (list string) :=
  match Obj.get c rawCollectPlans with
  | Some {| Collect.from := Some (p :: ps) |} => Some (p :: ps)
  | _ => None
  end.

(** What [CollectionArchiveFile(gr, version)] asks for before packaging:
    [sourceGroups.map(...)] and [ttcFiles.map(...)]; a TypeError when
    [groupDecomposition[gr]] is undefined. *)
Definition CollectionArchiveFile_needs (cp : CollectPlansResult.t) (gr : string)
  : Result (list string * list string) :=
  let sourceGroups := Obj.get gr (CollectPlansResult.groupDecomposition cp) in
  let ttcFiles :=
    setFrom (default [] (Obj.get gr (CollectPlansResult.ttcContents cp))) in
  match sourceGroups with
  | Some groups => Ok (groups, ttcFiles)
  | None => Throw (TypeError "Cannot read properties of undefined")
  end.

(** The ttc lists and the file list of a collection while the planner
    runs: no ttc list is empty, the file list repeats no name, and the
    names of [kept] and of the file list are keys of the ttc lists. *)
Definition listed (kept : string -> Prop) (acc : CollectAcc) : Prop :=
  (forall name glyfs, Obj.get name (snd (fst acc)) = Some glyfs -> glyfs <> [])
  /\ (forall f, kept f \/ In f (snd acc) -> Obj.get f (snd (fst acc)) <> None)
  /\ List.NoDup (snd acc).

Definition catalogued (cp : CollectPlansResult.t) : Prop :=
  (forall name glyfs,
     Obj.get name (CollectPlansResult.ttcComposition cp) = Some glyfs ->
     glyfs <> [])
  /\ forall c files,
       Obj.get c (CollectPlansResult.ttcContents cp) = Some files ->
       List.NoDup files
       /\ forall f, In f files ->
            Obj.get f (CollectPlansResult.ttcComposition cp) <> None.

(** ** What the planner pushes *)

(** The pair (container, intermediate container) that the planner pushes
    for the collection [c], the source [p] with the targets [targets]
    and the suffix [k]: none when the source has no target of that
    suffix. *)
Definition suffixPush
    (fnFileName : CollectConfig.t -> string -> string -> string -> string -> string)
    (config : CollectConfig.t) (c p : string) (targets : list string)
    (suffixMapping : Obj.t SuffixItem.t) (k : string)
  : list (string * string) :=
  match Obj.get k suffixMapping with
  | Some sfi =>
      if setHas (makeFileName p k) targets
      then [(fnFileName config c (SuffixItem.weight sfi)
                        (SuffixItem.width sfi) (SuffixItem.slope sfi),
             glyfName fnFileName config c sfi)]
      else []
  | None => []
  end.

(** The pushes for one entry of a from-list, for one collection and for
    the whole run, in the order of the loops. *)
Definition sourcePushes
    (fnFileName : CollectConfig.t -> string -> string -> string -> string -> string)
    (config : CollectConfig.t) (buildPlans : Obj.t Plan.t)
    (suffixMapping : Obj.t SuffixItem.t) (c p : string)
  : list (string * string) :=
  flat_map
    (suffixPush fnFileName config c p
       (match Obj.get p buildPlans with
        | Some plan => Plan.targets plan
        | None => []
        end)
       suffixMapping)
    (Obj.keys suffixMapping).

Definition groupPushes
    (fnFileName : CollectConfig.t -> string -> string -> string -> string -> string)
    (config : CollectConfig.t) (buildPlans : Obj.t Plan.t)
    (rawCollectPlans : Obj.t Collect.t) (suffixMapping : Obj.t SuffixItem.t)
    (c : string) : list (string * string) :=
  flat_map (sourcePushes fnFileName config buildPlans suffixMapping c)
           (default [] (groupSources rawCollectPlans c)).

Definition ttcPushes
    (fnFileName : CollectConfig.t -> string -> string -> string -> string -> string)
    (config : CollectConfig.t) (buildPlans : Obj.t Plan.t)
    (rawCollectPlans : Obj.t Collect.t) (suffixMapping : Obj.t SuffixItem.t)
  : list (string * string) :=
  flat_map (groupPushes fnFileName config buildPlans rawCollectPlans
                        suffixMapping)
           (Obj.keys rawCollectPlans).

(** The intermediate containers pushed onto the container [t]. *)
Definition pushedTo (t : string) (pushes : list (string * string))
  : list string :=
  map snd (List.filter (fun pr => String.eqb (fst pr) t) pushes).

(** ** Fonts that reach the containers *)

(** [x] stands in the list that [o] has under [k]. *)
Definition holds {A} (o : Obj.t (list A)) (k : string) (x : A) : Prop :=
  exists l, Obj.get k o = Some l /\ In x l.

(** Nothing is taken out of the lists while a collection is gone through. *)
Definition grown (acc acc' : CollectAcc) : Prop :=
  (forall g part, holds (fst (fst acc)) g part -> holds (fst (fst acc')) g part)
  /\ (forall t g, holds (snd (fst acc)) t g -> holds (snd (fst acc')) t g)
  /\ (forall f, In f (snd acc) -> In f (snd acc')).

(** The font of the source [p] and the suffix [k] has reached its
    intermediate container, that one its container, and that one the
    file list of the collection [c]. *)
Definition reached
    (fnFileName : CollectConfig.t -> string -> string -> string -> string -> string)
    (config : CollectConfig.t) (c p k : string) (sfi : SuffixItem.t)
    (acc : CollectAcc) : Prop :=
  holds (fst (fst acc)) (glyfName fnFileName config c sfi)
        {| GlyfPart.dir := p; GlyfPart.file := makeFileName p k |}
  /\ holds (snd (fst acc))
           (fnFileName config c (SuffixItem.weight sfi) (SuffixItem.width sfi)
                       (SuffixItem.slope sfi))
           (glyfName fnFileName config c sfi)
  /\ In (fnFileName config c (SuffixItem.weight sfi) (SuffixItem.width sfi)
                    (SuffixItem.slope sfi))
        (snd acc).

Definition delivered
    (fnFileName : CollectConfig.t -> string -> string -> string -> string -> string)
    (config : CollectConfig.t) (c p k : string) (sfi : SuffixItem.t)
    (cp : CollectPlansResult.t) : Prop :=
  holds (CollectPlansResult.glyfTtcComposition cp)
        (glyfName fnFileName config c sfi)
        {| GlyfPart.dir := p; GlyfPart.file := makeFileName p k |}
  /\ holds (CollectPlansResult.ttcComposition cp)
           (fnFileName config c (SuffixItem.weight sfi) (SuffixItem.width sfi)
                       (SuffixItem.slope sfi))
           (glyfName fnFileName config c sfi)
  /\ holds (CollectPlansResult.ttcContents cp) c
           (fnFileName config c (SuffixItem.weight sfi) (SuffixItem.width sfi)
                       (SuffixItem.slope sfi)).

(** ** Further sample configurations *)

(** A weight whose shape grade is out of range. *)
Definition heavyWeights : Obj.t AxisEntry.t :=
  [("heavy", AxisEntry.mk (VNum 5000) (VNum 900) (VNum 900))].

(** A weight with the shape value 950, alone, after a weight that passes
    its checks, and after a weight whose CSS value is out of range. *)
Definition weight950 : Obj.t AxisEntry.t :=
  [("heavy", AxisEntry.mk (VNum 950) (VNum 900) (VNum 900))].
Definition weightsValidThen950 : Obj.t AxisEntry.t :=
  [("a", AxisEntry.mk (VNum 400) (VNum 400) (VNum 400));
   ("b", AxisEntry.mk (VNum 950) (VNum 700) (VNum 700))].
Definition weightsCssThen950 : Obj.t AxisEntry.t :=
  [("a", AxisEntry.mk (VNum 400) (VNum 0) (VNum 400));
   ("b", AxisEntry.mk (VNum 950) (VNum 700) (VNum 700))].

(** [sparsePlans] with a third plan that has no family name. *)
Definition namelessPlans : Raw.t :=
  {| Raw.buildPlans :=
       Raw.buildPlans sparsePlans
       ++ [("n",
            {| Plan.family := VUndefined;
               Plan.weights := None; Plan.slopes := None; Plan.slants := None;
               Plan.widths := None; Plan.targets := [] |})];
     Raw.buildOptions := Raw.buildOptions sparsePlans;
     Raw.weights := Raw.weights sparsePlans;
     Raw.slopes := Raw.slopes sparsePlans;
     Raw.widths := Raw.widths sparsePlans;
     Raw.collectPlans := Raw.collectPlans sparsePlans;
     Raw.collectConfig := Raw.collectConfig sparsePlans |}.

(** Collections with, without and with an empty list of sources. *)
Definition partialCollections : Obj.t Collect.t :=
  [("c", Collect.mk (Some ["a"; "b"]));
   ("e", Collect.mk None);
   ("f", Collect.mk (Some []))].

(** A collection that names a plan that does not exist. *)
Definition strayCollections : Obj.t Collect.t :=
  [("c", Collect.mk (Some ["a"; "zz"]))].

(** A collection that names a member of [Object.prototype]. *)
Definition memberCollections : Obj.t Collect.t :=
  [("c", Collect.mk (Some ["a"; "constructor"]))].

(** * Properties *)

(** ** Objects *)

Module ObjFacts.
Import Obj.

Section WithValues.
Context {A : Type}.
Implicit Types (o : Obj.t A) (k : string) (v : A).

Lemma get_In_keys o k v : get k o = Some v -> In k (keys o).
Proof.
  induction o as [|[k' v'] r IH]; simpl; [discriminate|].
  destruct (String.eqb_spec k' k); intros H; [now left | right; auto].
Qed.

Lemma get_None_keys o k : get k o = None <-> ~ In k (keys o).
Proof.
  induction o as [|[k' v'] r IH]; simpl; [tauto|].
  destruct (String.eqb_spec k' k).
  - split; [discriminate | intros H; exfalso; apply H; now left].
  - rewrite IH. tauto.
Qed.

Lemma has_true o k : has k o = true <-> In k (keys o).
Proof.
  unfold has. destruct (get k o) eqn:E.
  - split; [intros _; eapply get_In_keys; eauto | reflexivity].
  - apply get_None_keys in E. split; [discriminate | tauto].
Qed.

Lemma get_replace_eq o k v : In k (keys o) -> get k (replace k v o) = Some v.
Proof.
  induction o as [|[k' v'] r IH]; simpl; [tauto|].
  destruct (String.eqb_spec k' k) as [->|N]; simpl.
  - now rewrite String.eqb_refl.
  - intros [?|H]; [congruence|].
    destruct (String.eqb_spec k' k); [congruence | auto].
Qed.

Lemma get_replace_ne o k k' v : k <> k' -> get k' (replace k v o) = get k' o.
Proof.
  intros N. induction o as [|[k0 v0] r IH]; simpl; [reflexivity|].
  destruct (String.eqb_spec k0 k) as [->|N0]; simpl.
  - destruct (String.eqb_spec k k'); [congruence | reflexivity].
  - now rewrite IH.
Qed.

Lemma keys_replace o k v : keys (replace k v o) = keys o.
Proof.
  induction o as [|[k0 v0] r IH]; simpl; [reflexivity|].
  destruct (String.eqb_spec k0 k); simpl; [reflexivity | now rewrite IH].
Qed.

Lemma get_insertIndex_eq o n k v :
  get k o = None -> get k (insertIndex n k v o) = Some v.
Proof.
  induction o as [|[k0 v0] r IH]; simpl; intros G.
  - now rewrite String.eqb_refl.
  - destruct (String.eqb_spec k0 k) as [->|N0]; [discriminate|].
    destruct (arrayIndex k0) as [n0|]; [destruct (n0 <? n)%N|]; simpl;
      rewrite ?String.eqb_refl; try reflexivity.
    destruct (String.eqb_spec k0 k); [congruence | auto].
Qed.

Lemma get_insertIndex_ne o n k k' v :
  k <> k' -> get k' (insertIndex n k v o) = get k' o.
Proof.
  intros N. induction o as [|[k0 v0] r IH]; simpl.
  - destruct (String.eqb_spec k k'); [congruence | reflexivity].
  - destruct (arrayIndex k0) as [n0|]; [destruct (n0 <? n)%N|]; simpl;
      try rewrite IH;
      destruct (String.eqb_spec k k'); try congruence; reflexivity.
Qed.

Lemma In_keys_insertIndex o n k v k' :
  In k' (keys (insertIndex n k v o)) <-> k' = k \/ In k' (keys o).
Proof.
  induction o as [|[k0 v0] r IH]; simpl; [intuition|].
  destruct (arrayIndex k0) as [n0|]; [destruct (n0 <? n)%N|]; simpl;
    try rewrite IH; intuition.
Qed.

Lemma get_app o1 o2 k :
  get k (o1 ++ o2) = match get k o1 with Some a => Some a | None => get k o2 end.
Proof.
  induction o1 as [|[k0 v0] r IH]; simpl; [reflexivity|].
  destruct (String.eqb k0 k); auto.
Qed.

Lemma get_set_eq o k v : get k (set k v o) = Some v.
Proof.
  unfold set. destruct (has k o) eqn:H.
  - apply get_replace_eq. now apply has_true.
  - assert (G : get k o = None).
    { unfold has in H. destruct (get k o); [discriminate | reflexivity]. }
    destruct (arrayIndex k).
    + now apply get_insertIndex_eq.
    + rewrite get_app, G. simpl. now rewrite String.eqb_refl.
Qed.

Lemma get_set_ne o k k' v : k <> k' -> get k' (set k v o) = get k' o.
Proof.
  intros N. unfold set. destruct (has k o).
  - now apply get_replace_ne.
  - destruct (arrayIndex k).
    + now apply get_insertIndex_ne.
    + rewrite get_app. destruct (get k' o); [reflexivity|]. simpl.
      destruct (String.eqb_spec k k'); [congruence | reflexivity].
Qed.

Lemma get_set o k k' v :
  get k' (set k v o) = if String.eqb k k' then Some v else get k' o.
Proof.
  destruct (String.eqb_spec k k') as [->|N];
    [apply get_set_eq | now apply get_set_ne].
Qed.

Lemma In_keys_set o k v k' :
  In k' (keys (set k v o)) <-> k' = k \/ In k' (keys o).
Proof.
  unfold set. destruct (has k o) eqn:H.
  - rewrite keys_replace. apply has_true in H. intuition congruence.
  - destruct (arrayIndex k).
    + apply In_keys_insertIndex.
    + unfold keys. rewrite map_app, in_app_iff. simpl. intuition.
Qed.

Lemma NoDup_keys_insertIndex o n k v :
  ~ In k (keys o) -> List.NoDup (keys o) ->
  List.NoDup (keys (insertIndex n k v o)).
Proof.
  induction o as [|[k0 v0] r IH]; simpl; intros NI ND.
  - constructor; [intros [] | constructor].
  - assert (List.NoDup (k :: k0 :: keys r)).
    { apply List.NoDup_cons; [simpl; tauto | exact ND]. }
    destruct (arrayIndex k0) as [n0|]; [destruct (n0 <? n)%N|]; simpl; auto.
    apply NoDup_cons_iff in ND as [N0 ND].
    apply List.NoDup_cons.
    + rewrite In_keys_insertIndex. intros [->|?]; tauto.
    + apply IH; tauto.
Qed.

Lemma wf_set o k v : wf o -> wf (set k v o).
Proof.
  unfold wf, set. intros ND. destruct (has k o) eqn:H.
  - now rewrite keys_replace.
  - assert (NI : ~ In k (keys o)).
    { rewrite <- has_true. congruence. }
    destruct (arrayIndex k).
    + now apply NoDup_keys_insertIndex.
    + unfold keys. rewrite map_app. simpl.
      apply List.NoDup_app; [exact ND | |].
      * constructor; [intros [] | constructor].
      * intros x Hx [->|[]]. now apply NI.
Qed.

Lemma get_assign (target source : Obj.t A) k :
  get k (assign target source) =
  match get k source with Some v => Some v | None => get k target end.
Proof.
  unfold assign.
  assert (G : forall l acc,
             get k (fold_left
                      (fun acc k0 => match get k0 source with
                                     | Some v => set k0 v acc
                                     | None => acc
                                     end) l acc) =
             if existsb (String.eqb k) l
             then match get k source with Some v => Some v | None => get k acc end
             else get k acc).
  { induction l as [|k0 l IH]; intros acc; simpl; [reflexivity|].
    rewrite IH. destruct (String.eqb_spec k k0) as [->|N]; simpl.
    - destruct (get k0 source) eqn:E.
      + rewrite get_set_eq. destruct (existsb _ l); reflexivity.
      + destruct (existsb _ l); reflexivity.
    - destruct (get k0 source) eqn:E; [|reflexivity].
      rewrite get_set_ne by congruence. reflexivity. }
  rewrite G. destruct (existsb (String.eqb k) (keys source)) eqn:E;
    [reflexivity|].
  destruct (get k source) eqn:E'; [|reflexivity].
  apply get_In_keys in E'.
  assert (existsb (String.eqb k) (keys source) = true).
  { apply existsb_exists. exists k. split; [exact E' | apply String.eqb_refl]. }
  congruence.
Qed.

End WithValues.

Lemma NoDup_split_notin {A} (done rest : list A) (x : A) :
  List.NoDup (done ++ x :: rest) -> ~ In x done.
Proof.
  intros ND Hin. apply NoDup_remove_2 in ND. apply ND.
  apply in_app_iff. now left.
Qed.

End ObjFacts.

(** ** The legacy width grades *)

Module WidthFormula.
Local Open Scope R_scope.

Local Abbreviation s := sqrt_ratio.

Lemma s_sq : s * s = 576 / 500.
Proof. unfold sqrt_ratio. apply sqrt_sqrt. lra. Qed.

Lemma s_pos : 0 < s.
Proof. unfold sqrt_ratio. apply sqrt_lt_R0. lra. Qed.

Lemma s_bounds : 10733 / 10000 < s < 10734 / 10000.
Proof. pose proof s_sq. pose proof s_pos. split; nra. Qed.

Lemma inv_s_bounds : 9316 / 10000 < / s < 9318 / 10000.
Proof.
  pose proof s_bounds as [L U]. pose proof s_pos as P.
  assert (E : / s * s = 1) by (apply Rinv_l; lra).
  assert (0 < / s) by (apply Rinv_0_lt_compat; exact P).
  split; nra.
Qed.

Lemma Math_round_eq (r : R) (z : Z) :
  IZR z - / 2 <= r < IZR z + / 2 -> Math_round r = z.
Proof. intros H. unfold Math_round. apply Zfloor_eq. lra. Qed.

Lemma Rpower_s_nat (n : nat) : Rpower s (INR n) = s ^ n.
Proof. apply Rpower_pow, s_pos. Qed.

Lemma Rpower_s_neg (n : nat) : Rpower s (- INR n) = / s ^ n.
Proof. rewrite Rpower_Ropp, Rpower_s_nat. reflexivity. Qed.

Lemma grade3 : xCorrected_R 3 = 434%Z.
Proof.
  unfold xCorrected_R. fold sqrt_ratio.
  replace (3 - 5) with (- INR 2) by (simpl; lra).
  rewrite Rpower_s_neg. apply Math_round_eq.
  replace (s ^ 2) with (576 / 500) by (simpl; rewrite Rmult_1_r, s_sq; reflexivity).
  lra.
Qed.

Lemma grade4 : xCorrected_R 4 = 466%Z.
Proof.
  unfold xCorrected_R. fold sqrt_ratio.
  replace (4 - 5) with (- INR 1) by (simpl; lra).
  rewrite Rpower_s_neg. apply Math_round_eq.
  replace (s ^ 1) with s by (simpl; lra).
  pose proof inv_s_bounds. lra.
Qed.

Lemma grade5 : xCorrected_R 5 = 500%Z.
Proof.
  unfold xCorrected_R. fold sqrt_ratio.
  replace (5 - 5) with (INR 0) by (simpl; lra).
  rewrite Rpower_s_nat. apply Math_round_eq. simpl. lra.
Qed.

Lemma grade6 : xCorrected_R 6 = 537%Z.
Proof.
  unfold xCorrected_R. fold sqrt_ratio.
  replace (6 - 5) with (INR 1) by (simpl; lra).
  rewrite Rpower_s_nat. apply Math_round_eq.
  pose proof s_bounds. simpl. lra.
Qed.

Lemma grade7 : xCorrected_R 7 = 576%Z.
Proof.
  unfold xCorrected_R. fold sqrt_ratio.
  replace (7 - 5) with (INR 2) by (simpl; lra).
  rewrite Rpower_s_nat. apply Math_round_eq.
  replace (s ^ 2) with (576 / 500) by (simpl; rewrite Rmult_1_r, s_sq; reflexivity).
  lra.
Qed.

Lemma grade8 : xCorrected_R 8 = 618%Z.
Proof.
  unfold xCorrected_R. fold sqrt_ratio.
  replace (8 - 5) with (INR 3) by (simpl; lra).
  rewrite Rpower_s_nat. apply Math_round_eq.
  replace (s ^ 3) with (576 / 500 * s)
    by (simpl; rewrite Rmult_1_r, <- s_sq; ring).
  pose proof s_bounds. lra.
Qed.

Lemma s_pow4 : s ^ 4 = (576 / 500) * (576 / 500).
Proof. replace (s ^ 4) with ((s * s) * (s * s)) by ring. now rewrite s_sq. Qed.

Lemma grade9 : xCorrected_R 9 = 664%Z.
Proof.
  unfold xCorrected_R. fold sqrt_ratio.
  replace (9 - 5) with (INR 4) by (simpl; lra).
  rewrite Rpower_s_nat, s_pow4. apply Math_round_eq. lra.
Qed.

(** The integer computation of [xCorrected] is the rounded real formula
    on every legacy grade. *)
Lemma xCorrected_real (x : Z) :
  (3 <= x <= 9)%Z -> xCorrected_R x = xCorrected x.
Proof.
  intros H.
  assert (C : (x = 3 \/ x = 4 \/ x = 5 \/ x = 6 \/ x = 7 \/ x = 8 \/ x = 9)%Z)
    by lia.
  destruct C as [->|[->|[->|[->|[->|[->| ->]]]]]];
    [rewrite grade3 | rewrite grade4 | rewrite grade5 | rewrite grade6
     | rewrite grade7 | rewrite grade8 | rewrite grade9];
    vm_compute; reflexivity.
Qed.

End WidthFormula.


Module FixFacts.

Lemma inRange_spec (x : Z) :
  ((3 <=? x) && (x <=? 9) = true <-> 3 <= x <= 9).
Proof. rewrite andb_true_iff. lia. Qed.

(** A first call on a grade: compute, warn, store. *)
Lemma fix_miss (st : State) (x : Z) :
  3 <= x <= 9 -> g_widthFixupMemory st !! x = None ->
  VlShapeWidth_fix x st =
    (Ok (xCorrected x),
     {| g_widthFixupMemory := <[x := xCorrected x]> (g_widthFixupMemory st);
        console := console st ++ [legacyWidthWarning x (xCorrected x)] |}).
Proof.
  intros R E. unfold VlShapeWidth_fix.
  apply inRange_spec in R. rewrite R.
  unfold bind, memoryGet, echo_warn, memorySet, ret. simpl. rewrite E.
  reflexivity.
Qed.

(** A later call: the cached value, and nothing else happens. *)
Lemma fix_hit (st : State) (x v : Z) :
  3 <= x <= 9 -> g_widthFixupMemory st !! x = Some v ->
  VlShapeWidth_fix x st = (Ok v, st).
Proof.
  intros R E. unfold VlShapeWidth_fix.
  apply inRange_spec in R. rewrite R.
  unfold bind, memoryGet, ret. simpl. rewrite E. reflexivity.
Qed.

Lemma fix_outside (st : State) (x : Z) :
  x < 3 \/ 9 < x -> VlShapeWidth_fix x st = (Ok x, st).
Proof.
  intros R. unfold VlShapeWidth_fix.
  destruct ((3 <=? x) && (x <=? 9)) eqn:E; [|reflexivity].
  apply inRange_spec in E. lia.
Qed.

Lemma memoSound_initial : memoSound initialState.
Proof. intros x v H. simpl in H. rewrite lookup_empty in H. discriminate. Qed.

Lemma fix_value (st : State) (x : Z) :
  memoSound st -> fst (VlShapeWidth_fix x st) = Ok (fixedWidth x).
Proof.
  intros S. unfold fixedWidth.
  destruct ((3 <=? x) && (x <=? 9)) eqn:E.
  - apply inRange_spec in E.
    destruct (g_widthFixupMemory st !! x) as [v|] eqn:G.
    + rewrite (fix_hit st x v E G). simpl. now rewrite (S x v G).
    + now rewrite (fix_miss st x E G).
  - rewrite fix_outside; [reflexivity|].
    destruct (Z.leb_spec 3 x), (Z.leb_spec x 9); simpl in E;
      try discriminate; lia.
Qed.

Lemma fix_memoSound (st : State) (x : Z) :
  memoSound st -> memoSound (snd (VlShapeWidth_fix x st)).
Proof.
  intros S. destruct ((3 <=? x) && (x <=? 9)) eqn:E.
  - apply inRange_spec in E.
    destruct (g_widthFixupMemory st !! x) as [v|] eqn:G.
    + now rewrite (fix_hit st x v E G).
    + rewrite (fix_miss st x E G). simpl. intros y w H. simpl in H.
      destruct (decide (x = y)) as [->|N].
      * rewrite lookup_insert_eq in H. congruence.
      * rewrite lookup_insert_ne in H by exact N. now apply S.
  - rewrite fix_outside; [exact S|].
    destruct (Z.leb_spec 3 x), (Z.leb_spec x 9); simpl in E;
      try discriminate; lia.
Qed.

Lemma xCorrected_grades :
  map xCorrected [3; 4; 5; 6; 7; 8; 9] = [434; 466; 500; 537; 576; 618; 664].
Proof. vm_compute. reflexivity. Qed.

Lemma xCorrected_mono (x y : Z) :
  3 <= x -> x < y -> y <= 9 -> xCorrected x < xCorrected y.
Proof.
  intros Hx Hxy Hy.
  assert (Cx : x = 3 \/ x = 4 \/ x = 5 \/ x = 6 \/ x = 7 \/ x = 8) by lia.
  assert (Cy : y = 4 \/ y = 5 \/ y = 6 \/ y = 7 \/ y = 8 \/ y = 9) by lia.
  destruct Cx as [->|[->|[->|[->|[->| ->]]]]];
    destruct Cy as [->|[->|[->|[->|[->| ->]]]]];
    try lia; vm_compute; reflexivity.
Qed.

Lemma warning_inj (x g : Z) :
  3 <= x <= 9 -> 3 <= g <= 9 -> x <> g ->
  String.eqb (legacyWidthWarning x (xCorrected x))
             (legacyWidthWarning g (xCorrected g)) = false.
Proof.
  intros Hx Hg N.
  assert (Cx : x = 3 \/ x = 4 \/ x = 5 \/ x = 6 \/ x = 7 \/ x = 8 \/ x = 9) by lia.
  assert (Cg : g = 3 \/ g = 4 \/ g = 5 \/ g = 6 \/ g = 7 \/ g = 8 \/ g = 9) by lia.
  destruct Cx as [->|[->|[->|[->|[->|[->| ->]]]]]];
    destruct Cg as [->|[->|[->|[->|[->|[->| ->]]]]]];
    try congruence; vm_compute; reflexivity.
Qed.

Lemma printed_app (msg : string) (l1 l2 : list string) :
  printed msg (l1 ++ l2) = (printed msg l1 + printed msg l2)%nat.
Proof. unfold printed. now rewrite List.filter_app, length_app. Qed.

Lemma printed_single (msg m : string) :
  printed msg [m] = if String.eqb m msg then 1%nat else 0%nat.
Proof. unfold printed. cbn [List.filter]. now destruct (String.eqb m msg). Qed.

Lemma memoLogged_initial : memoLogged initialState.
Proof. intros g _. left. split; [apply lookup_empty | reflexivity]. Qed.

(** One call keeps memory and console in agreement; it prints the
    warning of [x] when [x] is a grade that was not cached, and no other
    message. *)
Lemma fix_step (st : State) (x : Z) :
  memoLogged st ->
  exists st',
    VlShapeWidth_fix x st = (Ok (fixedWidth x), st') /\ memoLogged st' /\
    forall g, 3 <= g <= 9 ->
      printed (legacyWidthWarning g (xCorrected g)) (console st') =
      if bool_decide (g = x) then 1%nat
      else printed (legacyWidthWarning g (xCorrected g)) (console st).
Proof.
  intros L. unfold fixedWidth.
  destruct ((3 <=? x) && (x <=? 9)) eqn:E.
  - apply inRange_spec in E. destruct (L x E) as [[G P]|[G P]].
    + rewrite (fix_miss st x E G). eexists. split; [reflexivity|].
      assert (C : forall g, 3 <= g <= 9 ->
                printed (legacyWidthWarning g (xCorrected g))
                  (console st ++ [legacyWidthWarning x (xCorrected x)]) =
                if bool_decide (g = x) then 1%nat
                else printed (legacyWidthWarning g (xCorrected g)) (console st)).
      { intros g Hg. rewrite printed_app. case_bool_decide as D.
        - subst g. rewrite P, printed_single, String.eqb_refl. reflexivity.
        - rewrite printed_single, (warning_inj x g E Hg) by congruence. lia. }
      split; [|exact C].
      intros g Hg. simpl. rewrite (C g Hg).
      case_bool_decide as D.
      * subst g. right. split; [apply lookup_insert_eq | reflexivity].
      * rewrite lookup_insert_ne by congruence. apply (L g Hg).
    + rewrite (fix_hit st x _ E G). eexists. split; [reflexivity|].
      split; [exact L|]. intros g Hg. case_bool_decide as D; [|reflexivity].
      subst g. exact P.
  - assert (O : x < 3 \/ 9 < x).
    { destruct (Z.leb_spec 3 x), (Z.leb_spec x 9); simpl in E;
        try discriminate; lia. }
    rewrite (fix_outside st x O). eexists. split; [reflexivity|].
    split; [exact L|]. intros g Hg. case_bool_decide; [lia | reflexivity].
Qed.

Lemma fixAll_run (xs : list Z) (st : State) :
  memoLogged st ->
  exists st',
    fixAll xs st = (Ok (map fixedWidth xs), st') /\ memoLogged st' /\
    forall g, 3 <= g <= 9 ->
      printed (legacyWidthWarning g (xCorrected g)) (console st') =
      if bool_decide (g ∈ xs) then 1%nat
      else printed (legacyWidthWarning g (xCorrected g)) (console st).
Proof.
  revert st. induction xs as [|x r IH]; intros st L.
  - exists st. split; [reflexivity|]. split; [exact L|].
    intros g _. case_bool_decide as D; [|reflexivity].
    now apply elem_of_nil in D.
  - destruct (fix_step st x L) as (st1 & E1 & L1 & P1).
    destruct (IH st1 L1) as (st2 & E2 & L2 & P2).
    exists st2. split.
    + simpl. unfold bind. rewrite E1, E2. reflexivity.
    + split; [exact L2|]. intros g Hg. rewrite (P2 g Hg), (P1 g Hg).
      rewrite (bool_decide_ext (g ∈ x :: r) (g = x \/ g ∈ r))
        by apply elem_of_cons.
      repeat case_bool_decide; try reflexivity; exfalso; tauto.
Qed.

End FixFacts.

(** C5. [VlShapeWidth.fix] returns 500 for grade 5 and the rounded real
    formula [round(500 * sqrt(576/500)^4)] for grade 9; its results
    increase strictly over the grades 3..9 (so fix(3) < fix(5) < fix(9));
    a number outside 3..9 comes back unchanged, with no effect.  The state
    is any state whose memory was filled by the function itself. *)
Theorem width_fixup_values (st : State) :
  memoSound st ->
  fst (VlShapeWidth_fix 5 st) = Ok 500
  /\ fst (VlShapeWidth_fix 9 st) = Ok (Math_round (500 * sqrt (576 / 500) ^ 4))
  /\ (forall x y st', memoSound st' -> 3 <= x -> x < y -> y <= 9 ->
        exists vx vy,
          fst (VlShapeWidth_fix x st) = Ok vx
          /\ fst (VlShapeWidth_fix y st') = Ok vy /\ vx < vy)
  /\ (exists v3 v5 v9,
        fst (VlShapeWidth_fix 3 st) = Ok v3
        /\ fst (VlShapeWidth_fix 5 st) = Ok v5
        /\ fst (VlShapeWidth_fix 9 st) = Ok v9 /\ v3 < v5 < v9)
  /\ (forall x, x < 3 \/ 9 < x -> VlShapeWidth_fix x st = (Ok x, st)).
Proof.
  intros S. repeat split.
  - now rewrite FixFacts.fix_value.
  - rewrite FixFacts.fix_value by exact S. f_equal.
    fold sqrt_ratio. rewrite WidthFormula.s_pow4.
    replace (fixedWidth 9) with 664 by (vm_compute; reflexivity).
    symmetry. apply WidthFormula.Math_round_eq. lra.
  - intros x y st' S' Hx Hxy Hy.
    exists (fixedWidth x), (fixedWidth y).
    rewrite !FixFacts.fix_value by assumption.
    repeat split. unfold fixedWidth.
    replace ((3 <=? x) && (x <=? 9)) with true
      by (symmetry; apply FixFacts.inRange_spec; lia).
    replace ((3 <=? y) && (y <=? 9)) with true
      by (symmetry; apply FixFacts.inRange_spec; lia).
    now apply FixFacts.xCorrected_mono.
  - exists 434, 500, 664. rewrite !FixFacts.fix_value by assumption.
    repeat split; lia.
  - intros x. apply FixFacts.fix_outside.
Qed.

Lemma width_fixup_values_witness :
  memoSound initialState
  /\ fst (VlShapeWidth_fix 5 initialState) = Ok 500
  /\ fst (VlShapeWidth_fix 3 initialState) = Ok 434
  /\ VlShapeWidth_fix 500 initialState = (Ok 500, initialState).
Proof.
  pose proof (width_fixup_values initialState FixFacts.memoSound_initial)
    as (H5 & _ & _ & _ & Hout).
  split; [exact FixFacts.memoSound_initial|].
  split; [exact H5|].
  split; [vm_compute; reflexivity|].
  apply Hout. lia.
Defined.

(** C6. [VlShapeWidth.fix] is memoized per grade.  On a grade in 3..9
    that is not cached, a call computes the corrected value, prints the
    legacy-grade warning and stores the value; on a cached grade it
    returns the stored value and changes nothing, so nothing is printed.
    Over a whole run of calls from the initial state every call returns
    the value of its grade, and the warning of a grade is printed once if
    the grade was passed and never otherwise. *)
Theorem width_fixup_memoized :
  (forall st x, 3 <= x <= 9 -> g_widthFixupMemory st !! x = None ->
     VlShapeWidth_fix x st =
       (Ok (xCorrected x),
        {| g_widthFixupMemory := <[x := xCorrected x]> (g_widthFixupMemory st);
           console := console st ++ [legacyWidthWarning x (xCorrected x)] |}))
  /\ (forall st x v, 3 <= x <= 9 -> g_widthFixupMemory st !! x = Some v ->
        VlShapeWidth_fix x st = (Ok v, st))
  /\ (forall xs, exists st',
        fixAll xs initialState = (Ok (map fixedWidth xs), st')
        /\ forall g, 3 <= g <= 9 ->
             printed (legacyWidthWarning g (xCorrected g)) (console st') =
             if bool_decide (g ∈ xs) then 1%nat else 0%nat).
Proof.
  split; [exact FixFacts.fix_miss|]. split; [exact FixFacts.fix_hit|].
  intros xs.
  destruct (FixFacts.fixAll_run xs initialState FixFacts.memoLogged_initial)
    as (st' & E & _ & P).
  exists st'. split; [exact E|]. intros g Hg. rewrite (P g Hg).
  case_bool_decide; reflexivity.
Qed.

Lemma width_fixup_memoized_witness :
  fixAll [7; 3; 7; 12; 7] initialState =
    (Ok [576; 434; 576; 12; 576],
     {| g_widthFixupMemory := <[3 := 434]> (<[7 := 576]> ∅);
        console :=
          ["The build plan is using legacy width grade 7. Converting to unit width 576.";
           "The build plan is using legacy width grade 3. Converting to unit width 434."] |}).
Proof.
  destruct width_fixup_memoized as (Hmiss & Hhit & _).
  unfold fixAll, bind, ret.
  rewrite (Hmiss initialState 7) by (try lia; reflexivity).
  rewrite (Hmiss _ 3) by (try lia; reflexivity).
  erewrite (Hhit _ 7) by (try lia; reflexivity).
  rewrite FixFacts.fix_outside by lia.
  erewrite (Hhit _ 7) by (try lia; reflexivity).
  reflexivity.
Defined.

(** ** Validation and suffix-mapping items *)

Module ItemFacts.

Lemma nValidate_plain (key : string) (v : val) (vl : Validator) (st : State) :
  fixup vl = None ->
  nValidate key v vl st =
    match accepted vl v with
    | Some n => (Ok n, st)
    | None => (Throw (TypeError (notValidNumber key v)), st)
    end.
Proof.
  intros F. unfold nValidate, accepted, bind, ret, throw. rewrite F.
  destruct v as [| | b | n | s]; try reflexivity.
  destruct (validate vl n); reflexivity.
Qed.

Lemma accepted_inv (vl : Validator) (v : val) (n : Z) :
  accepted vl v = Some n -> v = VNum n /\ validate vl n = true.
Proof.
  unfold accepted. destruct v as [| | b | m | s]; try discriminate.
  destruct (validate vl m) eqn:E; [|discriminate].
  intros [= ->]. auto.
Qed.

(** The live validators never call their fix-up: the width grade 5 is
    rejected by the range check instead of being converted. *)
Example shape_width_grade_rejected :
  nValidate "Shape width of normal" (VNum 5) VlShapeWidth initialState =
    (Throw (TypeError "Shape width of normal = 5 is not a valid number."),
     initialState).
Proof. reflexivity. Qed.

(** How [getSuffixMappingItem] runs when the entries exist. *)
Lemma item_run ws w we ss s wds wd wde st :
  Obj.get w ws = Some we -> Obj.get wd wds = Some wde ->
  getSuffixMappingItem (Some ws) w (Some ss) s (Some wds) wd st =
    match accepted VlShapeWeight (AxisEntry.shape we) with
    | None => (Throw (TypeError (notValidNumber ("Shape weight of " +:+ w)
                                   (AxisEntry.shape we))), st)
    | Some shapeWeight =>
    match accepted VlCssWeight (AxisEntry.css we) with
    | None => (Throw (TypeError (notValidNumber ("CSS weight of " +:+ w)
                                   (AxisEntry.css we))), st)
    | Some cssWeight =>
    match accepted VlMenuWeight (AxisEntry.menu we) with
    | None => (Throw (TypeError (notValidNumber ("Menu weight of " +:+ w)
                                   (AxisEntry.menu we))), st)
    | Some menuWeight =>
    match accepted VlShapeWidth (AxisEntry.shape wde) with
    | None => (Throw (TypeError (notValidNumber ("Shape width of " +:+ wd)
                                   (AxisEntry.shape wde))), st)
    | Some shapeWidth =>
    match accepted VlMenuWidth (AxisEntry.menu wde) with
    | None => (Throw (TypeError (notValidNumber ("Menu width of " +:+ wd)
                                   (AxisEntry.menu wde))), st)
    | Some menuWidth =>
        (Ok {| SuffixItem.weight := w;
               SuffixItem.shapeWeight := shapeWeight;
               SuffixItem.cssWeight := cssWeight;
               SuffixItem.menuWeight := menuWeight;
               SuffixItem.width := wd;
               SuffixItem.shapeWidth := shapeWidth;
               SuffixItem.cssStretch := orElse (AxisEntry.css wde) (VStr wd);
               SuffixItem.menuWidth := menuWidth;
               SuffixItem.slope := s;
               SuffixItem.cssStyle :=
                 orElse (default VUndefined (Obj.get s ss)) (VStr s);
               SuffixItem.menuSlope :=
                 orElse (default VUndefined (Obj.get s ss)) (VStr s) |}, st)
    end end end end end.
Proof.
  intros Hw Hwd. unfold getSuffixMappingItem, bind at 1, entryOf.
  rewrite Hw. unfold ret at 1.
  unfold bind at 1. rewrite nValidate_plain by reflexivity.
  destruct (accepted VlShapeWeight _); [|reflexivity].
  unfold bind at 1. rewrite nValidate_plain by reflexivity.
  destruct (accepted VlCssWeight _); [|reflexivity].
  unfold bind at 1. rewrite nValidate_plain by reflexivity.
  destruct (accepted VlMenuWeight _); [|reflexivity].
  unfold bind at 1. rewrite Hwd. unfold ret at 1.
  unfold bind at 1. rewrite nValidate_plain by reflexivity.
  destruct (accepted VlShapeWidth _); [|reflexivity].
  unfold bind at 1. rewrite nValidate_plain by reflexivity.
  destruct (accepted VlMenuWidth _); reflexivity.
Qed.

(** With an entry whose shape weight is rejected the item fails at once,
    whatever the slopes and widths are. *)
Lemma item_shape_weight_rejected ws w we slopes s widths wd st :
  Obj.get w ws = Some we ->
  accepted VlShapeWeight (AxisEntry.shape we) = None ->
  getSuffixMappingItem (Some ws) w slopes s widths wd st =
    (Throw (TypeError (notValidNumber ("Shape weight of " +:+ w)
                         (AxisEntry.shape we))), st).
Proof.
  intros Hw Hs. unfold getSuffixMappingItem, bind at 1, entryOf.
  rewrite Hw. unfold ret at 1.
  unfold bind at 1. rewrite nValidate_plain by reflexivity.
  rewrite Hs. reflexivity.
Qed.

Lemma forEach_throws {A B} (l : list A) (body : A -> B -> M B) (x : A) :
  In x l ->
  (forall acc st, exists e st', body x acc st = (Throw e, st')) ->
  forall acc st, exists e st', forEach l body acc st = (Throw e, st').
Proof.
  intros Hin Hx. induction l as [|y r IH]; [destruct Hin|].
  intros acc st. simpl. unfold bind.
  destruct (body y acc st) as [[acc'|e] st'] eqn:E.
  - destruct Hin as [->|Hin].
    + destruct (Hx acc st) as (e & st2 & E2). congruence.
    + apply IH, Hin.
  - eauto.
Qed.

Lemma validateRecommendedWeight_ok w value label st :
  exists st', validateRecommendedWeight w value label st = (Ok tt, st')
              /\ g_widthFixupMemory st' = g_widthFixupMemory st.
Proof.
  unfold validateRecommendedWeight.
  destruct (Obj.read w RecommendedMenuWeights);
    [|eexists; split; reflexivity..].
  destruct (_ && _); eexists; split; reflexivity.
Qed.

Lemma forEach_throw_inv {A B} (l : list A) (body : A -> B -> M B) :
  forall acc st e st',
    forEach l body acc st = (Throw e, st') ->
    exists x acc0 st0, In x l /\ body x acc0 st0 = (Throw e, st').
Proof.
  induction l as [|y r IH]; intros acc st e st' H.
  - discriminate.
  - cbn [forEach] in H. unfold bind in H.
    destruct (body y acc st) as [[acc'|e0] st0] eqn:E.
    + destruct (IH _ _ _ _ H) as (x & acc0 & st1 & Hin & Hx).
      exists x, acc0, st1. split; [now right | exact Hx].
    + injection H as <- <-. exists y, acc, st. split; [now left | exact E].
Qed.

Lemma In_keys_get {A} (o : Obj.t A) (k : string) :
  In k (Obj.keys o) -> exists a, Obj.get k o = Some a.
Proof.
  intros Hin. destruct (Obj.get k o) as [a|] eqn:E; [eauto|].
  apply ObjFacts.get_None_keys in E. contradiction.
Qed.

(** An item of own keys fails only in [nValidate]. *)
Lemma item_throws ws w ss s wds wd st e st' :
  In w (Obj.keys ws) -> In wd (Obj.keys wds) ->
  getSuffixMappingItem (Some ws) w (Some ss) s (Some wds) wd st = (Throw e, st') ->
  exists key v, e = TypeError (notValidNumber key v).
Proof.
  intros Hw Hwd H.
  destruct (In_keys_get ws w Hw) as (we & Gw).
  destruct (In_keys_get wds wd Hwd) as (wde & Gwd).
  rewrite (item_run ws w we ss s wds wd wde st Gw Gwd) in H.
  destruct (accepted VlShapeWeight _); [|injection H as <- _; eauto].
  destruct (accepted VlCssWeight _); [|injection H as <- _; eauto].
  destruct (accepted VlMenuWeight _); [|injection H as <- _; eauto].
  destruct (accepted VlShapeWidth _); [|injection H as <- _; eauto].
  destruct (accepted VlMenuWidth _); [discriminate | injection H as <- _; eauto].
Qed.

(** So does the whole mapping. *)
Lemma mapping_throws ws ss wds st e st' :
  getSuffixMapping (Some ws) (Some ss) (Some wds) st = (Throw e, st') ->
  exists key v, e = TypeError (notValidNumber key v).
Proof.
  intros H. unfold getSuffixMapping in H.
  apply forEach_throw_inv in H as (w & acc0 & st0 & Hw & H).
  cbn [ownKeys] in Hw. destruct (In_keys_get ws w Hw) as (we & Gw).
  unfold bind at 1 in H. unfold entryOf in H. rewrite Gw in H.
  unfold ret at 1 in H. unfold bind at 1 in H.
  destruct (validateRecommendedWeight_ok w (AxisEntry.menu we) "Menu" st0)
    as (st1 & E1 & _). rewrite E1 in H.
  unfold bind at 1 in H.
  destruct (validateRecommendedWeight_ok w (AxisEntry.css we) "CSS" st1)
    as (st2 & E2 & _). rewrite E2 in H.
  apply forEach_throw_inv in H as (s & acc1 & st3 & Hs & H).
  apply forEach_throw_inv in H as (wd & acc2 & st4 & Hwd & H).
  unfold bind in H.
  destruct (getSuffixMappingItem _ _ _ _ _ _ st4) as [[item|e0] st5] eqn:E;
    [discriminate|].
  injection H as <- <-. cbn [ownKeys] in Hwd.
  eapply item_throws; [exact Hw | exact Hwd | exact E].
Qed.

(** With non-empty slopes and widths, a rejected shape weight makes the
    whole resolution fail, with the error of a validation. *)
Lemma mapping_shape_weight_rejected ws w we ss wds st :
  Obj.get w ws = Some we ->
  accepted VlShapeWeight (AxisEntry.shape we) = None ->
  ss <> [] -> wds <> [] ->
  exists key v st',
    getSuffixMapping (Some ws) (Some ss) (Some wds) st
      = (Throw (TypeError (notValidNumber key v)), st').
Proof.
  intros Hw Hs Hss Hwds.
  assert (T : exists e st',
            getSuffixMapping (Some ws) (Some ss) (Some wds) st = (Throw e, st')).
  { unfold getSuffixMapping. apply forEach_throws with (x := w).
    - simpl. eapply ObjFacts.get_In_keys, Hw.
    - intros acc st0. unfold bind at 1, entryOf. rewrite Hw. unfold ret at 1.
      unfold bind at 1.
      destruct (validateRecommendedWeight_ok w (AxisEntry.menu we) "Menu" st0)
        as (st1 & -> & _).
      unfold bind at 1.
      destruct (validateRecommendedWeight_ok w (AxisEntry.css we) "CSS" st1)
        as (st2 & -> & _).
      destruct ss as [|[s0 v0] ss']; [congruence|].
      destruct wds as [|[wd0 e0] wds']; [congruence|].
      simpl. unfold bind at 1. unfold bind at 1. unfold bind at 1.
      rewrite (item_shape_weight_rejected ws w we _ s0 _ wd0 st2 Hw Hs).
      eauto. }
  destruct T as (e & st' & E).
  destruct (mapping_throws _ _ _ _ _ _ E) as (key & v & ->). eauto.
Qed.

(** Without a slope no item is built and nothing is validated. *)
Example mapping_without_slopes :
  getSuffixMapping
    (Some [("heavy", AxisEntry.mk (VNum 950) (VNum 900) (VNum 900))])
    (Some []) (Some normalWidth) initialState = (Ok [], initialState).
Proof. reflexivity. Qed.

End ItemFacts.

(** C10. In every item that [getSuffixMappingItem] returns, [cssStyle]
    and [menuSlope] are the same value: the slope's configured value when
    it is truthy, the slope key otherwise; [cssStretch] is the width
    entry's [css] when truthy and the width key otherwise (so also when
    [css] is absent).  None of the three is validated: whatever the slope
    values and the [css] field are, the item is returned as soon as the
    five numeric fields are accepted. *)
Theorem slope_and_stretch_fields :
  (forall weights w slopes s widths wd st item st',
     getSuffixMappingItem weights w slopes s widths wd st = (Ok item, st') ->
     exists ss wds wde,
       slopes = Some ss /\ widths = Some wds /\ Obj.get wd wds = Some wde
       /\ SuffixItem.cssStyle item = SuffixItem.menuSlope item
       /\ SuffixItem.cssStyle item =
            (if truthy (default VUndefined (Obj.get s ss))
             then default VUndefined (Obj.get s ss) else VStr s)
       /\ SuffixItem.cssStretch item =
            (if truthy (AxisEntry.css wde) then AxisEntry.css wde else VStr wd)
       /\ (AxisEntry.css wde = VUndefined -> SuffixItem.cssStretch item = VStr wd))
  /\ (forall ws w we ss s wds wd wde st n1 n2 n3 n4 n5,
        Obj.get w ws = Some we -> Obj.get wd wds = Some wde ->
        accepted VlShapeWeight (AxisEntry.shape we) = Some n1 ->
        accepted VlCssWeight (AxisEntry.css we) = Some n2 ->
        accepted VlMenuWeight (AxisEntry.menu we) = Some n3 ->
        accepted VlShapeWidth (AxisEntry.shape wde) = Some n4 ->
        accepted VlMenuWidth (AxisEntry.menu wde) = Some n5 ->
        exists item,
          getSuffixMappingItem (Some ws) w (Some ss) s (Some wds) wd st
            = (Ok item, st)).
Proof.
  split.
  - intros weights w slopes s widths wd st item st' H.
    destruct weights as [ws|]; [|discriminate].
    destruct (Obj.get w ws) as [we|] eqn:Hw;
      [|unfold getSuffixMappingItem, bind, entryOf in H; rewrite Hw in H;
        discriminate].
    assert (Hwidths : exists wds wde, widths = Some wds /\ Obj.get wd wds = Some wde).
    { unfold getSuffixMappingItem, entryOf in H. unfold bind at 1 in H.
      rewrite Hw in H. unfold ret at 1 in H.
      unfold bind at 1 in H. rewrite ItemFacts.nValidate_plain in H by reflexivity.
      destruct (accepted VlShapeWeight _); [|discriminate].
      unfold bind at 1 in H. rewrite ItemFacts.nValidate_plain in H by reflexivity.
      destruct (accepted VlCssWeight _); [|discriminate].
      unfold bind at 1 in H. rewrite ItemFacts.nValidate_plain in H by reflexivity.
      destruct (accepted VlMenuWeight _); [|discriminate].
      unfold bind at 1 in H.
      destruct widths as [wds|]; [|discriminate].
      destruct (Obj.get wd wds) as [wde|] eqn:Hwd; [eauto | discriminate]. }
    destruct Hwidths as (wds & wde & -> & Hwd).
    assert (Hslopes : exists ss, slopes = Some ss).
    { destruct slopes as [ss|]; [eauto|].
      unfold getSuffixMappingItem, entryOf in H. unfold bind at 1 in H.
      rewrite Hw in H. unfold ret at 1 in H.
      unfold bind at 1 in H. rewrite ItemFacts.nValidate_plain in H by reflexivity.
      destruct (accepted VlShapeWeight _); [|discriminate].
      unfold bind at 1 in H. rewrite ItemFacts.nValidate_plain in H by reflexivity.
      destruct (accepted VlCssWeight _); [|discriminate].
      unfold bind at 1 in H. rewrite ItemFacts.nValidate_plain in H by reflexivity.
      destruct (accepted VlMenuWeight _); [|discriminate].
      unfold bind at 1 in H. rewrite Hwd in H. unfold ret at 1 in H.
      unfold bind at 1 in H. rewrite ItemFacts.nValidate_plain in H by reflexivity.
      destruct (accepted VlShapeWidth _); [|discriminate].
      unfold bind at 1 in H. rewrite ItemFacts.nValidate_plain in H by reflexivity.
      destruct (accepted VlMenuWidth _); discriminate. }
    destruct Hslopes as (ss & ->).
    exists ss, wds, wde.
    rewrite (ItemFacts.item_run ws w we ss s wds wd wde st Hw Hwd) in H.
    destruct (accepted VlShapeWeight _); [|discriminate].
    destruct (accepted VlCssWeight _); [|discriminate].
    destruct (accepted VlMenuWeight _); [|discriminate].
    destruct (accepted VlShapeWidth _); [|discriminate].
    destruct (accepted VlMenuWidth _); [|discriminate].
    injection H as <- <-. simpl. unfold orElse.
    do 2 (split; [reflexivity|]). split; [exact Hwd|].
    do 3 (split; [reflexivity|]).
    intros E. rewrite E. reflexivity.
  - intros ws w we ss s wds wd wde st n1 n2 n3 n4 n5 Hw Hwd A1 A2 A3 A4 A5.
    rewrite (ItemFacts.item_run ws w we ss s wds wd wde st Hw Hwd).
    rewrite A1, A2, A3, A4, A5. eauto.
Qed.

Lemma slope_and_stretch_fields_witness :
  exists item,
    getSuffixMappingItem
      (Some [("bold", AxisEntry.mk (VNum 700) (VNum 700) (VNum 700))]) "bold"
      (Some [("italic", VNum 12345); ("upright", VStr "")]) "upright"
      (Some [("extended", AxisEntry.mk (VNum 576) VUndefined (VNum 7))]) "extended"
      initialState = (Ok item, initialState)
    /\ SuffixItem.cssStyle item = VStr "upright"
    /\ SuffixItem.menuSlope item = VStr "upright"
    /\ SuffixItem.cssStretch item = VStr "extended".
Proof.
  destruct slope_and_stretch_fields as (Hfields & Hruns).
  destruct (Hruns [("bold", AxisEntry.mk (VNum 700) (VNum 700) (VNum 700))]
                  "bold" (AxisEntry.mk (VNum 700) (VNum 700) (VNum 700))
                  [("italic", VNum 12345); ("upright", VStr "")] "upright"
                  [("extended", AxisEntry.mk (VNum 576) VUndefined (VNum 7))]
                  "extended" (AxisEntry.mk (VNum 576) VUndefined (VNum 7))
                  initialState 700 700 700 576 7
                  eq_refl eq_refl eq_refl eq_refl eq_refl eq_refl eq_refl)
    as (item & Hitem).
  exists item. split; [exact Hitem|].
  destruct (Hfields _ _ _ _ _ _ _ _ _ Hitem)
    as (ss & wds & wde & Hss & Hwds & Hwde & Heq & Hstyle & Hstretch & _).
  injection Hss as <-. injection Hwds as <-.
  simpl in Hwde. injection Hwde as <-.
  rewrite <- Heq, Hstyle, Hstretch. repeat split; reflexivity.
Defined.

(** ** Configuration loading *)

(** C8. [RawPlans] merges the private overlay into the base key by key
    on [buildPlans] and [buildOptions] and nowhere else: a key of the
    overlay table has the overlay's entry, any other key keeps the base
    entry, and [weights], [slopes], [widths], [collectPlans] and
    [collectConfig] are those of the base whatever the overlay holds.
    Without an overlay the result is the base with [buildOptions]
    defaulted to the empty table. *)
Theorem RawPlans_merge (base : Raw.t) :
  (forall pv,
     let r := RawPlans base (Some pv) in
     (forall k,
        Obj.get k (Raw.buildPlans r) =
        match Obj.get k (default [] (Private.buildPlans pv)) with
        | Some plan => Some plan
        | None => Obj.get k (Raw.buildPlans base)
        end)
     /\ (exists options,
           Raw.buildOptions r = Some options
           /\ forall k,
                Obj.get k options =
                match Obj.get k (default [] (Private.buildOptions pv)) with
                | Some v => Some v
                | None => Obj.get k (default [] (Raw.buildOptions base))
                end)
     /\ Raw.weights r = Raw.weights base
     /\ Raw.slopes r = Raw.slopes base
     /\ Raw.widths r = Raw.widths base
     /\ Raw.collectPlans r = Raw.collectPlans base
     /\ Raw.collectConfig r = Raw.collectConfig base)
  /\ RawPlans base None =
       {| Raw.buildPlans := Raw.buildPlans base;
          Raw.buildOptions := Some (default [] (Raw.buildOptions base));
          Raw.weights := Raw.weights base;
          Raw.slopes := Raw.slopes base;
          Raw.widths := Raw.widths base;
          Raw.collectPlans := Raw.collectPlans base;
          Raw.collectConfig := Raw.collectConfig base |}.
Proof.
  split; [|reflexivity].
  intros pv r. subst r. simpl. split; [|split].
  - intros k. destruct (Private.buildPlans pv) as [src|]; simpl.
    + apply ObjFacts.get_assign.
    + reflexivity.
  - eexists. split; [reflexivity|]. intros k. apply ObjFacts.get_assign.
  - repeat split.
Qed.

(** The overlay wins on a shared key, keeps the key's place, and adds its
    new keys at the end. *)
Example RawPlans_overlay_wins :
  let plan family := Plan.mk (VStr family) None None None None [] in
  let cfg := CollectConfig.mk (VBool false) (VBool true) (VBool false) in
  let base := Raw.mk [("a", plan "A"); ("b", plan "B")] None
                     None None None [] cfg in
  let pv := Private.mk (Some [("c", plan "C"); ("a", plan "A2")])
                       (Some [("optimizeWithTtx", VBool true)])
                       None None None None None in
  Raw.buildPlans (RawPlans base (Some pv)) =
    [("a", plan "A2"); ("b", plan "B"); ("c", plan "C")]
  /\ Raw.buildOptions (RawPlans base (Some pv)) =
       Some [("optimizeWithTtx", VBool true)].
Proof. split; reflexivity. Qed.

(** ** Plan expansion *)

Module PlanFacts.

Lemma set_nil {A} (k : string) (v : A) : Obj.set k v [] = [(k, v)].
Proof. unfold Obj.set. simpl. now destruct (Obj.arrayIndex k). Qed.

Lemma shim_run prefix bp dWeights dSlopes dWidths st :
  truthy (Plan.family bp) = true ->
  exists st',
    validateAndShimBuildPlans prefix bp dWeights dSlopes dWidths st =
      (Ok {| Plan.family := Plan.family bp;
             Plan.weights := orObj (Plan.weights bp) dWeights;
             Plan.slopes :=
               orObj (orObj (Plan.slopes bp) (Plan.slants bp)) dSlopes;
             Plan.slants := Plan.slants bp;
             Plan.widths := orObj (Plan.widths bp) dWidths;
             Plan.targets := Plan.targets bp |}, st').
Proof.
  intros F. unfold validateAndShimBuildPlans. rewrite F. simpl.
  unfold bind at 1. unfold ret at 1. unfold bind at 1.
  destruct (Plan.slopes bp), (Plan.slants bp); eexists; reflexivity.
Qed.

(** The suffix mapping of the axes that hold the normal entries only. *)
Lemma normal_mapping_run we sv wde n1 n2 n3 n4 n5 st :
  accepted VlShapeWeight (AxisEntry.shape we) = Some n1 ->
  accepted VlCssWeight (AxisEntry.css we) = Some n2 ->
  accepted VlMenuWeight (AxisEntry.menu we) = Some n3 ->
  accepted VlShapeWidth (AxisEntry.shape wde) = Some n4 ->
  accepted VlMenuWidth (AxisEntry.menu wde) = Some n5 ->
  exists item st',
    getSuffixMapping (Some [(WEIGHT_NORMAL, we)]) (Some [(SLOPE_NORMAL, sv)])
                     (Some [(WIDTH_NORMAL, wde)]) st
      = (Ok [(DEFAULT_SUBFAMILY, item)], st')
    /\ SuffixItem.weight item = WEIGHT_NORMAL
    /\ SuffixItem.slope item = SLOPE_NORMAL.
Proof.
  intros A1 A2 A3 A4 A5. unfold getSuffixMapping.
  cbn [ownKeys Obj.keys map fst forEach].
  unfold bind at 1. unfold bind at 1.
  change (entryOf (Some [(WEIGHT_NORMAL, we)]) WEIGHT_NORMAL st)
    with (Ok we, st).
  cbv iota. unfold bind at 1.
  destruct (ItemFacts.validateRecommendedWeight_ok
              WEIGHT_NORMAL (AxisEntry.menu we) "Menu" st) as (st1 & -> & _).
  unfold bind at 1.
  destruct (ItemFacts.validateRecommendedWeight_ok
              WEIGHT_NORMAL (AxisEntry.css we) "CSS" st1) as (st2 & -> & _).
  unfold bind at 1. unfold bind at 1. unfold bind at 1.
  rewrite (ItemFacts.item_run [(WEIGHT_NORMAL, we)] WEIGHT_NORMAL we
             [(SLOPE_NORMAL, sv)] SLOPE_NORMAL
             [(WIDTH_NORMAL, wde)] WIDTH_NORMAL wde st2 eq_refl eq_refl).
  rewrite A1, A2, A3, A4, A5.
  eexists. eexists. split.
  - unfold ret, bind. rewrite set_nil. reflexivity.
  - split; reflexivity.
Qed.

(** One turn of the loop of [BuildPlans] on a plan of normal axes. *)
Lemma normal_body_run rp prefix plan we sv wde n1 n2 n3 n4 n5 plans idx st :
  Obj.get prefix (Raw.buildPlans rp) = Some plan ->
  truthy (Plan.family plan) = true ->
  orObj (Plan.weights plan) (Raw.weights rp) = Some [(WEIGHT_NORMAL, we)] ->
  orObj (orObj (Plan.slopes plan) (Plan.slants plan)) (Raw.slopes rp)
    = Some [(SLOPE_NORMAL, sv)] ->
  orObj (Plan.widths plan) (Raw.widths rp) = Some [(WIDTH_NORMAL, wde)] ->
  truthy sv = true ->
  accepted VlShapeWeight (AxisEntry.shape we) = Some n1 ->
  accepted VlCssWeight (AxisEntry.css we) = Some n2 ->
  accepted VlMenuWeight (AxisEntry.menu we) = Some n3 ->
  accepted VlShapeWidth (AxisEntry.shape wde) = Some n4 ->
  accepted VlMenuWidth (AxisEntry.menu wde) = Some n5 ->
  exists bp st',
    BuildPlans_body rp prefix (plans, idx) st =
      (Ok (Obj.set prefix bp plans,
           Obj.set (prefix +:+ "-regular")
                   {| Index.prefix := prefix; Index.suffix := "regular" |} idx),
       st')
    /\ Plan.targets bp = [prefix +:+ "-regular"].
Proof.
  intros Hp F Hw Hs Hwd T A1 A2 A3 A4 A5.
  unfold BuildPlans_body. rewrite Hp.
  change (default emptyPlan (Some plan)) with plan. cbv zeta.
  unfold bind at 1.
  destruct (shim_run prefix plan (Raw.weights rp) (Raw.slopes rp)
              (Raw.widths rp) st F) as (st1 & ->).
  cbn [Plan.weights Plan.slopes Plan.widths Plan.family Plan.slants].
  rewrite Hw, Hs, Hwd. unfold bind at 1.
  destruct (normal_mapping_run we sv wde n1 n2 n3 n4 n5 st1
              A1 A2 A3 A4 A5) as (item & st2 & -> & Iw & Is).
  cbn [Obj.keys map fst fold_left]. unfold recordTarget.
  cbn [Obj.get]. rewrite String.eqb_refl.
  cbn [Plan.weights Plan.slopes]. rewrite Iw, Is.
  cbn [restrictedOut Obj.get]. rewrite !String.eqb_refl, T.
  cbn [negb fst snd app]. unfold ret.
  eexists. eexists. split; reflexivity.
Qed.

(** What a turn of the loop does to the returned plans. *)
Lemma body_plans rp q plans idx plans' idx' st st' :
  BuildPlans_body rp q (plans, idx) st = (Ok (plans', idx'), st') ->
  exists bp, plans' = Obj.set q bp plans.
Proof.
  intros H. unfold BuildPlans_body in H. unfold bind at 1 in H.
  destruct (validateAndShimBuildPlans _ _ _ _ _ _) as [[bp|e] st2];
    [|discriminate].
  unfold bind at 1 in H.
  destruct (getSuffixMapping _ _ _ _) as [[mapping|e] st3]; [|discriminate].
  destruct (fold_left _ _ _) as [ts idx1].
  unfold ret in H. inversion H. eauto.
Qed.

(** Turns on other prefixes leave a plan as it is. *)
Lemma loop_other rp p (l : list string) :
  ~ In p l ->
  forall plans idx plans' idx' st st',
    forEach l (BuildPlans_body rp) (plans, idx) st = (Ok (plans', idx'), st') ->
    Obj.get p plans' = Obj.get p plans.
Proof.
  induction l as [|q r IH]; intros NI plans idx plans' idx' st st' H.
  - cbn [forEach] in H. unfold ret in H. now inversion H.
  - cbn [forEach] in H. unfold bind in H.
    destruct (BuildPlans_body rp q (plans, idx) st) as [[[plans1 idx1]|e] st1]
      eqn:E; [|discriminate].
    destruct (body_plans _ _ _ _ _ _ _ _ E) as (bp & ->).
    rewrite (IH (fun Hr => NI (or_intror Hr)) _ _ _ _ _ _ H).
    apply ObjFacts.get_set_ne. intros ->. apply NI. now left.
Qed.

End PlanFacts.

(** C2. The suffix of the all-normal triple (weight "regular", width
    "normal", slope "upright") is empty and replaced by the default
    subfamily "regular".  A plan whose resolved axes hold these normal
    entries only, with a family name, valid numbers and a truthy slope
    value, expands to exactly one target, <prefix>-regular: in every build
    that [BuildPlans] completes, and a build of this plan alone completes,
    with the target indexed back to the plan.  For the prefix "sans" the
    target is "sans-regular". *)
Theorem normal_axes_single_target
    (rp : Raw.t) (prefix : string) (plan : Plan.t)
    (we wde : AxisEntry.t) (sv : val) (n1 n2 n3 n4 n5 : Z) :
  Obj.wf (Raw.buildPlans rp) ->
  Obj.get prefix (Raw.buildPlans rp) = Some plan ->
  truthy (Plan.family plan) = true ->
  orObj (Plan.weights plan) (Raw.weights rp) = Some [(WEIGHT_NORMAL, we)] ->
  orObj (orObj (Plan.slopes plan) (Plan.slants plan)) (Raw.slopes rp)
    = Some [(SLOPE_NORMAL, sv)] ->
  orObj (Plan.widths plan) (Raw.widths rp) = Some [(WIDTH_NORMAL, wde)] ->
  truthy sv = true ->
  accepted VlShapeWeight (AxisEntry.shape we) = Some n1 ->
  accepted VlCssWeight (AxisEntry.css we) = Some n2 ->
  accepted VlMenuWeight (AxisEntry.menu we) = Some n3 ->
  accepted VlShapeWidth (AxisEntry.shape wde) = Some n4 ->
  accepted VlMenuWidth (AxisEntry.menu wde) = Some n5 ->
  makeSuffix WEIGHT_NORMAL WIDTH_NORMAL SLOPE_NORMAL DEFAULT_SUBFAMILY = "regular"
  /\ (forall st r st',
        BuildPlans rp st = (Ok r, st') ->
        exists bp,
          Obj.get prefix (BuildPlansResult.buildPlans r) = Some bp
          /\ Plan.targets bp = [prefix +:+ "-regular"])
  /\ (Raw.buildPlans rp = [(prefix, plan)] ->
      forall st, exists bp st',
        BuildPlans rp st =
          (Ok {| BuildPlansResult.fileNameToBpMap :=
                   [(prefix +:+ "-regular",
                     {| Index.prefix := prefix; Index.suffix := "regular" |})];
                 BuildPlansResult.buildPlans := [(prefix, bp)] |}, st')
        /\ Plan.targets bp = [prefix +:+ "-regular"]).
Proof.
  intros WF Hp F Hw Hs Hwd T A1 A2 A3 A4 A5. split; [reflexivity|]. split.
  - intros st r st' H. unfold BuildPlans, bind in H.
    destruct (forEach _ _ _ st) as [[[plans idx]|e] st1] eqn:E; [|discriminate].
    unfold ret in H. injection H as <- <-. cbn [BuildPlansResult.buildPlans fst].
    assert (G : forall l plans0 idx0 st0,
              List.NoDup l -> In prefix l ->
              forEach l (BuildPlans_body rp) (plans0, idx0) st0
                = (Ok (plans, idx), st1) ->
              exists bp, Obj.get prefix plans = Some bp
                         /\ Plan.targets bp = [prefix +:+ "-regular"]).
    { induction l as [|q l IH]; intros plans0 idx0 st0 ND Hin Hl;
        [destruct Hin|].
      cbn [forEach] in Hl. unfold bind in Hl.
      destruct (BuildPlans_body rp q (plans0, idx0) st0)
        as [[[plans1 idx1]|e] st2] eqn:Eb; [|discriminate].
      apply NoDup_cons_iff in ND as [Hq ND].
      destruct (string_dec q prefix) as [->|N].
      - destruct (PlanFacts.normal_body_run rp prefix plan we sv wde
                    n1 n2 n3 n4 n5 plans0 idx0 st0
                    Hp F Hw Hs Hwd T A1 A2 A3 A4 A5) as (bp & st3 & Eb' & Ht).
        rewrite Eb' in Eb. inversion Eb; subst. exists bp.
        rewrite (PlanFacts.loop_other rp prefix l Hq _ _ _ _ _ _ Hl).
        split; [apply ObjFacts.get_set_eq | exact Ht].
      - destruct Hin as [?|Hin]; [congruence|]. eapply IH; eauto. }
    eapply G; [exact WF | eapply ObjFacts.get_In_keys, Hp | exact E].
  - intros Hrp st.
    assert (Hp' : Obj.get prefix (Raw.buildPlans rp) = Some plan) by exact Hp.
    destruct (PlanFacts.normal_body_run rp prefix plan we sv wde
                n1 n2 n3 n4 n5 [] [] st
                Hp' F Hw Hs Hwd T A1 A2 A3 A4 A5) as (bp & st' & Eb & Ht).
    exists bp, st'. split; [|exact Ht].
    unfold BuildPlans. rewrite Hrp. cbn [Obj.keys map fst forEach].
    unfold bind. rewrite Eb. unfold ret.
    rewrite !PlanFacts.set_nil. reflexivity.
Qed.

Lemma normal_axes_single_target_witness :
  exists bp st',
    BuildPlans
      {| Raw.buildPlans :=
           [("sans",
             {| Plan.family := VStr "Sans";
                Plan.weights :=
                  Some [("regular",
                         AxisEntry.mk (VNum 400) (VNum 400) (VNum 400))];
                Plan.slopes := Some [("upright", VStr "normal")];
                Plan.slants := None;
                Plan.widths :=
                  Some [("normal",
                         AxisEntry.mk (VNum 500) (VStr "normal") (VNum 5))];
                Plan.targets := [] |})];
         Raw.buildOptions := None;
         Raw.weights := None; Raw.slopes := None; Raw.widths := None;
         Raw.collectPlans := [];
         Raw.collectConfig :=
           CollectConfig.mk (VBool false) (VBool true) (VBool false) |}
      initialState =
      (Ok {| BuildPlansResult.fileNameToBpMap :=
               [("sans-regular",
                 {| Index.prefix := "sans"; Index.suffix := "regular" |})];
             BuildPlansResult.buildPlans := [("sans", bp)] |}, st')
    /\ Plan.targets bp = ["sans-regular"].
Proof.
  eapply (normal_axes_single_target _ "sans" _
            (AxisEntry.mk (VNum 400) (VNum 400) (VNum 400))
            (AxisEntry.mk (VNum 500) (VStr "normal") (VNum 5))
            (VStr "normal") 400 400 400 500 5);
    try reflexivity.
  repeat constructor. intros [].
Defined.

(** ** The reverse index *)

Module IndexFacts.

Lemma makeFileName_inj (prefix s1 s2 : string) :
  makeFileName prefix s1 = makeFileName prefix s2 -> s1 = s2.
Proof.
  unfold makeFileName. induction prefix as [|c p IH]; simpl.
  - intros H. now injection H.
  - intros H. injection H as H. auto.
Qed.

(** What the loop over one plan's suffix mapping leaves behind.
    [ts0], [idx0] are the accumulators on entry. *)
Lemma recordTargets_spec prefix bp mapping (l : list string) :
  forall ts0 idx0 ts idx,
    fold_left (fun a suffix => recordTarget prefix bp mapping suffix a)
              l (ts0, idx0) = (ts, idx) ->
    (forall name, In name ts0 ->
       exists suffix,
         Obj.get name idx0 = Some (Index.mk prefix suffix)
         /\ makeFileName prefix suffix = name) ->
    (forall name, In name ts ->
       exists suffix,
         Obj.get name idx = Some (Index.mk prefix suffix)
         /\ makeFileName prefix suffix = name)
    /\ (forall name,
          Obj.get name idx = Obj.get name idx0
          \/ (In name ts /\ exists suffix,
                Obj.get name idx = Some (Index.mk prefix suffix)
                /\ makeFileName prefix suffix = name)).
Proof.
  induction l as [|x r IH]; intros ts0 idx0 ts idx H I0.
  - simpl in H. injection H as <- <-. split; [exact I0 | now left].
  - simpl in H.
    destruct (recordTarget prefix bp mapping x (ts0, idx0)) as [ts1 idx1] eqn:E.
    assert (S1 :
      (forall name, In name ts1 ->
         exists suffix,
           Obj.get name idx1 = Some (Index.mk prefix suffix)
           /\ makeFileName prefix suffix = name)
      /\ (forall name,
            Obj.get name idx1 = Obj.get name idx0
            \/ (In name ts1 /\ exists suffix,
                  Obj.get name idx1 = Some (Index.mk prefix suffix)
                  /\ makeFileName prefix suffix = name))).
    { unfold recordTarget in E.
      destruct (Obj.get x mapping) as [sfi|];
        [|injection E as <- <-; split; [exact I0 | now left]].
      destruct (restrictedOut (Plan.weights bp) _ _);
        [injection E as <- <-; split; [exact I0 | now left]|].
      destruct (restrictedOut (Plan.slopes bp) _ _);
        [injection E as <- <-; split; [exact I0 | now left]|].
      simpl in E. injection E as <- <-. split.
      - intros name Hin. rewrite ObjFacts.get_set.
        destruct (String.eqb_spec (makeFileName prefix x) name) as [<-|N].
        + eauto.
        + apply in_app_iff in Hin as [Hin|[Hin|[]]]; [auto | congruence].
      - intros name. rewrite ObjFacts.get_set.
        destruct (String.eqb_spec (makeFileName prefix x) name) as [<-|N].
        + right. split; [apply in_app_iff; right; now left | eauto].
        + now left. }
    destruct S1 as [S1a S1b].
    destruct (IH ts1 idx1 ts idx H S1a) as [S2a S2b].
    split; [exact S2a|].
    intros name. destruct (S2b name) as [Eq|R]; [|now right].
    rewrite Eq. destruct (S1b name) as [Eq1|[Hin (suffix & G & Hn)]];
      [now left|].
    right. split; [|eauto].
    (* targets only grow *)
    clear - H Hin.
    revert ts1 idx1 H Hin. induction r as [|y r IHr]; intros ts1 idx1 H Hin.
    + simpl in H. now injection H as <- <-.
    + simpl in H.
      destruct (recordTarget prefix bp mapping y (ts1, idx1)) as [ts2 idx2] eqn:E.
      apply (IHr ts2 idx2 H).
      unfold recordTarget in E.
      destruct (Obj.get y mapping); [|now injection E as <- <-].
      destruct (restrictedOut (Plan.weights bp) _ _);
        [now injection E as <- <-|].
      destruct (restrictedOut (Plan.slopes bp) _ _);
        [now injection E as <- <-|].
      simpl in E. injection E as <- <-. apply in_app_iff. now left.
Qed.

Lemma forEach_pos {A B} (P : list A -> B -> Prop) (l : list A)
    (body : A -> B -> M B) :
  (forall done x rest a a' st st',
     l = done ++ x :: rest -> P done a -> body x a st = (Ok a', st') ->
     P (done ++ [x]) a') ->
  forall acc st res st',
    P [] acc -> forEach l body acc st = (Ok res, st') -> P l res.
Proof.
  intros Hb.
  assert (G : forall rest done acc st res st',
            l = done ++ rest -> P done acc ->
            forEach rest body acc st = (Ok res, st') -> P l res).
  { induction rest as [|x rest IH]; intros done acc st res st' El Hacc H.
    - cbn in H. unfold ret in H. injection H as <- <-.
      rewrite app_nil_r in El. now subst.
    - cbn [forEach] in H. unfold bind in H.
      destruct (body x acc st) as [[a'|e] st1] eqn:E; [|discriminate].
      apply (IH (done ++ [x]) a' st1 res st').
      + now rewrite <- app_assoc.
      + eapply Hb; eauto.
      + exact H. }
  intros acc st res st'. now apply (G l []).
Qed.

Lemma body_indexed rp q done plans idx plans' idx' st st' :
  ~ In q done -> indexed done plans idx ->
  BuildPlans_body rp q (plans, idx) st = (Ok (plans', idx'), st') ->
  indexed (done ++ [q]) plans' idx'.
Proof.
  intros Hq [K I] H. unfold BuildPlans_body in H.
  unfold bind at 1 in H.
  destruct (validateAndShimBuildPlans _ _ _ _ _ _) as [[bp|e] st2];
    [|discriminate].
  unfold bind at 1 in H.
  destruct (getSuffixMapping _ _ _ _) as [[mapping|e] st3]; [|discriminate].
  destruct (fold_left _ _ _) as [ts idx1] eqn:F.
  unfold ret in H. injection H as <- <- <-.
  destruct (recordTargets_spec q bp mapping _ _ _ _ _ F) as [Sa Sb];
    [intros name []|].
  set (bq := {| Plan.family := Plan.family bp;
                Plan.weights := Plan.weights bp;
                Plan.slopes := Plan.slopes bp;
                Plan.slants := Plan.slants bp;
                Plan.widths := Plan.widths bp;
                Plan.targets := ts |}).
  split.
  { intros p Hp. apply ObjFacts.In_keys_set in Hp as [->|Hp];
      apply in_app_iff; [right; now left | left; auto]. }
  intros p bp0 name Hp Hin.
  destruct (in_dec string_dec name ts) as [Hts|Hts].
  - destruct (Sa name Hts) as (suffix & G & Hn).
    exists q, suffix, bq, done, []. split; [exact G|]. split; [exact Hn|].
    split; [apply ObjFacts.get_set_eq|]. split; [exact Hts|].
    split; [reflexivity | intros p2 bp2 []].
  - assert (N : q <> p).
    { intros ->. rewrite ObjFacts.get_set_eq in Hp. injection Hp as <-.
      contradiction. }
    rewrite ObjFacts.get_set_ne in Hp by exact N.
    destruct (Sb name) as [Eq|[Hts' _]]; [|contradiction].
    destruct (I p bp0 name Hp Hin)
      as (p' & s' & bp' & before & after & G & Hn & Hp' & Hin' & Ed & Last).
    assert (Np' : q <> p').
    { intros ->. apply Hq, K. eapply ObjFacts.get_In_keys, Hp'. }
    exists p', s', bp', before, (after ++ [q]).
    rewrite Eq. split; [exact G|]. split; [exact Hn|].
    split; [now rewrite ObjFacts.get_set_ne|]. split; [exact Hin'|].
    split; [rewrite Ed, <- app_assoc; reflexivity|].
    intros p2 bp2 H2 G2. apply in_app_iff in H2 as [H2|[<-|[]]].
    + assert (q <> p2).
      { intros ->. apply Hq. rewrite Ed. apply in_app_iff. right. now right. }
      rewrite ObjFacts.get_set_ne in G2 by assumption. eapply Last; eauto.
    + rewrite ObjFacts.get_set_eq in G2. injection G2 as <-. exact Hts.
Qed.

Lemma loop_indexed rp (l : list string) plans idx st st' :
  List.NoDup l ->
  forEach l (BuildPlans_body rp) ([], []) st = (Ok (plans, idx), st') ->
  indexed l plans idx.
Proof.
  intros ND H.
  change (indexed l (fst (plans, idx)) (snd (plans, idx))).
  eapply (forEach_pos (fun done (a : Obj.t Plan.t * Obj.t Index.t) =>
                         indexed done (fst a) (snd a))
            l (BuildPlans_body rp));
    [| |exact H].
  - intros done q rest [plans0 idx0] [plans1 idx1] st0 st1 El I E.
    eapply body_indexed; [|exact I | exact E].
    eapply ObjFacts.NoDup_split_notin. rewrite <- El. exact ND.
  - split; [intros p [] | intros p bp name Hget; discriminate].
Qed.

End IndexFacts.

(** C1, as the code has it.  Every target that a plan records is in the
    reverse index, under a pair {prefix', suffix'} that spells the same
    name (prefix' + "-" + suffix'): the pair of the last plan, in plan
    order, that records this target.  Within one plan the name determines
    the suffix, and the pair is the originating one whenever no other plan
    of the build records the same name. *)
Theorem reverse_index_sound (rp : Raw.t) (st st' : State)
    (r : BuildPlansResult.t) :
  Obj.wf (Raw.buildPlans rp) ->
  BuildPlans rp st = (Ok r, st') ->
  forall prefix bp suffix,
    Obj.get prefix (BuildPlansResult.buildPlans r) = Some bp ->
    In (makeFileName prefix suffix) (Plan.targets bp) ->
    (forall suffix', makeFileName prefix suffix' = makeFileName prefix suffix ->
                     suffix' = suffix)
    /\ exists prefix' suffix' bp' before after,
         Obj.get (makeFileName prefix suffix)
                 (BuildPlansResult.fileNameToBpMap r)
           = Some {| Index.prefix := prefix'; Index.suffix := suffix' |}
         /\ makeFileName prefix' suffix' = makeFileName prefix suffix
         /\ Obj.get prefix' (BuildPlansResult.buildPlans r) = Some bp'
         /\ In (makeFileName prefix suffix) (Plan.targets bp')
         /\ Obj.keys (Raw.buildPlans rp) = before ++ prefix' :: after
         /\ (forall p2 bp2,
               In p2 after ->
               Obj.get p2 (BuildPlansResult.buildPlans r) = Some bp2 ->
               ~ In (makeFileName prefix suffix) (Plan.targets bp2))
         /\ ((forall p2 bp2,
                Obj.get p2 (BuildPlansResult.buildPlans r) = Some bp2 ->
                In (makeFileName prefix suffix) (Plan.targets bp2) ->
                p2 = prefix) ->
             prefix' = prefix /\ suffix' = suffix).
Proof.
  intros WF H prefix bp suffix Hp Hin.
  split; [intros s' E; now apply IndexFacts.makeFileName_inj in E|].
  unfold BuildPlans, bind in H.
  destruct (forEach _ _ _ st) as [[[plans idx]|e] st1] eqn:E; [|discriminate].
  unfold ret in H. injection H as <- <-. simpl in *.
  destruct (IndexFacts.loop_indexed rp _ _ _ _ _ WF E) as [_ I].
  destruct (I prefix bp _ Hp Hin)
    as (p' & s' & bp' & before & after & G & Hn & Hp' & Hin' & Ed & Last).
  exists p', s', bp', before, after. repeat (split; [assumption|]).
  intros U. assert (p' = prefix) by (eapply U; eauto). subst p'.
  split; [reflexivity|]. now apply IndexFacts.makeFileName_inj in Hn.
Qed.

Lemma reverse_index_sound_witness :
  exists prefix' suffix' bp' r st',
    BuildPlans collidingPlans initialState = (Ok r, st')
    /\ Obj.get "iosevka-slab-bold" (BuildPlansResult.fileNameToBpMap r)
         = Some {| Index.prefix := prefix'; Index.suffix := suffix' |}
    /\ makeFileName prefix' suffix' = "iosevka-slab-bold"
    /\ Obj.get prefix' (BuildPlansResult.buildPlans r) = Some bp'
    /\ In "iosevka-slab-bold" (Plan.targets bp').
Proof.
  pose (x := BuildPlans collidingPlans initialState).
  assert (E : BuildPlans collidingPlans initialState = x) by reflexivity.
  vm_compute in x.
  assert (WF : Obj.wf (Raw.buildPlans collidingPlans)).
  { repeat constructor; simpl; intuition discriminate. }
  destruct (reverse_index_sound collidingPlans initialState _ _ WF E
              "iosevka-slab" _ "bold" eq_refl (or_introl eq_refl))
    as (_ & p' & s' & bp' & before & after & G & Hn & Hp' & Hin' & _).
  exists p', s', bp'. eexists. eexists. split; [exact E|].
  repeat split; assumption.
Defined.

(** C1, as stated, fails: both plans of [collidingPlans] record the
    target "iosevka-slab-bold", the index holds one pair for it, that of
    the later plan, and so the pair {"iosevka", "slab-bold"} is not
    recovered; the two pairs spell the same name. *)
Lemma reverse_index_collision :
  exists r st' bp,
    BuildPlans collidingPlans initialState = (Ok r, st')
    /\ Obj.wf (Raw.buildPlans collidingPlans)
    /\ Obj.get "iosevka" (BuildPlansResult.buildPlans r) = Some bp
    /\ In (makeFileName "iosevka" "slab-bold") (Plan.targets bp)
    /\ Obj.get (makeFileName "iosevka" "slab-bold")
               (BuildPlansResult.fileNameToBpMap r)
         = Some {| Index.prefix := "iosevka-slab"; Index.suffix := "bold" |}
    /\ Obj.get (makeFileName "iosevka" "slab-bold")
               (BuildPlansResult.fileNameToBpMap r)
         <> Some {| Index.prefix := "iosevka"; Index.suffix := "slab-bold" |}
    /\ makeFileName "iosevka" "slab-bold" = makeFileName "iosevka-slab" "bold".
Proof.
  eexists. eexists. eexists. split; [vm_compute; reflexivity|].
  split; [repeat constructor; simpl; intuition discriminate|].
  split; [vm_compute; reflexivity|].
  split; [now left|].
  split; [reflexivity|].
  split; [discriminate | reflexivity].
Qed.

(** ** Collection plans *)

Module CollectFacts.

Lemma forEachR_inv {A B} (P : B -> Prop) (l : list A)
    (body : A -> B -> Result B) :
  (forall x a a', In x l -> P a -> body x a = Ok a' -> P a') ->
  forall acc res, P acc -> forEachR l body acc = Ok res -> P res.
Proof.
  induction l as [|x r IH]; intros Hb acc res Hacc H.
  - simpl in H. now injection H as <-.
  - simpl in H. destruct (body x acc) as [a'|e] eqn:E; [|discriminate].
    simpl in H. eapply (IH (fun y a b Hy => Hb y a b (or_intror Hy))),  H.
    eapply Hb; [now left | exact Hacc | exact E].
Qed.

Lemma forEachR_ok {A B} (l : list A) (body : A -> B -> Result B) :
  (forall x a, In x l -> exists a', body x a = Ok a') ->
  forall acc, exists res, forEachR l body acc = Ok res.
Proof.
  induction l as [|x r IH]; intros Hb acc; [now exists acc|].
  simpl. destruct (Hb x acc (or_introl eq_refl)) as (a' & ->). simpl.
  apply IH. intros y a Hy. apply Hb. now right.
Qed.

Lemma fold_left_inv {A B} (P : B -> Prop) (f : B -> A -> B) (l : list A) :
  (forall x a, In x l -> P a -> P (f a x)) ->
  forall acc, P acc -> P (fold_left f l acc).
Proof.
  induction l as [|x r IH]; intros Hf acc Hacc; [exact Hacc|].
  simpl. apply IH; [intros y a Hy; apply Hf; now right|].
  apply Hf; [now left | exact Hacc].
Qed.

(** Sets of strings *)

Lemma setHas_In (x : string) (l : list string) :
  setHas x l = true <-> In x l.
Proof.
  unfold setHas. rewrite existsb_exists. split.
  - intros (y & Hy & E). apply String.eqb_eq in E. now subst.
  - intros H. exists x. split; [exact H | apply String.eqb_refl].
Qed.

Lemma In_setAdd (x y : string) (l : list string) :
  In y (setAdd x l) <-> y = x \/ In y l.
Proof.
  unfold setAdd. destruct (setHas x l) eqn:E.
  - apply setHas_In in E. intuition congruence.
  - rewrite in_app_iff. simpl. intuition.
Qed.

Lemma NoDup_setAdd (x : string) (l : list string) :
  List.NoDup l -> List.NoDup (setAdd x l).
Proof.
  intros ND. unfold setAdd. destruct (setHas x l) eqn:E; [exact ND|].
  apply List.NoDup_app; [exact ND | |].
  - constructor; [intros [] | constructor].
  - intros y Hy [->|[]].
    assert (setHas y l = true) by now apply setHas_In. congruence.
Qed.

Lemma fold_setAdd_spec (l acc : list string) :
  List.NoDup acc ->
  List.NoDup (fold_left (fun a x => setAdd x a) l acc)
  /\ (forall y, In y (fold_left (fun a x => setAdd x a) l acc)
                <-> In y acc \/ In y l)
  /\ exists tail, fold_left (fun a x => setAdd x a) l acc = acc ++ tail.
Proof.
  revert acc. induction l as [|x r IH]; intros acc ND; simpl.
  - split; [exact ND|]. split; [intuition|]. exists []. now rewrite app_nil_r.
  - destruct (IH (setAdd x acc) (NoDup_setAdd x acc ND)) as (N & Mem & tail & E).
    split; [exact N|]. split.
    + intros y. rewrite Mem, In_setAdd. intuition.
    + rewrite E. unfold setAdd. destruct (setHas x acc).
      * now exists tail.
      * exists (x :: tail). now rewrite <- app_assoc.
Qed.

Lemma In_setFrom (x : string) (l : list string) : In x (setFrom l) <-> In x l.
Proof.
  unfold setFrom. destruct (fold_setAdd_spec l [] (List.NoDup_nil _))
    as (_ & Mem & _).
  rewrite Mem. simpl. tauto.
Qed.

Lemma NoDup_setFrom (l : list string) : List.NoDup (setFrom l).
Proof. apply fold_setAdd_spec. constructor. Qed.

(** Where [x] first occurs in [l], it stands in [setFrom l] after the
    members of what precedes it. *)
Lemma setFrom_first (l1 l2 : list string) (x : string) :
  ~ In x l1 ->
  exists tail, setFrom (l1 ++ x :: l2) = setFrom l1 ++ x :: tail.
Proof.
  intros NI.
  assert (E0 : setFrom (l1 ++ x :: l2) =
               fold_left (fun a y => setAdd y a) l2 (setAdd x (setFrom l1))).
  { unfold setFrom. now rewrite fold_left_app. }
  rewrite E0.
  assert (H : setHas x (setFrom l1) = false).
  { destruct (setHas x (setFrom l1)) eqn:E; [|reflexivity].
    apply setHas_In in E. rewrite In_setFrom in E. contradiction. }
  unfold setAdd at 2. rewrite H.
  destruct (fold_setAdd_spec l2 (setFrom l1 ++ [x])) as (_ & _ & tail & E).
  - apply List.NoDup_app; [apply NoDup_setFrom | |].
    + constructor; [intros [] | constructor].
    + intros y Hy [->|[]]. rewrite In_setFrom in Hy. contradiction.
  - exists tail. rewrite E, <- app_assoc. reflexivity.
Qed.

(** Composition lists *)

Lemma get_pushTo {A} (k k' : string) (x : A) (o : Obj.t (list A)) :
  Obj.get k' (pushTo k x o) =
  if String.eqb k k' then Some (default [] (Obj.get k o) ++ [x])
  else Obj.get k' o.
Proof. unfold pushTo. apply ObjFacts.get_set. Qed.

Lemma produced_pushTo buildPlans glyf gname part plan :
  produced buildPlans glyf ->
  Obj.get (GlyfPart.dir part) buildPlans = Some plan ->
  In (GlyfPart.file part) (Plan.targets plan) ->
  produced buildPlans (pushTo gname part glyf).
Proof.
  intros P Hplan Hfile name parts part' Hget Hin.
  rewrite get_pushTo in Hget. destruct (String.eqb gname name).
  - injection Hget as <-. apply in_app_iff in Hin as [Hin|[<-|[]]].
    + destruct (Obj.get gname glyf) as [old|] eqn:G; [|destruct Hin].
      eapply P; eauto.
    + eauto.
  - eapply P; eauto.
Qed.

Lemma pushTo_nonempty {A} (gname g : string) (part : A)
    (glyf : Obj.t (list A)) (parts : list A) :
  Obj.get g glyf = Some parts -> parts <> [] ->
  exists parts', Obj.get g (pushTo gname part glyf) = Some parts'
                 /\ parts' <> [].
Proof.
  intros G NE. rewrite get_pushTo. destruct (String.eqb_spec gname g) as [->|N].
  - rewrite G. simpl. eexists. split; [reflexivity|].
    destruct parts; [congruence | discriminate].
  - eauto.
Qed.

Lemma pushTo_self {A} (gname : string) (part : A) (glyf : Obj.t (list A)) :
  exists parts', Obj.get gname (pushTo gname part glyf) = Some parts'
                 /\ parts' <> [].
Proof.
  rewrite get_pushTo, String.eqb_refl. eexists. split; [reflexivity|].
  now destruct (default [] _).
Qed.

Lemma composed_pushTo glyf ttc gname tname part :
  composed glyf ttc ->
  composed (pushTo gname part glyf) (pushTo tname gname ttc).
Proof.
  intros C name glyfs g Hget Hin.
  rewrite get_pushTo in Hget. destruct (String.eqb tname name).
  - injection Hget as <-. apply in_app_iff in Hin as [Hin|[<-|[]]].
    + destruct (Obj.get tname ttc) as [old|] eqn:G; [|destruct Hin].
      destruct (C tname old g G Hin) as (parts & Hp & NE).
      eapply pushTo_nonempty; eauto.
    + apply pushTo_self.
  - destruct (C name glyfs g Hget Hin) as (parts & Hp & NE).
    eapply pushTo_nonempty; eauto.
Qed.

Lemma collectSuffix_sound buildPlans fn config collectPrefix prefix gri
    mapping suffix acc :
  Obj.get prefix buildPlans = Some gri ->
  sound buildPlans acc ->
  sound buildPlans
    (collectSuffix fn config collectPrefix prefix
                   (setFrom (Plan.targets gri)) mapping suffix acc).
Proof.
  intros Hgri [P C]. destruct acc as [[glyf ttc] files]. simpl in P, C.
  unfold collectSuffix. destruct (Obj.get suffix mapping) as [sfi|];
    [|split; assumption].
  destruct (setHas (makeFileName prefix suffix) (setFrom (Plan.targets gri)))
    eqn:E; simpl; [|split; assumption].
  apply setHas_In in E. rewrite In_setFrom in E.
  split; simpl.
  - eapply produced_pushTo; eauto.
  - now apply composed_pushTo.
Qed.

(** The three outcomes of the read [buildPlans[prefix]] in the loop over
    the sources. *)
Lemma collectSuffix_nil fn config c p mapping k acc :
  collectSuffix fn config c p [] mapping k acc = acc.
Proof.
  destruct acc as [[g t] files]. unfold collectSuffix.
  destruct (Obj.get k mapping); reflexivity.
Qed.

Lemma collectSource_own pe buildPlans mapping config fn c p gri acc :
  Obj.get p buildPlans = Some gri ->
  collectSource pe buildPlans mapping config fn c p acc
  = Ok (fold_left
          (fun a suffix =>
             collectSuffix fn config c p (setFrom (Plan.targets gri))
                           mapping suffix a)
          (Obj.keys mapping) acc).
Proof.
  intros G. unfold collectSource, BuildPlanOf, Obj.read. rewrite G.
  reflexivity.
Qed.

Lemma collectSource_member pe buildPlans mapping config fn c p acc :
  Obj.get p buildPlans = None -> Obj.inherited p = true ->
  collectSource pe buildPlans mapping config fn c p acc = Ok acc.
Proof.
  intros G I. unfold collectSource, BuildPlanOf, Obj.read. rewrite G, I.
  cbn [bindR targetSet]. f_equal.
  apply fold_left_inv with (P := fun a => a = acc); [|reflexivity].
  intros k a _ ->. apply collectSuffix_nil.
Qed.

Lemma collectSource_absent pe buildPlans mapping config fn c p acc :
  Obj.get p buildPlans = None -> Obj.inherited p = false ->
  collectSource pe buildPlans mapping config fn c p acc
  = Throw (Failure (planNotFound pe p)).
Proof.
  intros G I. unfold collectSource, BuildPlanOf, Obj.read. rewrite G, I.
  reflexivity.
Qed.

Lemma collectSource_inv pe buildPlans mapping config fn c p acc acc' :
  collectSource pe buildPlans mapping config fn c p acc = Ok acc' ->
  (exists gri,
     Obj.get p buildPlans = Some gri
     /\ acc' = fold_left
                 (fun a suffix =>
                    collectSuffix fn config c p (setFrom (Plan.targets gri))
                                  mapping suffix a)
                 (Obj.keys mapping) acc)
  \/ (Obj.get p buildPlans = None /\ Obj.inherited p = true /\ acc' = acc).
Proof.
  intros H. destruct (Obj.get p buildPlans) as [gri|] eqn:G.
  - rewrite (collectSource_own _ _ _ _ _ _ _ _ _ G) in H.
    injection H as <-. left. eauto.
  - destruct (Obj.inherited p) eqn:I.
    + rewrite (collectSource_member _ _ _ _ _ _ _ _ G I) in H.
      injection H as <-. right. auto.
    + rewrite (collectSource_absent _ _ _ _ _ _ _ _ G I) in H. discriminate.
Qed.

Lemma collectSource_throw_inv pe buildPlans mapping config fn c p acc e :
  collectSource pe buildPlans mapping config fn c p acc = Throw e ->
  Obj.get p buildPlans = None /\ Obj.inherited p = false
  /\ e = Failure (planNotFound pe p).
Proof.
  intros H. destruct (Obj.get p buildPlans) as [gri|] eqn:G.
  - rewrite (collectSource_own _ _ _ _ _ _ _ _ _ G) in H. discriminate.
  - destruct (Obj.inherited p) eqn:I.
    + rewrite (collectSource_member _ _ _ _ _ _ _ _ G I) in H. discriminate.
    + rewrite (collectSource_absent _ _ _ _ _ _ _ _ G I) in H.
      injection H as <-. auto.
Qed.

End CollectFacts.

(** C3. In the plans that [getCollectPlans] returns, every pair of a
    glyfTtcComposition list names a target that the pair's source plan
    produces, and every name of a ttcComposition list is a
    glyfTtcComposition list with such constituents: a suffix of the
    standard mapping that a source plan does not produce leaves no trace.
    The planner raises no error for it either: it returns plans whenever
    every prefix of every from-list names a build plan, whatever targets
    those plans have. *)
Theorem collect_plans_sparse (privateExists : bool)
    (buildPlans : Obj.t Plan.t) (rawCollectPlans : Obj.t Collect.t)
    (suffixMapping : Obj.t SuffixItem.t) (config : CollectConfig.t)
    (fnFileName : CollectConfig.t -> string -> string -> string -> string -> string) :
  (forall cp,
     getCollectPlans privateExists buildPlans rawCollectPlans suffixMapping
                     config fnFileName = Ok cp ->
     (forall name parts part,
        Obj.get name (CollectPlansResult.glyfTtcComposition cp) = Some parts ->
        In part parts ->
        exists plan,
          Obj.get (GlyfPart.dir part) buildPlans = Some plan
          /\ In (GlyfPart.file part) (Plan.targets plan))
     /\ (forall name glyfs g,
           Obj.get name (CollectPlansResult.ttcComposition cp) = Some glyfs ->
           In g glyfs ->
           exists parts,
             Obj.get g (CollectPlansResult.glyfTtcComposition cp) = Some parts
             /\ parts <> []))
  /\ ((forall collectPrefix from prefix,
         Obj.get collectPrefix rawCollectPlans = Some (Collect.mk (Some from)) ->
         In prefix from -> Obj.get prefix buildPlans <> None) ->
      exists cp,
        getCollectPlans privateExists buildPlans rawCollectPlans suffixMapping
                        config fnFileName = Ok cp).
Proof.
  split.
  - intros cp H.
    pose (P := fun cp : CollectPlansResult.t =>
                 produced buildPlans (CollectPlansResult.glyfTtcComposition cp)
                 /\ composed (CollectPlansResult.glyfTtcComposition cp)
                             (CollectPlansResult.ttcComposition cp)).
    change (P cp). unfold getCollectPlans in H.
    eapply (CollectFacts.forEachR_inv P); [| |exact H].
    + intros c a a' _ Pa Hbody. unfold collectGroup in Hbody.
      destruct (Obj.get c rawCollectPlans) as [[[[|p ps]|]]|];
        try (injection Hbody as <-; exact Pa).
      destruct (forEachR (p :: ps) _ _) as [[[g t] files]|e] eqn:E;
        [|discriminate].
      simpl in Hbody. injection Hbody as <-. unfold P. simpl.
      change (sound buildPlans (g, t, files)).
      eapply (CollectFacts.forEachR_inv (sound buildPlans)); [| |exact E].
      * intros prefix acc acc' _ Hacc Hinner.
        apply CollectFacts.collectSource_inv in Hinner
          as [(gri & G & ->)|(_ & _ & ->)]; [|exact Hacc].
        apply CollectFacts.fold_left_inv; [|exact Hacc].
        intros suffix a0 _ Ha0.
        now apply CollectFacts.collectSuffix_sound.
      * exact Pa.
    + split; intros name parts part Hget; discriminate.
  - intros Hfrom. unfold getCollectPlans.
    apply CollectFacts.forEachR_ok. intros c a Hc. unfold collectGroup.
    destruct (Obj.get c rawCollectPlans) as [[[[|p ps]|]]|] eqn:G; eauto.
    destruct (CollectFacts.forEachR_ok (p :: ps)
                (collectSource privateExists buildPlans suffixMapping config
                               fnFileName c)) with
      (acc := (CollectPlansResult.glyfTtcComposition a,
               CollectPlansResult.ttcComposition a, @nil string))
      as (res & ->).
    + intros prefix acc Hin.
      destruct (Obj.get prefix buildPlans) as [gri|] eqn:Gp.
      * rewrite (CollectFacts.collectSource_own _ _ _ _ _ _ _ _ _ Gp). eauto.
      * exfalso. eapply Hfrom; eauto.
    + destruct res as [[g t] files]. simpl. eauto.
Qed.

Lemma collect_plans_sparse_witness :
  exists cp,
    sparseCollectPlans = Ok cp
    /\ forall name parts part,
         Obj.get name (CollectPlansResult.glyfTtcComposition cp) = Some parts ->
         In part parts ->
         exists plan,
           Obj.get (GlyfPart.dir part) sparseBuildPlans = Some plan
           /\ In (GlyfPart.file part) (Plan.targets plan).
Proof.
  destruct (collect_plans_sparse true sparseBuildPlans
              (Raw.collectPlans sparsePlans) sparseStandardSuffixes
              (Raw.collectConfig sparsePlans) fnStandardTtc) as [Hsound Hruns].
  assert (Hfrom : forall c from prefix,
            Obj.get c (Raw.collectPlans sparsePlans)
              = Some (Collect.mk (Some from)) ->
            In prefix from -> Obj.get prefix sparseBuildPlans <> None).
  { intros c from prefix Hc Hin.
    cbn [Obj.get Raw.collectPlans sparsePlans] in Hc.
    destruct (String.eqb "c" c);
      [|destruct (String.eqb "d" c); [|discriminate Hc]];
      injection Hc as <-; simpl in Hin;
      destruct Hin as [<-|[<-|[]]]; vm_compute; discriminate. }
  destruct (Hruns Hfrom) as (cp & E).
  exists cp. split; [exact E|]. exact (proj1 (Hsound cp E)).
Defined.

(** ** Glyf lists without repetition *)

Module DistinctFacts.

Lemma forEachR_pos {A B} (P : list A -> B -> Prop) (l : list A)
    (body : A -> B -> Result B) :
  (forall done x rest a a',
     l = done ++ x :: rest -> P done a -> body x a = Ok a' ->
     P (done ++ [x]) a') ->
  forall acc res, P [] acc -> forEachR l body acc = Ok res -> P l res.
Proof.
  intros Hb.
  assert (G : forall rest done acc res,
            l = done ++ rest -> P done acc ->
            forEachR rest body acc = Ok res -> P l res).
  { induction rest as [|x rest IH]; intros done acc res El Hacc H.
    - cbn in H. injection H as <-. rewrite app_nil_r in El. now subst.
    - cbn [forEachR] in H.
      destruct (body x acc) as [a'|e] eqn:E; [|discriminate].
      cbn [bindR] in H. apply (IH (done ++ [x]) a' res).
      + now rewrite <- app_assoc.
      + eapply Hb; eauto.
      + exact H. }
  intros acc res. now apply (G l []).
Qed.

Lemma fold_left_pos {A B} (P : list A -> B -> Prop) (l : list A)
    (f : B -> A -> B) :
  (forall done x rest a,
     l = done ++ x :: rest -> P done a -> P (done ++ [x]) (f a x)) ->
  forall acc, P [] acc -> P l (fold_left f l acc).
Proof.
  intros Hf.
  assert (G : forall rest done acc,
            l = done ++ rest -> P done acc -> P l (fold_left f rest acc)).
  { induction rest as [|x rest IH]; intros done acc El Hacc.
    - cbn. rewrite app_nil_r in El. now subst.
    - cbn [fold_left]. apply (IH (done ++ [x])).
      + now rewrite <- app_assoc.
      + eapply Hf; eauto. }
  intros acc. now apply (G l []).
Qed.

Section Planner.
Variable fnFileName :
  CollectConfig.t -> string -> string -> string -> string -> string.
Variable config : CollectConfig.t.
Variable suffixMapping : Obj.t SuffixItem.t.

(** Container names of one item tell the collections apart. *)
Hypothesis fnFileName_prefix :
  forall cfg c c' w wd s,
    fnFileName cfg c w wd s = fnFileName cfg c' w wd s -> c = c'.

Local Abbreviation distinct' := (distinct fnFileName config suffixMapping).

Lemma distinct_mono (V V' : string -> string -> string -> Prop) glyf :
  (forall c p k, V c p k -> V' c p k) -> distinct' V glyf -> distinct' V' glyf.
Proof.
  intros Sub [ND Or]. split; [exact ND|].
  intros gname parts part Hget Hin.
  destruct (Or gname parts part Hget Hin) as (c & k & sfi & Hv & R).
  exists c, k, sfi. split; [auto | exact R].
Qed.

(** Pushing the pair of a triple that was not visited yet. *)
Lemma distinct_push (V V' : string -> string -> string -> Prop)
    glyf c p k sfi :
  distinct' V glyf -> ~ V c p k ->
  (forall c' p' k', V c' p' k' -> V' c' p' k') -> V' c p k ->
  Obj.get k suffixMapping = Some sfi ->
  distinct' V'
    (pushTo (glyfName fnFileName config c sfi)
            {| GlyfPart.dir := p; GlyfPart.file := makeFileName p k |} glyf).
Proof.
  intros [ND Or] New Sub Here Hk. split.
  - intros gname parts Hget. rewrite CollectFacts.get_pushTo in Hget.
    destruct (String.eqb_spec (glyfName fnFileName config c sfi) gname)
      as [<-|N]; [|eapply ND; eauto].
    injection Hget as <-.
    destruct (Obj.get (glyfName fnFileName config c sfi) glyf) as [old|] eqn:G;
      cbn [default]; [|repeat constructor; intros []].
    apply List.NoDup_app; [eapply ND; eauto | repeat constructor; intros [] |].
    intros part Hin [<-|[]].
    destruct (Or _ _ _ G Hin) as (c' & k' & sfi' & Hv & Hk' & Hfile & Hname).
    cbn [GlyfPart.dir GlyfPart.file] in Hv, Hfile.
    apply IndexFacts.makeFileName_inj in Hfile. subst k'.
    assert (sfi' = sfi) by congruence. subst sfi'.
    apply fnFileName_prefix in Hname. subst c'. contradiction.
  - intros gname parts part Hget Hin. rewrite CollectFacts.get_pushTo in Hget.
    assert (Old : forall old, Obj.get gname glyf = Some old -> In part old ->
              exists c0 k0 sfi0,
                V' c0 (GlyfPart.dir part) k0
                /\ Obj.get k0 suffixMapping = Some sfi0
                /\ GlyfPart.file part = makeFileName (GlyfPart.dir part) k0
                /\ gname = glyfName fnFileName config c0 sfi0).
    { intros old G Hold.
      destruct (Or _ _ _ G Hold) as (c0 & k0 & sfi0 & Hv & R).
      exists c0, k0, sfi0. split; [auto | exact R]. }
    destruct (String.eqb_spec (glyfName fnFileName config c sfi) gname)
      as [<-|N]; [|eapply Old; eauto].
    injection Hget as <-. apply in_app_iff in Hin as [Hin|[<-|[]]].
    + destruct (Obj.get (glyfName fnFileName config c sfi) glyf) as [old|] eqn:G;
        [|destruct Hin].
      eapply Old; eauto.
    + exists c, k, sfi. cbn [GlyfPart.dir GlyfPart.file]. auto.
Qed.

(** One suffix of one source of one collection. *)
Lemma collectSuffix_distinct (V V' : string -> string -> string -> Prop)
    c p set k acc :
  distinct' V (fst (fst acc)) -> ~ V c p k ->
  (forall c' p' k', V c' p' k' -> V' c' p' k') -> V' c p k ->
  distinct' V'
    (fst (fst (collectSuffix fnFileName config c p set suffixMapping k acc))).
Proof.
  intros D New Sub Here. destruct acc as [[glyf ttc] files].
  cbn [fst] in D. unfold collectSuffix.
  destruct (Obj.get k suffixMapping) as [sfi|] eqn:Hk;
    [|cbn [fst]; eapply distinct_mono; eauto].
  destruct (negb (setHas (makeFileName p k) set));
    cbn [fst]; [eapply distinct_mono; eauto|].
  change (fnFileName _ c (SuffixItem.weight sfi) (SuffixItem.width sfi)
            (SuffixItem.slope sfi))
    with (glyfName fnFileName config c sfi) at 1.
  eapply distinct_push; eauto.
Qed.

Variable privateExists : bool.
Variable buildPlans : Obj.t Plan.t.
Variable rawCollectPlans : Obj.t Collect.t.

Lemma collectSource_distinct dc c ds p acc acc' :
  Obj.wf suffixMapping -> ~ In c dc -> ~ In p ds ->
  distinct' (visitedSources dc c ds) (fst (fst acc)) ->
  collectSource privateExists buildPlans suffixMapping config fnFileName
                c p acc = Ok acc' ->
  distinct' (visitedSources dc c (ds ++ [p])) (fst (fst acc')).
Proof.
  intros WF Hc Hp D H. unfold collectSource in H.
  destruct (BuildPlanOf privateExists buildPlans p) as [gri|e]; [|discriminate].
  cbn [bindR] in H. injection H as <-.
  eapply distinct_mono with (V := visitedSuffixes dc c ds p (Obj.keys suffixMapping)).
  { unfold visitedSuffixes, visitedSources. intros c' p' k'.
    rewrite in_app_iff. cbn [In]. intuition (subst; auto). }
  apply (fold_left_pos
           (fun dk a => distinct' (visitedSuffixes dc c ds p dk) (fst (fst a)))).
  - intros done k rest a El Da.
    eapply collectSuffix_distinct; [exact Da | | |].
    + unfold visitedSuffixes. intros [?|[[_ ?]|[_ [_ Hk]]]]; try contradiction.
      revert Hk. eapply ObjFacts.NoDup_split_notin. unfold Obj.wf in WF.
      rewrite El in WF. exact WF.
    + unfold visitedSuffixes. intros c' p' k'. rewrite in_app_iff. tauto.
    + unfold visitedSuffixes. rewrite in_app_iff. cbn [In]. tauto.
  - eapply distinct_mono; [|exact D].
    unfold visitedSuffixes, visitedSources. tauto.
Qed.

Lemma collectGroup_distinct dc c cp cp' :
  Obj.wf suffixMapping -> ~ In c dc ->
  (forall from, Obj.get c rawCollectPlans = Some (Collect.mk (Some from)) ->
                List.NoDup from) ->
  distinct' (visitedGroups dc) (CollectPlansResult.glyfTtcComposition cp) ->
  collectGroup privateExists buildPlans rawCollectPlans suffixMapping config
               fnFileName c cp = Ok cp' ->
  distinct' (visitedGroups (dc ++ [c]))
            (CollectPlansResult.glyfTtcComposition cp').
Proof.
  intros WF Hc Hfrom D H.
  assert (Skip : distinct' (visitedGroups (dc ++ [c]))
                   (CollectPlansResult.glyfTtcComposition cp)).
  { eapply distinct_mono; [|exact D]. unfold visitedGroups.
    intros c' _ _. rewrite in_app_iff. tauto. }
  unfold collectGroup in H.
  destruct (Obj.get c rawCollectPlans) as [[[[|p ps]|]]|];
    try (injection H as <-; exact Skip).
  destruct (forEachR (p :: ps) _ _) as [[[g t] files]|e] eqn:E; [|discriminate].
  cbn [bindR] in H. injection H as <-.
  cbn [CollectPlansResult.glyfTtcComposition].
  eapply distinct_mono with (V := visitedSources dc c (p :: ps)).
  { unfold visitedSources, visitedGroups. intros c' p' _.
    rewrite in_app_iff. cbn [In]. intuition. }
  change g with (fst (fst (g, t, files))).
  eapply (forEachR_pos
            (fun ds a => distinct' (visitedSources dc c ds) (fst (fst a))));
    [| |exact E].
  - intros done x rest a a' El Da Hbody.
    eapply collectSource_distinct; [exact WF | exact Hc | | exact Da | exact Hbody].
    eapply ObjFacts.NoDup_split_notin. rewrite <- El. now apply Hfrom.
  - cbn [fst]. eapply distinct_mono; [|exact D].
    unfold visitedSources, visitedGroups. tauto.
Qed.

Lemma getCollectPlans_distinct cp :
  Obj.wf rawCollectPlans -> Obj.wf suffixMapping ->
  (forall c from, Obj.get c rawCollectPlans = Some (Collect.mk (Some from)) ->
                  List.NoDup from) ->
  getCollectPlans privateExists buildPlans rawCollectPlans suffixMapping
                  config fnFileName = Ok cp ->
  forall gname parts,
    Obj.get gname (CollectPlansResult.glyfTtcComposition cp) = Some parts ->
    List.NoDup parts.
Proof.
  intros WFr WFm Hfrom H. unfold getCollectPlans in H.
  assert (D : distinct' (visitedGroups (Obj.keys rawCollectPlans))
                (CollectPlansResult.glyfTtcComposition cp)).
  { eapply (forEachR_pos
              (fun dc cp => distinct' (visitedGroups dc)
                              (CollectPlansResult.glyfTtcComposition cp)));
      [| |exact H].
    - intros done c rest a a' El Da Hbody.
      eapply collectGroup_distinct; [exact WFm | | apply Hfrom | exact Da | exact Hbody].
      eapply ObjFacts.NoDup_split_notin. unfold Obj.wf in WFr. rewrite El in WFr. exact WFr.
    - split; intros gname parts; discriminate. }
  exact (proj1 D).
Qed.

End Planner.

Lemma length_append (a b : string) :
  String.length (a +:+ b) = (String.length a + String.length b)%nat.
Proof. induction a as [|x a IH]; simpl; [reflexivity | now f_equal]. Qed.

Lemma append_inv_tail (a b t : string) : a +:+ t = b +:+ t -> a = b.
Proof.
  revert b. induction a as [|x a IH]; intros [|y b] H.
  - reflexivity.
  - exfalso. apply (f_equal String.length) in H.
    rewrite !length_append in H. simpl in H. lia.
  - exfalso. apply (f_equal String.length) in H.
    rewrite !length_append in H. simpl in H. lia.
  - simpl in H. injection H as -> H. f_equal. auto.
Qed.

Lemma fnStandardTtc_prefix cfg c c' w wd s :
  fnStandardTtc cfg c w wd s = fnStandardTtc cfg c' w wd s -> c = c'.
Proof. unfold fnStandardTtc. apply append_inv_tail. Qed.

End DistinctFacts.

(** ** What the planner pushes onto the ttc lists *)

Module PushFacts.

Lemma lists_pushTo {A} (k : string) (x : A) (o : Obj.t (list A)) t :
  default [] (Obj.get t (pushTo k x o))
  = default [] (Obj.get t o) ++ (if String.eqb k t then [x] else []).
Proof.
  rewrite CollectFacts.get_pushTo.
  destruct (String.eqb_spec k t) as [->|N]; [reflexivity|].
  now rewrite app_nil_r.
Qed.

Lemma pushedTo_app t (ps1 ps2 : list (string * string)) :
  pushedTo t (ps1 ++ ps2) = pushedTo t ps1 ++ pushedTo t ps2.
Proof. unfold pushedTo. now rewrite List.filter_app, map_app. Qed.

Lemma pushedTo_flat_map {A} t (f : A -> list (string * string)) (l : list A) :
  pushedTo t (flat_map f l) = flat_map (fun x => pushedTo t (f x)) l.
Proof.
  induction l as [|x l IH]; [reflexivity|].
  cbn [flat_map]. now rewrite pushedTo_app, IH.
Qed.

Lemma setHas_setFrom (x : string) (l : list string) :
  setHas x (setFrom l) = setHas x l.
Proof.
  destruct (setHas x l) eqn:E.
  - apply CollectFacts.setHas_In. rewrite CollectFacts.In_setFrom.
    now apply CollectFacts.setHas_In.
  - destruct (setHas x (setFrom l)) eqn:E'; [|reflexivity].
    apply CollectFacts.setHas_In in E'. rewrite CollectFacts.In_setFrom in E'.
    apply CollectFacts.setHas_In in E'. congruence.
Qed.

Lemma fold_left_append {A B} (view : B -> list string) (f : B -> A -> B)
    (g : A -> list string) (l : list A) :
  (forall a x, view (f a x) = view a ++ g x) ->
  forall acc, view (fold_left f l acc) = view acc ++ flat_map g l.
Proof.
  intros Hf. induction l as [|x l IH]; intros acc; cbn [fold_left flat_map].
  - now rewrite app_nil_r.
  - now rewrite IH, Hf, app_assoc.
Qed.

Lemma forEachR_append {A B} (view : B -> list string)
    (body : A -> B -> Result B) (g : A -> list string) (l : list A) :
  (forall x a a', body x a = Ok a' -> view a' = view a ++ g x) ->
  forall acc res,
    forEachR l body acc = Ok res -> view res = view acc ++ flat_map g l.
Proof.
  intros Hb. induction l as [|x l IH]; intros acc res H;
    cbn [forEachR flat_map] in *.
  - injection H as <-. now rewrite app_nil_r.
  - destruct (body x acc) as [a'|e] eqn:E; [|discriminate].
    cbn [bindR] in H. now rewrite (IH _ _ H), (Hb _ _ _ E), app_assoc.
Qed.

Lemma collectSuffix_pushes fn config c p targets mapping k acc t :
  default [] (Obj.get t (snd (fst
    (collectSuffix fn config c p (setFrom targets) mapping k acc))))
  = default [] (Obj.get t (snd (fst acc)))
    ++ pushedTo t (suffixPush fn config c p targets mapping k).
Proof.
  destruct acc as [[g tt] files]. unfold collectSuffix, suffixPush.
  rewrite setHas_setFrom.
  destruct (Obj.get k mapping) as [sfi|];
    [|cbn [fst snd pushedTo List.filter map]; now rewrite app_nil_r].
  destruct (setHas (makeFileName p k) targets); cbn [negb fst snd].
  - rewrite lists_pushTo. unfold pushedTo. cbn [List.filter fst].
    destruct (String.eqb _ t); reflexivity.
  - cbn [pushedTo List.filter map]. now rewrite app_nil_r.
Qed.

Lemma suffixPush_nil fn config c p mapping k :
  suffixPush fn config c p [] mapping k = [].
Proof. unfold suffixPush. destruct (Obj.get k mapping); reflexivity. Qed.

Lemma collectSource_pushes pe buildPlans mapping config fn c p acc acc' t :
  collectSource pe buildPlans mapping config fn c p acc = Ok acc' ->
  default [] (Obj.get t (snd (fst acc')))
  = default [] (Obj.get t (snd (fst acc)))
    ++ pushedTo t (sourcePushes fn config buildPlans mapping c p).
Proof.
  intros H. unfold sourcePushes. rewrite pushedTo_flat_map.
  apply CollectFacts.collectSource_inv in H as [(gri & G & ->)|(G & _ & ->)];
    rewrite G.
  - apply (fold_left_append
             (fun a : CollectAcc => default [] (Obj.get t (snd (fst a))))).
    intros a k. apply collectSuffix_pushes.
  - assert (E : forall l : list string,
               flat_map (fun x => pushedTo t (suffixPush fn config c p []
                                                 mapping x)) l = []).
    { induction l as [|x l IH]; [reflexivity|].
      cbn [flat_map]. now rewrite suffixPush_nil, IH. }
    now rewrite E, app_nil_r.
Qed.

Lemma collectGroup_pushes pe buildPlans raw mapping config fn c cp cp' t :
  collectGroup pe buildPlans raw mapping config fn c cp = Ok cp' ->
  default [] (Obj.get t (CollectPlansResult.ttcComposition cp'))
  = default [] (Obj.get t (CollectPlansResult.ttcComposition cp))
    ++ pushedTo t (groupPushes fn config buildPlans raw mapping c).
Proof.
  intros H. unfold collectGroup in H. unfold groupPushes, groupSources.
  destruct (Obj.get c raw) as [[[[|p ps]|]]|];
    try (injection H as <-; cbn [from_option Datatypes.id flat_map pushedTo
                                   List.filter map];
         now rewrite app_nil_r).
  destruct (forEachR (p :: ps) _ _) as [[[g tt] files]|e] eqn:E;
    [|discriminate].
  cbn [bindR] in H. injection H as <-.
  cbn [CollectPlansResult.ttcComposition from_option Datatypes.id].
  rewrite pushedTo_flat_map.
  apply (forEachR_append
           (fun a : CollectAcc => default [] (Obj.get t (snd (fst a))))
           _ _ _ (fun q a a' Hq =>
                    collectSource_pushes pe buildPlans mapping config fn c q
                                         a a' t Hq) _ _ E).
Qed.

Lemma getCollectPlans_pushes pe buildPlans raw mapping config fn cp t :
  getCollectPlans pe buildPlans raw mapping config fn = Ok cp ->
  default [] (Obj.get t (CollectPlansResult.ttcComposition cp))
  = pushedTo t (ttcPushes fn config buildPlans raw mapping).
Proof.
  intros H. unfold getCollectPlans in H. unfold ttcPushes.
  rewrite pushedTo_flat_map.
  apply (forEachR_append
           (fun a : CollectPlansResult.t =>
              default [] (Obj.get t (CollectPlansResult.ttcComposition a)))
           _ _ _ (fun c a a' Hc =>
                    collectGroup_pushes pe buildPlans raw mapping config fn c
                                        a a' t Hc) _ _ H).
Qed.

End PushFacts.

(** C7, as the code has it.  The planner only pushes: the ttcComposition
    list of a container is, entry by entry and in the order of the loops,
    the intermediate container of every visit of a collection, an entry
    of its from-list and a suffix of the standard mapping for which the
    source plan has the target, and which names that container; a name
    stands in the list once for every such visit.  [ExportTtcFile]
    builds from the ttcComposition list of its file with the duplicates
    removed by exact equality: its constituents have no two equal
    entries, are the members of the list, and stand in the order of their
    first insertion (an entry comes right after the distinct entries that
    precede its first occurrence).  [glyfTtc] builds from the
    glyfTtcComposition list as the planner left it; that list holds no
    two equal pairs when no from-list names a plan twice. *)
Theorem ttc_parts_deduplicated :
  (forall cp f,
     let list := default [] (Obj.get f (CollectPlansResult.ttcComposition cp)) in
     List.NoDup (ExportTtcFile_parts cp f)
     /\ (forall x, In x (ExportTtcFile_parts cp f) <-> In x list)
     /\ (forall l1 x l2,
           list = l1 ++ x :: l2 -> ~ In x l1 ->
           exists before tail,
             ExportTtcFile_parts cp f = before ++ x :: tail
             /\ List.NoDup before /\ forall y, In y before <-> In y l1)
     /\ glyfTtc_parts cp f
          = Obj.get f (CollectPlansResult.glyfTtcComposition cp))
  /\ (forall privateExists buildPlans rawCollectPlans suffixMapping config cp,
        Obj.wf rawCollectPlans -> Obj.wf suffixMapping ->
        (forall c from,
           Obj.get c rawCollectPlans = Some (Collect.mk (Some from)) ->
           List.NoDup from) ->
        getCollectPlans privateExists buildPlans rawCollectPlans suffixMapping
                        config fnStandardTtc = Ok cp ->
        forall f parts, glyfTtc_parts cp f = Some parts -> List.NoDup parts)
  /\ (forall privateExists buildPlans rawCollectPlans suffixMapping config
             fnFileName cp,
        getCollectPlans privateExists buildPlans rawCollectPlans suffixMapping
                        config fnFileName = Ok cp ->
        forall f,
          default [] (Obj.get f (CollectPlansResult.ttcComposition cp))
          = pushedTo f (ttcPushes fnFileName config buildPlans
                                  rawCollectPlans suffixMapping)).
Proof.
  split; [|split].
  - intros cp f list. unfold ExportTtcFile_parts. fold list.
    split; [apply CollectFacts.NoDup_setFrom|].
    split; [intros x; apply CollectFacts.In_setFrom|].
    split; [|reflexivity].
    intros l1 x l2 -> NI.
    destruct (CollectFacts.setFrom_first l1 l2 x NI) as (tail & E).
    exists (setFrom l1), tail. split; [exact E|].
    split; [apply CollectFacts.NoDup_setFrom|].
    intros y. apply CollectFacts.In_setFrom.
  - intros privateExists buildPlans rawCollectPlans suffixMapping config cp
           WFr WFm Hfrom H f parts Hparts.
    eapply (DistinctFacts.getCollectPlans_distinct fnStandardTtc);
      [exact DistinctFacts.fnStandardTtc_prefix | exact WFr | exact WFm
       | exact Hfrom | exact H | exact Hparts].
  - intros privateExists buildPlans rawCollectPlans suffixMapping config
           fnFileName cp H f.
    now apply (PushFacts.getCollectPlans_pushes privateExists).
Qed.

Lemma ttc_parts_deduplicated_witness :
  (exists cp,
     sparseCollectPlans = Ok cp
     /\ Obj.get "c-regular" (CollectPlansResult.ttcComposition cp)
          = Some ["c-regular"; "c-regular"; "c-regular"]
     /\ List.NoDup (ExportTtcFile_parts cp "c-regular")
     /\ exists before tail,
          ExportTtcFile_parts cp "c-regular" = before ++ "c-regular" :: tail
          /\ List.NoDup before /\ forall y, In y before <-> In y [])
  /\ (exists cp,
        getCollectPlans true sparseBuildPlans
                        [("c", Collect.mk (Some ["a"; "b"]))]
                        sparseStandardSuffixes standardCollectConfig
                        fnStandardTtc = Ok cp
        /\ forall f parts, glyfTtc_parts cp f = Some parts -> List.NoDup parts)
  /\ (exists cp,
        sparseCollectPlans = Ok cp
        /\ pushedTo "d-regular"
             (ttcPushes fnStandardTtc (Raw.collectConfig sparsePlans)
                        sparseBuildPlans (Raw.collectPlans sparsePlans)
                        sparseStandardSuffixes)
           = ["d-regular"; "d-regular"; "d-regular"; "d-regular"]
        /\ default [] (Obj.get "d-regular"
                               (CollectPlansResult.ttcComposition cp))
           = ["d-regular"; "d-regular"; "d-regular"; "d-regular"]).
Proof.
  split; [|split].
  - eexists. split; [vm_compute; reflexivity|].
    split; [reflexivity|].
    match goal with
    | |- List.NoDup (ExportTtcFile_parts ?cp ?f) /\ _ =>
        destruct (proj1 ttc_parts_deduplicated cp f) as (ND & _ & Hfirst & _)
    end.
    split; [exact ND|].
    apply (Hfirst [] "c-regular" ["c-regular"; "c-regular"]);
      [reflexivity | intros []].
  - eexists. split; [vm_compute; reflexivity|].
    eapply (proj1 (proj2 ttc_parts_deduplicated) true sparseBuildPlans
              [("c", Collect.mk (Some ["a"; "b"]))] sparseStandardSuffixes
              standardCollectConfig).
    + repeat constructor. intros [].
    + vm_compute. repeat constructor; cbn; intuition discriminate.
    + intros c from Hc. cbn [Obj.get] in Hc.
      destruct (String.eqb "c" c); [|discriminate Hc].
      injection Hc as <-. repeat constructor; cbn; intuition discriminate.
    + vm_compute. reflexivity.
  - pose (x := sparseCollectPlans).
    assert (E : sparseCollectPlans = x) by reflexivity.
    vm_compute in x.
    eexists. split; [exact E|]. split; [vm_compute; reflexivity|].
    rewrite (proj2 (proj2 ttc_parts_deduplicated) true sparseBuildPlans
               (Raw.collectPlans sparsePlans) sparseStandardSuffixes
               (Raw.collectConfig sparsePlans) fnStandardTtc _ E "d-regular").
    vm_compute. reflexivity.
Defined.

(** C7, as stated, fails: the plans that [getCollectPlans] returns for
    [sparsePlans] hold the same container name three times in one
    ttcComposition list (once per contributing source and suffix), and
    the same pair twice in a glyfTtcComposition list, which [glyfTtc]
    reads as it is. *)
Lemma composition_lists_repeat :
  exists cp,
    sparseCollectPlans = Ok cp
    /\ Obj.get "c-regular" (CollectPlansResult.ttcComposition cp)
         = Some ["c-regular"; "c-regular"; "c-regular"]
    /\ ~ List.NoDup ["c-regular"; "c-regular"; "c-regular"]
    /\ glyfTtc_parts cp "d-regular"
         = Some [ {| GlyfPart.dir := "a"; GlyfPart.file := "a-regular" |};
                  {| GlyfPart.dir := "a"; GlyfPart.file := "a-italic" |};
                  {| GlyfPart.dir := "a"; GlyfPart.file := "a-regular" |};
                  {| GlyfPart.dir := "a"; GlyfPart.file := "a-italic" |} ]
    /\ ~ List.NoDup
           [ {| GlyfPart.dir := "a"; GlyfPart.file := "a-regular" |};
             {| GlyfPart.dir := "a"; GlyfPart.file := "a-italic" |};
             {| GlyfPart.dir := "a"; GlyfPart.file := "a-regular" |};
             {| GlyfPart.dir := "a"; GlyfPart.file := "a-italic" |} ].
Proof.
  eexists. split; [vm_compute; reflexivity|].
  split; [reflexivity|].
  split; [intros ND; apply NoDup_cons_iff in ND as [NI _]; apply NI; now left|].
  split; [reflexivity|].
  intros ND. apply NoDup_cons_iff in ND as [NI _]. apply NI.
  right. now left.
Qed.

(** ** Computations that only print *)

Module PrintFacts.

Lemma state_eta (st : State) :
  {| g_widthFixupMemory := g_widthFixupMemory st;
     console := console st ++ [] |} = st.
Proof. destruct st. cbn. now rewrite app_nil_r. Qed.

Lemma prints_ret {A} (a : A) : prints (ret a) (Ok a) [].
Proof. intros st. unfold ret. now rewrite state_eta. Qed.

Lemma prints_throw {A} (e : exn) : prints (@throw A e) (Throw e) [].
Proof. intros st. unfold throw. now rewrite state_eta. Qed.

Lemma prints_warn (msg : string) : prints (echo_warn msg) (Ok tt) [msg].
Proof. intros st. reflexivity. Qed.

Lemma prints_bind_ok {A B} (m : M A) (k : A -> M B) a l1 r l2 :
  prints m (Ok a) l1 -> prints (k a) r l2 -> prints (bind m k) r (l1 ++ l2).
Proof.
  intros Hm Hk st. unfold bind. rewrite Hm, Hk. cbn.
  now rewrite app_assoc.
Qed.

Lemma prints_bind_throw {A B} (m : M A) (k : A -> M B) e l :
  prints m (Throw e) l -> prints (bind m k) (Throw e) l.
Proof. intros Hm st. unfold bind. now rewrite Hm. Qed.

Lemma prints_unique {A} (m : M A) r1 l1 r2 l2 :
  prints m r1 l1 -> prints m r2 l2 -> r1 = r2 /\ l1 = l2.
Proof.
  intros H1 H2. pose proof (H1 initialState) as E1.
  rewrite (H2 initialState) in E1. cbn in E1. now inversion E1.
Qed.


Lemma printsOnly_ret {A} (a : A) : printsOnly (ret a).
Proof. eexists; eexists; apply prints_ret. Qed.

Lemma printsOnly_throw {A} (e : exn) : printsOnly (@throw A e).
Proof. eexists; eexists; apply prints_throw. Qed.

Lemma printsOnly_bind {A B} (m : M A) (k : A -> M B) :
  printsOnly m -> (forall a, printsOnly (k a)) -> printsOnly (bind m k).
Proof.
  intros ([a|e] & l1 & Hm) Hk.
  - destruct (Hk a) as (r & l2 & Ha).
    eexists; eexists; eapply prints_bind_ok; eauto.
  - eexists; eexists; eapply prints_bind_throw; eauto.
Qed.

Lemma printsOnly_forEach {A B} (l : list A) (body : A -> B -> M B) :
  (forall x acc, printsOnly (body x acc)) ->
  forall acc, printsOnly (forEach l body acc).
Proof.
  intros Hb. induction l as [|x r IH]; intros acc; cbn [forEach].
  - apply printsOnly_ret.
  - apply printsOnly_bind; [apply Hb | exact IH].
Qed.

Lemma printsOnly_nValidate key v vl :
  fixup vl = None -> printsOnly (nValidate key v vl).
Proof.
  intros F. destruct (accepted vl v) as [n|] eqn:E.
  - exists (Ok n), []. intros st.
    rewrite ItemFacts.nValidate_plain, E, state_eta by exact F. reflexivity.
  - eexists (Throw _), []. intros st.
    rewrite ItemFacts.nValidate_plain, E, state_eta by exact F. reflexivity.
Qed.

Lemma printsOnly_validateRecommendedWeight w value label :
  exists log, prints (validateRecommendedWeight w value label) (Ok tt) log.
Proof.
  unfold validateRecommendedWeight.
  destruct (Obj.read w RecommendedMenuWeights);
    [destruct (_ && _)| |]; eexists;
    first [apply prints_warn | apply prints_ret].
Qed.

Lemma printsOnly_entryOf {A} (o : option (Obj.t A)) k : printsOnly (entryOf o k).
Proof.
  unfold entryOf. destruct o as [t|]; [destruct (Obj.get k t)|];
    first [apply printsOnly_ret | apply printsOnly_throw].
Qed.

Lemma printsOnly_valueOf o k : printsOnly (valueOf o k).
Proof.
  unfold valueOf. destruct o; first [apply printsOnly_ret | apply printsOnly_throw].
Qed.

Lemma printsOnly_item weights w slopes s widths wd :
  printsOnly (getSuffixMappingItem weights w slopes s widths wd).
Proof.
  unfold getSuffixMappingItem.
  repeat first
    [ apply printsOnly_ret
    | apply printsOnly_entryOf
    | apply printsOnly_valueOf
    | apply printsOnly_nValidate; reflexivity
    | apply printsOnly_bind; [|intros ?] ].
Qed.

Lemma printsOnly_getSuffixMapping weights slopes widths :
  printsOnly (getSuffixMapping weights slopes widths).
Proof.
  unfold getSuffixMapping. apply printsOnly_forEach. intros w acc.
  apply printsOnly_bind; [apply printsOnly_entryOf | intros we].
  apply printsOnly_bind;
    [destruct (printsOnly_validateRecommendedWeight w (AxisEntry.menu we) "Menu");
     eexists; eauto | intros _].
  apply printsOnly_bind;
    [destruct (printsOnly_validateRecommendedWeight w (AxisEntry.css we) "CSS");
     eexists; eauto | intros _].
  apply printsOnly_forEach. intros s acc1.
  apply printsOnly_forEach. intros wd acc2.
  apply printsOnly_bind; [apply printsOnly_item | intros item].
  apply printsOnly_ret.
Qed.

Lemma printsOnly_shim prefix bp dWeights dSlopes dWidths :
  printsOnly (validateAndShimBuildPlans prefix bp dWeights dSlopes dWidths).
Proof.
  unfold validateAndShimBuildPlans.
  apply printsOnly_bind.
  - destruct (negb _); [apply printsOnly_throw | apply printsOnly_ret].
  - intros _. apply printsOnly_bind; [|intros _; apply printsOnly_ret].
    destruct (Plan.slopes bp), (Plan.slants bp);
      first [apply printsOnly_ret | eexists; eexists; apply prints_warn].
Qed.

Lemma printsOnly_body rp prefix acc : printsOnly (BuildPlans_body rp prefix acc).
Proof.
  unfold BuildPlans_body. destruct acc as [plans idx].
  apply printsOnly_bind; [apply printsOnly_shim | intros bp].
  apply printsOnly_bind; [apply printsOnly_getSuffixMapping | intros mapping].
  destruct (fold_left _ _ _). apply printsOnly_ret.
Qed.

Lemma printsOnly_BuildPlans rp : printsOnly (BuildPlans rp).
Proof.
  unfold BuildPlans. apply printsOnly_bind; [|intros r; apply printsOnly_ret].
  apply printsOnly_forEach. intros x acc. apply printsOnly_body.
Qed.

Lemma printsOnly_FontInfoOf privateExists plans version fileName :
  printsOnly (FontInfoOf privateExists plans version fileName).
Proof.
  unfold FontInfoOf.
  destruct (Obj.read fileName _) as [fi0| |];
    cbv zeta; try apply printsOnly_throw;
    (destruct (Obj.read _ (BuildPlansResult.buildPlans plans)) as [bp| |];
     try apply printsOnly_throw;
     (apply printsOnly_bind;
      [apply printsOnly_getSuffixMapping | intros mapping];
      destruct (Obj.read _ mapping);
      first [apply printsOnly_ret | apply printsOnly_throw])).
Qed.

End PrintFacts.

(** ** The suffix mapping as a whole *)

Module MappingFacts.

Lemma forEach_inv {A B} (P : B -> Prop) (l : list A) (body : A -> B -> M B) :
  (forall x a a' st st', In x l -> P a -> body x a st = (Ok a', st') -> P a') ->
  forall acc st res st',
    P acc -> forEach l body acc st = (Ok res, st') -> P res.
Proof.
  intros Hb acc st res st' Hacc H.
  eapply (IndexFacts.forEach_pos (fun _ a => P a) l body); [|exact Hacc | exact H].
  intros done x rest a a' st0 st1 El Pa E. eapply Hb; eauto.
  rewrite El. apply in_app_iff. right. now left.
Qed.

Lemma range_and (a b x : Z) :
  (a <=? x) && (x <=? b) = true -> a <= x <= b.
Proof. intros H. apply andb_true_iff in H as [H1 H2]. lia. Qed.

Lemma range_strict (a b x : Z) :
  (a <? x) && (x <? b) = true -> a < x < b.
Proof. intros H. apply andb_true_iff in H as [H1 H2]. lia. Qed.

(** An item that is returned for own keys. *)
Lemma item_resolved ws w ss s wds wd st item st' :
  In w (Obj.keys ws) -> In s (Obj.keys ss) -> In wd (Obj.keys wds) ->
  getSuffixMappingItem (Some ws) w (Some ss) s (Some wds) wd st = (Ok item, st') ->
  resolvedItem ws ss wds (makeSuffix w wd s DEFAULT_SUBFAMILY) item.
Proof.
  intros Hw Hs Hwd H.
  destruct (ItemFacts.In_keys_get ws w Hw) as (we & Gw).
  destruct (ItemFacts.In_keys_get wds wd Hwd) as (wde & Gwd).
  rewrite (ItemFacts.item_run ws w we ss s wds wd wde st Gw Gwd) in H.
  destruct (accepted VlShapeWeight _) as [n1|] eqn:A1; [|discriminate].
  destruct (accepted VlCssWeight _) as [n2|] eqn:A2; [|discriminate].
  destruct (accepted VlMenuWeight _) as [n3|] eqn:A3; [|discriminate].
  destruct (accepted VlShapeWidth _) as [n4|] eqn:A4; [|discriminate].
  destruct (accepted VlMenuWidth _) as [n5|] eqn:A5; [|discriminate].
  injection H as <- <-.
  apply ItemFacts.accepted_inv in A1 as [E1 V1], A2 as [E2 V2],
    A3 as [E3 V3], A4 as [E4 V4], A5 as [E5 V5].
  cbn [validate VlShapeWeight VlCssWeight VlMenuWeight VlShapeWidth VlMenuWidth]
    in V1, V2, V3, V4, V5.
  apply andb_true_iff in V5 as [V5 _].
  exists we, wde. cbn [SuffixItem.weight SuffixItem.width SuffixItem.slope
    SuffixItem.shapeWeight SuffixItem.cssWeight SuffixItem.menuWeight
    SuffixItem.shapeWidth SuffixItem.menuWidth].
  repeat (split; [first [assumption | reflexivity | now apply range_and
                        | now apply range_strict]|]).
  now apply range_and.
Qed.

(** The mapping that [getSuffixMapping] builds: the invariant of its three
    loops. *)
Lemma mapping_resolved ws ss wds st mapping st' :
  getSuffixMapping (Some ws) (Some ss) (Some wds) st = (Ok mapping, st') ->
  Obj.wf mapping
  /\ forall suffix item,
       Obj.get suffix mapping = Some item -> resolvedItem ws ss wds suffix item.
Proof.
  intros H. unfold getSuffixMapping in H.
  pose (P := fun m : Obj.t SuffixItem.t =>
               Obj.wf m
               /\ forall suffix item,
                    Obj.get suffix m = Some item ->
                    resolvedItem ws ss wds suffix item).
  change (P mapping).
  eapply (forEach_inv P); [| |exact H].
  - intros w a a' st0 st1 Hw Pa Hbody. cbn [ownKeys] in Hw.
    unfold bind at 1 in Hbody.
    destruct (entryOf (Some ws) w st0) as [[we|e] st2]; [|discriminate].
    unfold bind at 1 in Hbody.
    destruct (validateRecommendedWeight w (AxisEntry.menu we) "Menu" st2)
      as [[[]|e] st3]; [|discriminate].
    unfold bind at 1 in Hbody.
    destruct (validateRecommendedWeight w (AxisEntry.css we) "CSS" st3)
      as [[[]|e] st4]; [|discriminate].
    eapply (forEach_inv P); [| exact Pa | exact Hbody].
    intros s b b' st5 st6 Hs Pb Hs_body. cbn [ownKeys] in Hs.
    eapply (forEach_inv P); [| exact Pb | exact Hs_body].
    intros wd c c' st7 st8 Hwd [WFc Pc] Hwd_body. cbn [ownKeys] in Hwd.
    unfold bind in Hwd_body.
    destruct (getSuffixMappingItem _ _ _ _ _ _ st7) as [[item|e] st9] eqn:E;
      [|discriminate].
    unfold ret in Hwd_body. injection Hwd_body as <- <-.
    split; [now apply ObjFacts.wf_set|].
    intros suffix item0 G. rewrite ObjFacts.get_set in G.
    destruct (String.eqb_spec (makeSuffix w wd s DEFAULT_SUBFAMILY) suffix)
      as [<-|N].
    + injection G as <-. eapply item_resolved; eauto.
    + now apply Pc.
  - split; [constructor | intros suffix item G; discriminate].
Qed.

(** A table that is missing yields no entry. *)
Lemma mapping_of_options weights slopes widths st mapping st' suffix item :
  getSuffixMapping weights slopes widths st = (Ok mapping, st') ->
  Obj.get suffix mapping = Some item ->
  exists ws ss wds,
    weights = Some ws /\ slopes = Some ss /\ widths = Some wds.
Proof.
  intros H G.
  assert (E : (exists ws ss wds,
                 weights = Some ws /\ slopes = Some ss /\ widths = Some wds)
              \/ mapping = []).
  { destruct weights as [ws|]; [|right; cbn in H; unfold ret in H; congruence].
    destruct slopes as [ss|]; [destruct widths as [wds|]|].
    - left. exists ws, ss, wds. auto.
    - right. unfold getSuffixMapping in H.
      eapply (forEach_inv (fun m => m = [])); [| reflexivity | exact H].
      intros w a a' st0 st1 _ -> Hb.
      unfold bind at 1 in Hb.
      destruct (entryOf (Some ws) w st0) as [[we|e] st2]; [|discriminate].
      unfold bind at 1 in Hb.
      destruct (validateRecommendedWeight _ _ _ st2) as [[[]|e] st3];
        [|discriminate].
      unfold bind at 1 in Hb.
      destruct (validateRecommendedWeight _ _ _ st3) as [[[]|e] st4];
        [|discriminate].
      eapply (forEach_inv (fun m => m = [])); [| reflexivity | exact Hb].
      intros s b b' st5 st6 _ -> Hs. cbn in Hs. unfold ret in Hs. congruence.
    - right. unfold getSuffixMapping in H.
      eapply (forEach_inv (fun m => m = [])); [| reflexivity | exact H].
      intros w a a' st0 st1 _ -> Hb.
      unfold bind at 1 in Hb.
      destruct (entryOf (Some ws) w st0) as [[we|e] st2]; [|discriminate].
      unfold bind at 1 in Hb.
      destruct (validateRecommendedWeight _ _ _ st2) as [[[]|e] st3];
        [|discriminate].
      unfold bind at 1 in Hb.
      destruct (validateRecommendedWeight _ _ _ st3) as [[[]|e] st4];
        [|discriminate].
      cbn in Hb. unfold ret in Hb. congruence. }
  destruct E as [E| ->]; [exact E | discriminate].
Qed.

End MappingFacts.

(** ** Keys of the suffix mapping *)

Module CoverFacts.




Lemma forEach_const {A B} (l : list A) (body : A -> B -> M B) (acc : B) :
  (forall x st, In x l -> exists st', body x acc st = (Ok acc, st')) ->
  forall st, exists st', forEach l body acc st = (Ok acc, st').
Proof.
  induction l as [|x l IH]; intros Hb st.
  - eexists. reflexivity.
  - cbn [forEach]. unfold bind.
    destruct (Hb x st (or_introl eq_refl)) as (st1 & ->).
    apply IH. intros y st0 Hy. apply Hb. now right.
Qed.

(** A table without own keys: the mapping is empty and nothing is checked. *)
Lemma mapping_empty weights slopes widths :
  ownKeys weights = [] \/ ownKeys slopes = [] \/ ownKeys widths = [] ->
  forall st, exists st',
    getSuffixMapping weights slopes widths st = (Ok [], st').
Proof.
  intros Hempty st. unfold getSuffixMapping.
  apply forEach_const. intros w st0 Hw.
  destruct Hempty as [E|E]; [rewrite E in Hw; destruct Hw|].
  assert (exists we, entryOf weights w st0 = (Ok we, st0)) as (we & Ew).
  { destruct weights as [ws|]; [|destruct Hw]. cbn [ownKeys] in Hw.
    destruct (ItemFacts.In_keys_get ws w Hw) as (we & G).
    exists we. unfold entryOf. now rewrite G. }
  unfold bind at 1. rewrite Ew.
  unfold bind at 1.
  destruct (ItemFacts.validateRecommendedWeight_ok w (AxisEntry.menu we)
              "Menu" st0) as (st1 & -> & _).
  unfold bind at 1.
  destruct (ItemFacts.validateRecommendedWeight_ok w (AxisEntry.css we)
              "CSS" st1) as (st2 & -> & _).
  destruct E as [E|E]; rewrite E.
  - eexists. reflexivity.
  - apply forEach_const. intros s st3 _. eexists. reflexivity.
Qed.

End CoverFacts.

(** ** The targets of an expanded plan *)

Module TargetFacts.

Lemma shim_inv prefix bp dWeights dSlopes dWidths st bp1 st1 :
  validateAndShimBuildPlans prefix bp dWeights dSlopes dWidths st
    = (Ok bp1, st1) ->
  truthy (Plan.family bp) = true
  /\ bp1 = {| Plan.family := Plan.family bp;
              Plan.weights := orObj (Plan.weights bp) dWeights;
              Plan.slopes :=
                orObj (orObj (Plan.slopes bp) (Plan.slants bp)) dSlopes;
              Plan.slants := Plan.slants bp;
              Plan.widths := orObj (Plan.widths bp) dWidths;
              Plan.targets := Plan.targets bp |}.
Proof.
  unfold validateAndShimBuildPlans. intros H.
  destruct (truthy (Plan.family bp)); cbn [negb] in H.
  - split; [reflexivity|].
    destruct (Plan.slopes bp), (Plan.slants bp);
      unfold bind, ret, echo_warn in H; cbn in H; inversion H; reflexivity.
  - discriminate.
Qed.





Lemma BuildPlans_inv rp st r st' :
  BuildPlans rp st = (Ok r, st') ->
  forEach (Obj.keys (Raw.buildPlans rp)) (BuildPlans_body rp) ([], []) st
    = (Ok (BuildPlansResult.buildPlans r,
           BuildPlansResult.fileNameToBpMap r), st').
Proof.
  unfold BuildPlans, bind. intros H.
  destruct (forEach _ _ _ st) as [[[pl ix]|e] st1]; [|discriminate].
  unfold ret in H. injection H as <- <-. reflexivity.
Qed.




End TargetFacts.

(** ** Font records *)

Module FontFacts.

(** Every key of the reverse index is a target of a plan. *)
Lemma body_traced rp q done plans idx plans' idx' st st' :
  ~ In q done ->
  (forall p, In p (Obj.keys plans) -> In p done) ->
  (forall name, Obj.get name idx <> None ->
     exists p bp, Obj.get p plans = Some bp /\ In name (Plan.targets bp)) ->
  BuildPlans_body rp q (plans, idx) st = (Ok (plans', idx'), st') ->
  (forall p, In p (Obj.keys plans') -> In p (done ++ [q]))
  /\ (forall name, Obj.get name idx' <> None ->
        exists p bp, Obj.get p plans' = Some bp /\ In name (Plan.targets bp)).
Proof.
  intros Hq K T H. unfold BuildPlans_body in H.
  unfold bind at 1 in H.
  destruct (validateAndShimBuildPlans _ _ _ _ _ _) as [[bp|e] st2];
    [|discriminate].
  unfold bind at 1 in H.
  destruct (getSuffixMapping _ _ _ _) as [[mapping|e] st3]; [|discriminate].
  destruct (fold_left _ _ _) as [ts idx1] eqn:F.
  unfold ret in H. injection H as <- <- <-.
  destruct (IndexFacts.recordTargets_spec q bp mapping _ _ _ _ _ F) as [_ Sb];
    [intros name []|].
  split.
  { intros p Hp. apply ObjFacts.In_keys_set in Hp as [->|Hp];
      apply in_app_iff; [right; now left | left; auto]. }
  intros name Hn. destruct (Sb name) as [Eq|[Hts _]].
  - rewrite Eq in Hn. destruct (T name Hn) as (p & bp0 & G & Hin).
    exists p, bp0. split; [|exact Hin].
    rewrite ObjFacts.get_set_ne; [exact G|].
    intros ->. apply Hq, K. eapply ObjFacts.get_In_keys, G.
  - eexists q, _. split; [apply ObjFacts.get_set_eq | exact Hts].
Qed.

Lemma loop_traced rp (l : list string) plans idx st st' :
  List.NoDup l ->
  forEach l (BuildPlans_body rp) ([], []) st = (Ok (plans, idx), st') ->
  forall name, Obj.get name idx <> None ->
    exists p bp, Obj.get p plans = Some bp /\ In name (Plan.targets bp).
Proof.
  intros ND H.
  pose (P := fun (done : list string) (a : Obj.t Plan.t * Obj.t Index.t) =>
    (forall p, In p (Obj.keys (fst a)) -> In p done)
    /\ (forall name, Obj.get name (snd a) <> None ->
          exists p bp,
            Obj.get p (fst a) = Some bp /\ In name (Plan.targets bp))).
  assert (G : P l (plans, idx)); [|exact (proj2 G)].
  eapply (IndexFacts.forEach_pos P l (BuildPlans_body rp)); [| |exact H].
  - intros done q rest [plans0 idx0] [plans1 idx1] st0 st1 El [K T] E.
    eapply body_traced; [|exact K | exact T | exact E].
    eapply ObjFacts.NoDup_split_notin. rewrite <- El. exact ND.
  - split; [intros p [] | intros name Hn; now destruct Hn].
Qed.


End FontFacts.

(** ** Containers, super containers and archives *)

Module ArchiveFacts.

Lemma setFrom_NoDup (l : list string) : List.NoDup l -> setFrom l = l.
Proof.
  unfold setFrom.
  assert (G : forall l acc, List.NoDup (acc ++ l) ->
                fold_left (fun a x => setAdd x a) l acc = acc ++ l).
  { clear l. induction l as [|x l IH]; intros acc ND; cbn [fold_left].
    - now rewrite app_nil_r.
    - assert (Hx : setHas x acc = false).
      { destruct (setHas x acc) eqn:E; [|reflexivity].
        apply CollectFacts.setHas_In in E.
        apply List.NoDup_remove_2 in ND. exfalso. apply ND.
        apply in_app_iff. now left. }
      unfold setAdd. rewrite Hx.
      rewrite IH; rewrite <- app_assoc; [reflexivity | exact ND]. }
  intros ND. apply (G l []). exact ND.
Qed.

Lemma NoDup_single (l : list string) (f : string) :
  List.NoDup l -> (forall g, In g l -> g = f) -> l <> [] -> l = [f].
Proof.
  intros ND Hall Hne. destruct l as [|a r]; [congruence|].
  assert (a = f) as -> by (apply Hall; now left).
  destruct r as [|b r]; [reflexivity|].
  assert (b = f) as -> by (apply Hall; right; now left).
  apply List.NoDup_cons_iff in ND as [ND _]. exfalso. apply ND. now left.
Qed.

Lemma setFrom_single (l : list string) (f : string) :
  (forall g, In g l -> g = f) -> l <> [] -> setFrom l = [f].
Proof.
  intros Hall Hne. apply NoDup_single.
  - apply CollectFacts.NoDup_setFrom.
  - intros g Hg. rewrite CollectFacts.In_setFrom in Hg. auto.
  - destruct l as [|a r]; [congruence|]. intros E.
    assert (H : In a (setFrom (a :: r)))
      by (rewrite CollectFacts.In_setFrom; now left).
    rewrite E in H. destruct H.
Qed.

Lemma collectSuffix_listed kept fn config c p set mapping k acc :
  listed kept acc ->
  listed kept (collectSuffix fn config c p set mapping k acc).
Proof.
  destruct acc as [[g t] files]. intros (N & K & ND).
  unfold collectSuffix. destruct (Obj.get k mapping) as [sfi|]; [|now split].
  destruct (negb (setHas _ set)); [now split|].
  cbn [fst snd] in *. split; [|split]; cbn [fst snd].
  - intros name glyfs G. rewrite CollectFacts.get_pushTo in G.
    destruct (String.eqb _ name); [|eauto].
    injection G as <-. intros E. apply app_eq_nil in E as [_ E].
    discriminate.
  - intros f Hf. rewrite CollectFacts.get_pushTo.
    destruct (String.eqb_spec
                (fn config c (SuffixItem.weight sfi) (SuffixItem.width sfi)
                    (SuffixItem.slope sfi)) f) as [E|E]; [discriminate|].
    apply K. destruct Hf as [Hf|Hf]; [now left|].
    apply CollectFacts.In_setAdd in Hf as [->|Hf]; [contradiction | now right].
  - now apply CollectFacts.NoDup_setAdd.
Qed.

Lemma collectSource_listed kept pe buildPlans mapping config fn c p acc acc' :
  listed kept acc ->
  collectSource pe buildPlans mapping config fn c p acc = Ok acc' ->
  listed kept acc'.
Proof.
  intros L H. unfold collectSource in H.
  destruct (BuildPlanOf pe buildPlans p) as [gri|e]; [|discriminate].
  cbn [bindR] in H. injection H as <-.
  apply CollectFacts.fold_left_inv; [|exact L].
  intros k a _ La. now apply collectSuffix_listed.
Qed.

Lemma collectGroup_catalogued pe buildPlans raw mapping config fn c cp cp' :
  catalogued cp ->
  collectGroup pe buildPlans raw mapping config fn c cp = Ok cp' ->
  catalogued cp'.
Proof.
  intros [N C] H. unfold collectGroup in H.
  destruct (Obj.get c raw) as [[[[|p ps]|]]|];
    try (injection H as <-; now split).
  destruct (forEachR (p :: ps) _ _) as [[[g t] files]|e] eqn:E;
    [|discriminate].
  cbn [bindR] in H. injection H as <-.
  pose (kept := fun f : string =>
          exists c' files',
            Obj.get c' (CollectPlansResult.ttcContents cp) = Some files'
            /\ In f files').
  assert (L : listed kept (g, t, files)).
  { eapply (CollectFacts.forEachR_inv (listed kept)); [| |exact E].
    - intros q a a' _ La Hq. eapply collectSource_listed; eauto.
    - split; [exact N|]. split; [|constructor].
      cbn [fst snd]. intros f [(c' & files' & G & Hf)|[]].
      eapply C; eauto. }
  destruct L as (N' & K' & ND'). cbn [fst snd] in N', K', ND'.
  split; cbn [CollectPlansResult.ttcComposition CollectPlansResult.ttcContents].
  - exact N'.
  - intros c' files' G. rewrite ObjFacts.get_set in G.
    destruct (String.eqb c c').
    + injection G as <-. split; [exact ND'|]. intros f Hf. apply K'. now right.
    + split; [eapply C; eauto|]. intros f Hf. apply K'. left.
      exists c', files'. auto.
Qed.

Lemma getCollectPlans_catalogued pe buildPlans raw mapping config fn cp :
  getCollectPlans pe buildPlans raw mapping config fn = Ok cp ->
  catalogued cp.
Proof.
  intros H. unfold getCollectPlans in H.
  eapply (CollectFacts.forEachR_inv catalogued); [| |exact H].
  - intros c a a' _ Ca Hc. eapply collectGroup_catalogued; eauto.
  - split; [intros name glyfs G; discriminate | intros c files G; discriminate].
Qed.

(** The plans are sound: the invariant of the planner's loops. *)
Lemma getCollectPlans_composed pe buildPlans raw mapping config fn cp :
  getCollectPlans pe buildPlans raw mapping config fn = Ok cp ->
  composed (CollectPlansResult.glyfTtcComposition cp)
           (CollectPlansResult.ttcComposition cp).
Proof.
  intros H. unfold getCollectPlans in H.
  pose (P := fun cp : CollectPlansResult.t =>
               produced buildPlans (CollectPlansResult.glyfTtcComposition cp)
               /\ composed (CollectPlansResult.glyfTtcComposition cp)
                           (CollectPlansResult.ttcComposition cp)).
  assert (G : P cp); [|exact (proj2 G)].
  eapply (CollectFacts.forEachR_inv P); [| |exact H].
  - intros c a a' _ Pa Hbody. unfold collectGroup in Hbody.
    destruct (Obj.get c raw) as [[[[|p ps]|]]|];
      try (injection Hbody as <-; exact Pa).
    destruct (forEachR (p :: ps) _ _) as [[[g t] files]|e] eqn:E;
      [|discriminate].
    cbn [bindR] in Hbody. injection Hbody as <-. unfold P.
    cbn [CollectPlansResult.glyfTtcComposition
         CollectPlansResult.ttcComposition].
    change (sound buildPlans (g, t, files)).
    eapply (CollectFacts.forEachR_inv (sound buildPlans)); [| |exact E].
    + intros prefix acc acc' _ Hacc Hinner.
      apply CollectFacts.collectSource_inv in Hinner
        as [(gri & G & ->)|(_ & _ & ->)]; [|exact Hacc].
      apply CollectFacts.fold_left_inv; [|exact Hacc].
      intros suffix a0 _ Ha0.
      now apply CollectFacts.collectSuffix_sound.
    + exact Pa.
  - split; intros name parts part Hget; discriminate.
Qed.

(** The sources recorded for the collections. *)
Lemma collectGroup_groups pe buildPlans raw mapping config fn c cp cp' :
  collectGroup pe buildPlans raw mapping config fn c cp = Ok cp' ->
  (forall c', c' <> c ->
     Obj.get c' (CollectPlansResult.groupDecomposition cp')
       = Obj.get c' (CollectPlansResult.groupDecomposition cp)
     /\ Obj.get c' (CollectPlansResult.ttcContents cp')
       = Obj.get c' (CollectPlansResult.ttcContents cp))
  /\ match groupSources raw c with
     | Some from =>
         Obj.get c (CollectPlansResult.groupDecomposition cp') = Some from
         /\ Obj.get c (CollectPlansResult.ttcContents cp') <> None
     | None => cp' = cp
     end.
Proof.
  intros H. unfold collectGroup in H. unfold groupSources.
  destruct (Obj.get c raw) as [[[[|p ps]|]]|];
    try (injection H as <-; split; [intros c' _; split; reflexivity
                                   | reflexivity]).
  destruct (forEachR (p :: ps) _ _) as [[[g t] files]|e]; [|discriminate].
  cbn [bindR] in H. injection H as <-.
  cbn [CollectPlansResult.groupDecomposition CollectPlansResult.ttcContents].
  split.
  - intros c' N. rewrite !ObjFacts.get_set_ne by congruence. now split.
  - rewrite !ObjFacts.get_set_eq. split; [reflexivity | discriminate].
Qed.

Lemma getCollectPlans_groups pe buildPlans raw mapping config fn cp :
  getCollectPlans pe buildPlans raw mapping config fn = Ok cp ->
  forall c,
    Obj.get c (CollectPlansResult.groupDecomposition cp) = groupSources raw c
    /\ (Obj.get c (CollectPlansResult.ttcContents cp) = None
        <-> groupSources raw c = None).
Proof.
  intros H. unfold getCollectPlans in H.
  pose (P := fun (done : list string) (cp : CollectPlansResult.t) =>
    forall c,
      (In c done ->
       Obj.get c (CollectPlansResult.groupDecomposition cp)
         = groupSources raw c
       /\ (Obj.get c (CollectPlansResult.ttcContents cp) = None
           <-> groupSources raw c = None))
      /\ (~ In c done ->
          Obj.get c (CollectPlansResult.groupDecomposition cp) = None
          /\ Obj.get c (CollectPlansResult.ttcContents cp) = None)).
  assert (G : P (Obj.keys raw) cp).
  { eapply (DistinctFacts.forEachR_pos P); [| |exact H].
    - intros done x rest a a' _ Pa Hx c.
      apply collectGroup_groups in Hx as [Other Own].
      destruct (string_dec c x) as [->|N].
      + split; [intros _ | intros NI; exfalso; apply NI, in_app_iff; right;
                              now left].
        destruct (groupSources raw x) as [from|] eqn:Gs.
        * destruct Own as [Og Ot]. split; [exact Og|].
          split; [intros E; contradiction | discriminate].
        * subst a'. destruct (in_dec string_dec x done) as [Hd|Hd].
          -- destruct (proj1 (Pa x) Hd) as [Eg Et]. rewrite Gs in Eg, Et.
             split; [exact Eg | exact Et].
          -- destruct (proj2 (Pa x) Hd) as [Eg Et]. rewrite Eg, Et.
             split; [reflexivity | split; reflexivity].
      + destruct (Other c N) as [-> ->]. split.
        * intros Hin. apply in_app_iff in Hin as [Hin|[->|[]]];
            [now apply Pa | contradiction].
        * intros NI. apply Pa. intros Hin. apply NI, in_app_iff. now left.
    - intros c. split; [intros [] | intros _; split; reflexivity]. }
  intros c. destruct (in_dec string_dec c (Obj.keys raw)) as [Hin|Hin].
  - now apply G.
  - destruct (proj2 (G c) Hin) as [Eg Et]. rewrite Eg, Et.
    assert (Gs : groupSources raw c = None).
    { unfold groupSources. apply ObjFacts.get_None_keys in Hin.
      now rewrite Hin. }
    rewrite Gs. split; [reflexivity | split; reflexivity].
Qed.

(** With [distinguishWidths] set every ttc list repeats its own name. *)
Lemma collectSuffix_own config c p set mapping k acc :
  truthy (CollectConfig.distinguishWidths config) = true ->
  (forall name glyfs g,
     Obj.get name (snd (fst acc)) = Some glyfs -> In g glyfs -> g = name) ->
  forall name glyfs g,
    Obj.get name
      (snd (fst (collectSuffix fnStandardTtc config c p set mapping k acc)))
      = Some glyfs ->
    In g glyfs -> g = name.
Proof.
  destruct acc as [[gl t] files]. intros Hw Hown. unfold collectSuffix.
  destruct (Obj.get k mapping) as [sfi|]; [|exact Hown].
  destruct (negb (setHas _ set)); [exact Hown|].
  cbn [fst snd] in *. intros name glyfs g G Hg.
  rewrite CollectFacts.get_pushTo in G.
  destruct (String.eqb_spec
              (fnStandardTtc config c (SuffixItem.weight sfi)
                 (SuffixItem.width sfi) (SuffixItem.slope sfi)) name)
    as [E|E]; [|eauto].
  injection G as <-. apply in_app_iff in Hg as [Hg|[<-|[]]].
  - destruct (Obj.get _ t) as [old|] eqn:Go; [|destruct Hg].
    rewrite <- E. eapply Hown; eauto.
  - rewrite <- E. unfold fnStandardTtc.
    cbn [CollectConfig.distinguishWeights CollectConfig.distinguishWidths
         CollectConfig.distinguishSlope truthy].
    now rewrite Hw.
Qed.

Lemma getCollectPlans_own pe buildPlans raw mapping config cp :
  truthy (CollectConfig.distinguishWidths config) = true ->
  getCollectPlans pe buildPlans raw mapping config fnStandardTtc = Ok cp ->
  forall name glyfs g,
    Obj.get name (CollectPlansResult.ttcComposition cp) = Some glyfs ->
    In g glyfs -> g = name.
Proof.
  intros Hw H. unfold getCollectPlans in H.
  pose (P := fun cp : CollectPlansResult.t =>
    forall name glyfs g,
      Obj.get name (CollectPlansResult.ttcComposition cp) = Some glyfs ->
      In g glyfs -> g = name).
  change (P cp).
  eapply (CollectFacts.forEachR_inv P); [| |exact H].
  - intros c a a' _ Pa Hbody. unfold collectGroup in Hbody.
    destruct (Obj.get c raw) as [[[[|p ps]|]]|];
      try (injection Hbody as <-; exact Pa).
    destruct (forEachR (p :: ps) _ _) as [[[g t] files]|e] eqn:E;
      [|discriminate].
    cbn [bindR] in Hbody. injection Hbody as <-. unfold P.
    cbn [CollectPlansResult.ttcComposition].
    pose (Q := fun acc : CollectAcc =>
      forall name glyfs g,
        Obj.get name (snd (fst acc)) = Some glyfs -> In g glyfs -> g = name).
    change (Q (g, t, files)).
    eapply (CollectFacts.forEachR_inv Q); [| |exact E].
    + intros prefix acc acc' _ Hacc Hinner.
      unfold collectSource in Hinner.
      destruct (BuildPlanOf pe buildPlans prefix) as [gri|e0]; [|discriminate].
      cbn [bindR] in Hinner. injection Hinner as <-.
      apply (CollectFacts.fold_left_inv Q); [|exact Hacc].
      intros suffix a0 _ Ha0. unfold Q. now apply collectSuffix_own.
    + exact Pa.
  - intros name glyfs g G. discriminate.
Qed.

(** A loop fails when one of its steps always fails. *)
Lemma forEachR_throws {A B} (l : list A) (body : A -> B -> Result B) x :
  In x l -> (forall a, exists e, body x a = Throw e) ->
  forall acc, exists e, forEachR l body acc = Throw e.
Proof.
  induction l as [|y l IH]; intros Hin Hx acc; [destruct Hin|].
  cbn [forEachR]. destruct (body y acc) as [a'|e] eqn:E.
  - cbn [bindR]. destruct Hin as [->|Hin]; [|now apply IH].
    destruct (Hx acc) as (e & Ee). congruence.
  - cbn [bindR]. eauto.
Qed.

Lemma forEachR_throw_inv {A B} (l : list A) (body : A -> B -> Result B) :
  forall acc e,
    forEachR l body acc = Throw e ->
    exists x a, In x l /\ body x a = Throw e.
Proof.
  induction l as [|y l IH]; intros acc e H; [discriminate|].
  cbn [forEachR] in H. destruct (body y acc) as [a'|e'] eqn:E.
  - cbn [bindR] in H. destruct (IH _ _ H) as (x & a & Hin & Hx).
    exists x, a. split; [now right | exact Hx].
  - cbn [bindR] in H. injection H as <-. exists y, acc.
    split; [now left | exact E].
Qed.

(** The only failure of the planner: a source for which the read of the
    build plans finds nothing. *)
Lemma getCollectPlans_throw_inv pe buildPlans raw mapping config fn e :
  getCollectPlans pe buildPlans raw mapping config fn = Throw e ->
  exists c from q,
    groupSources raw c = Some from /\ In q from
    /\ Obj.get q buildPlans = None /\ Obj.inherited q = false
    /\ e = Failure (planNotFound pe q).
Proof.
  intros H. unfold getCollectPlans in H.
  apply forEachR_throw_inv in H as (c & cp & _ & H).
  unfold collectGroup in H.
  destruct (Obj.get c raw) as [[[[|p ps]|]]|] eqn:Gc; try discriminate.
  destruct (forEachR (p :: ps) _ _) as [[[g t] files]|e'] eqn:E;
    [discriminate|].
  cbn [bindR] in H. injection H as <-.
  apply forEachR_throw_inv in E as (q & acc & Hq & E).
  apply CollectFacts.collectSource_throw_inv in E as (G & I & ->).
  exists c, (p :: ps), q.
  split; [unfold groupSources; now rewrite Gc|].
  split; [exact Hq|]. split; [exact G|]. split; [exact I | reflexivity].
Qed.

Lemma getCollectPlans_throws pe buildPlans raw mapping config fn c from q :
  groupSources raw c = Some from -> In q from ->
  Obj.get q buildPlans = None -> Obj.inherited q = false ->
  exists e, getCollectPlans pe buildPlans raw mapping config fn = Throw e.
Proof.
  intros Gs Hq Gq Iq. unfold getCollectPlans.
  apply (forEachR_throws _ _ c).
  - unfold groupSources in Gs.
    destruct (Obj.get c raw) eqn:G; [|discriminate].
    eapply ObjFacts.get_In_keys, G.
  - intros cp. unfold collectGroup. unfold groupSources in Gs.
    destruct (Obj.get c raw) as [[[[|p ps]|]]|]; try discriminate.
    injection Gs as <-.
    destruct (forEachR_throws (p :: ps)
                (collectSource pe buildPlans mapping config fn c) q Hq)
      with (acc := (CollectPlansResult.glyfTtcComposition cp,
                    CollectPlansResult.ttcComposition cp, @nil string))
      as (e & ->).
    + intros acc.
      rewrite (CollectFacts.collectSource_absent _ _ _ _ _ _ _ _ Gq Iq).
      eauto.
    + cbn [bindR]. eauto.
Qed.

(** The planner returns when every read of the build plans finds a plan
    or an inherited member. *)
Lemma getCollectPlans_returns pe buildPlans raw mapping config fn :
  (forall c from q,
     groupSources raw c = Some from -> In q from ->
     Obj.get q buildPlans <> None \/ Obj.inherited q = true) ->
  exists cp, getCollectPlans pe buildPlans raw mapping config fn = Ok cp.
Proof.
  intros Hall.
  destruct (getCollectPlans pe buildPlans raw mapping config fn)
    as [cp|e] eqn:E; [eauto|].
  apply getCollectPlans_throw_inv in E as (c & from & q & Gs & Hq & G & I & _).
  destruct (Hall c from q Gs Hq) as [N|T]; [contradiction | congruence].
Qed.

End ArchiveFacts.

(** ** Export plans *)

Module ExportFacts.





End ExportFacts.

(** ** Shape of the expanded plans *)

Module ShapeFacts.


(** A returned plan is the raw plan of its key with the axes filled in. *)
Lemma loop_shape rp (l : list string) plans idx st st' :
  (forall q, In q l -> In q (Obj.keys (Raw.buildPlans rp))) ->
  forEach l (BuildPlans_body rp) ([], []) st = (Ok (plans, idx), st') ->
  (forall p, In p (Obj.keys plans) <-> In p l)
  /\ forall p bp,
       Obj.get p plans = Some bp ->
       exists raw,
         Obj.get p (Raw.buildPlans rp) = Some raw
         /\ Plan.family bp = Plan.family raw
         /\ truthy (Plan.family raw) = true
         /\ Plan.weights bp = orObj (Plan.weights raw) (Raw.weights rp)
         /\ Plan.slopes bp
            = orObj (orObj (Plan.slopes raw) (Plan.slants raw)) (Raw.slopes rp)
         /\ Plan.widths bp = orObj (Plan.widths raw) (Raw.widths rp).
Proof.
  intros Hl H.
  pose (P := fun (done : list string) (a : Obj.t Plan.t * Obj.t Index.t) =>
    (forall p, In p (Obj.keys (fst a)) <-> In p done)
    /\ forall p bp,
         Obj.get p (fst a) = Some bp ->
         exists raw,
           Obj.get p (Raw.buildPlans rp) = Some raw
           /\ Plan.family bp = Plan.family raw
           /\ truthy (Plan.family raw) = true
           /\ Plan.weights bp = orObj (Plan.weights raw) (Raw.weights rp)
           /\ Plan.slopes bp
              = orObj (orObj (Plan.slopes raw) (Plan.slants raw))
                      (Raw.slopes rp)
           /\ Plan.widths bp = orObj (Plan.widths raw) (Raw.widths rp)).
  change (P l (plans, idx)).
  eapply (IndexFacts.forEach_pos P l (BuildPlans_body rp)); [| |exact H].
  - intros done q rest [plans0 idx0] [plans1 idx1] st0 st1 El [K S] Hb.
    cbn [fst] in K, S. unfold BuildPlans_body in Hb.
    assert (Hq : In q (Obj.keys (Raw.buildPlans rp))).
    { apply Hl. rewrite El. apply in_app_iff. right. now left. }
    destruct (ItemFacts.In_keys_get _ _ Hq) as (raw & Graw).
    rewrite Graw in Hb.
    change (default emptyPlan (Some raw)) with raw in Hb. cbv zeta in Hb.
    unfold bind at 1 in Hb.
    destruct (validateAndShimBuildPlans _ _ _ _ _ st0) as [[bp1|e] st2] eqn:Es;
      [|discriminate].
    apply TargetFacts.shim_inv in Es as [Hfam ->].
    unfold bind at 1 in Hb.
    destruct (getSuffixMapping _ _ _ st2) as [[mapping|e] st3];
      [|discriminate].
    destruct (fold_left _ _ _) as [ts idx2].
    unfold ret in Hb. injection Hb as <- <- <-.
    split; cbn [fst].
    + intros p. rewrite ObjFacts.In_keys_set, K, in_app_iff.
      cbn [In]. intuition congruence.
    + intros p bp G. rewrite ObjFacts.get_set in G.
      destruct (String.eqb_spec q p) as [<-|N]; [|now apply S].
      injection G as <-. exists raw.
      cbn [Plan.family Plan.weights Plan.slopes Plan.widths]. auto 10.
  - split; [intros p; split; intros [] | intros p bp G; discriminate].
Qed.

End ShapeFacts.

(** ** Statements on the resolver, the plans and the exports *)

(** X1. Every entry of a mapping that [getSuffixMapping] returns is
    resolved from the three tables: all of them are present, the entry's
    weight, width and slope are own keys of theirs, its key is the suffix
    [makeSuffix] gives for the three, its five numbers are the numbers
    the tables declare, unchanged, and they lie in the validators' ranges
    (shape weight 100..900, CSS and menu weight strictly between 0 and
    1000, shape width 433..665, menu width 1..9). *)
Theorem suffix_items_resolved weights slopes widths st mapping st'
    suffix item :
  getSuffixMapping weights slopes widths st = (Ok mapping, st') ->
  Obj.get suffix mapping = Some item ->
  exists ws ss wds,
    weights = Some ws /\ slopes = Some ss /\ widths = Some wds
    /\ resolvedItem ws ss wds suffix item.
Proof.
  intros Hm G.
  destruct (MappingFacts.mapping_of_options _ _ _ _ _ _ _ _ Hm G)
    as (ws & ss & wds & Ew & Es & Ewd).
  exists ws, ss, wds. repeat (split; [assumption|]).
  rewrite Ew, Es, Ewd in Hm.
  now apply (MappingFacts.mapping_resolved _ _ _ _ _ _ Hm).
Qed.

Lemma suffix_items_resolved_witness :
  exists item ws ss wds,
    Obj.get "italic" sparseStandardSuffixes = Some item
    /\ Raw.weights sparsePlans = Some ws
    /\ resolvedItem ws ss wds "italic" item.
Proof.
  pose (x := getSuffixMapping (Raw.weights sparsePlans)
               (Raw.slopes sparsePlans) (Raw.widths sparsePlans) initialState).
  assert (E : getSuffixMapping (Raw.weights sparsePlans)
                (Raw.slopes sparsePlans) (Raw.widths sparsePlans) initialState
              = x) by reflexivity.
  vm_compute in x.
  destruct (suffix_items_resolved _ _ _ _ _ _ "italic" _ E eq_refl)
    as (ws & ss & wds & Ew & Es & Ewd & R).
  eexists. exists ws, ss, wds. split; [reflexivity|]. split; assumption.
Defined.



(** X3. When one of the three tables is missing or has no own key,
    [getSuffixMapping] returns the empty mapping in every state: no
    number of the other tables is validated, so an out-of-range weight
    raises no error. *)
Theorem suffix_mapping_empty weights slopes widths :
  ownKeys weights = [] \/ ownKeys slopes = [] \/ ownKeys widths = [] ->
  forall st, exists st',
    getSuffixMapping weights slopes widths st = (Ok [], st').
Proof. apply CoverFacts.mapping_empty. Qed.

Lemma suffix_mapping_empty_witness :
  exists st',
    getSuffixMapping (Some heavyWeights) None (Some normalWidth) initialState
      = (Ok [], st').
Proof.
  apply (suffix_mapping_empty (Some heavyWeights) None (Some normalWidth)).
  right. left. reflexivity.
Defined.

(** X4. The axis resolver, the plan expansion and the font records only
    print: whatever the state, [getSuffixMapping], [BuildPlans] and
    [FontInfoOf] give the same result and the same lines on the console,
    and they leave the memory of the width fix-up as it is. *)
Theorem resolution_only_prints :
  (forall weights slopes widths,
     exists res log, forall st,
       getSuffixMapping weights slopes widths st
       = (res, {| g_widthFixupMemory := g_widthFixupMemory st;
                  console := console st ++ log |}))
  /\ (forall rp,
        exists res log, forall st,
          BuildPlans rp st
          = (res, {| g_widthFixupMemory := g_widthFixupMemory st;
                     console := console st ++ log |}))
  /\ (forall privateExists r version fileName,
        exists res log, forall st,
          FontInfoOf privateExists r version fileName st
          = (res, {| g_widthFixupMemory := g_widthFixupMemory st;
                     console := console st ++ log |})).
Proof.
  split; [|split].
  - intros. apply PrintFacts.printsOnly_getSuffixMapping.
  - intros. apply PrintFacts.printsOnly_BuildPlans.
  - intros. apply PrintFacts.printsOnly_FontInfoOf.
Qed.



(** X6. [BuildPlans] returns one plan for every key of the raw build
    plans and no other; each keeps the family name of its raw plan, and
    its weights, slopes and widths are the raw plan's own table when it has
    one (for the slopes: [slopes], else the legacy [slants]) and the
    global table otherwise. *)
Theorem plans_keep_axes rp st r st' :
  BuildPlans rp st = (Ok r, st') ->
  (forall p,
     In p (Obj.keys (BuildPlansResult.buildPlans r))
     <-> In p (Obj.keys (Raw.buildPlans rp)))
  /\ forall p bp,
       Obj.get p (BuildPlansResult.buildPlans r) = Some bp ->
       exists raw,
         Obj.get p (Raw.buildPlans rp) = Some raw
         /\ Plan.family bp = Plan.family raw
         /\ truthy (Plan.family raw) = true
         /\ Plan.weights bp = orObj (Plan.weights raw) (Raw.weights rp)
         /\ Plan.slopes bp
            = orObj (orObj (Plan.slopes raw) (Plan.slants raw)) (Raw.slopes rp)
         /\ Plan.widths bp = orObj (Plan.widths raw) (Raw.widths rp).
Proof.
  intros H. apply TargetFacts.BuildPlans_inv in H.
  eapply ShapeFacts.loop_shape; [|exact H]. auto.
Qed.

Lemma plans_keep_axes_witness :
  exists bp raw,
    Obj.get "b" sparseBuildPlans = Some bp
    /\ Obj.get "b" (Raw.buildPlans sparsePlans) = Some raw
    /\ Plan.slopes bp
       = orObj (orObj (Plan.slopes raw) (Plan.slants raw))
               (Raw.slopes sparsePlans).
Proof.
  pose (x := BuildPlans sparsePlans initialState).
  assert (E : BuildPlans sparsePlans initialState = x) by reflexivity.
  vm_compute in x.
  destruct (proj2 (plans_keep_axes sparsePlans initialState _ _ E)
              "b" _ eq_refl)
    as (raw & Graw & _ & _ & _ & Es & _).
  eexists. exists raw. split; [reflexivity|]. split; [exact Graw | exact Es].
Defined.

(** X7. A raw build plan without a family name (undefined, null, empty)
    makes [BuildPlans] fail, in every state and wherever the plan stands
    among the others. *)
Theorem family_required rp st p raw :
  Obj.get p (Raw.buildPlans rp) = Some raw ->
  truthy (Plan.family raw) = false ->
  exists e st', BuildPlans rp st = (Throw e, st').
Proof.
  intros G Hfam. destruct (BuildPlans rp st) as [[r|e] st'] eqn:E; [|eauto].
  exfalso. apply TargetFacts.BuildPlans_inv in E.
  destruct (ShapeFacts.loop_shape rp _ _ _ _ _ (fun q H => H) E) as [K S].
  assert (Hp : In p (Obj.keys (BuildPlansResult.buildPlans r))).
  { apply K. eapply ObjFacts.get_In_keys, G. }
  destruct (ItemFacts.In_keys_get _ _ Hp) as (bp & Gp).
  destruct (S p bp Gp) as (raw' & Graw' & _ & Ht & _).
  rewrite G in Graw'. injection Graw' as <-. congruence.
Qed.

Lemma family_required_witness :
  exists e st', BuildPlans namelessPlans initialState = (Throw e, st').
Proof.
  eapply (family_required namelessPlans initialState "n");
    [reflexivity | reflexivity].
Defined.



(** X9. After [BuildPlans] has returned for raw plans with distinct keys,
    [FontInfoOf] fails for every file name that no returned plan has as
    a target and that is not the name of a member of [Object.prototype],
    with the message that the build plan was not found (and the hint at
    the private configuration file when that file does not exist); the
    state is left as it is.  For the name of such a member the read of
    the index finds the member, whose prefix is undefined: the outcome
    is the same when no returned plan has the key "undefined". *)
Theorem FontInfoOf_unknown privateExists rp st r st' version name :
  Obj.wf (Raw.buildPlans rp) ->
  BuildPlans rp st = (Ok r, st') ->
  (forall p bp,
     Obj.get p (BuildPlansResult.buildPlans r) = Some bp ->
     ~ In name (Plan.targets bp)) ->
  Obj.inherited name = false
  \/ Obj.get "undefined" (BuildPlansResult.buildPlans r) = None ->
  forall st0,
    FontInfoOf privateExists r version name st0
    = (Throw (Failure (planNotFound privateExists name)), st0).
Proof.
  intros WF H Hno Hname st0. apply TargetFacts.BuildPlans_inv in H.
  pose proof (FontFacts.loop_traced _ _ _ _ _ _ WF H name) as T.
  unfold FontInfoOf, Obj.read.
  destruct (Obj.get name (BuildPlansResult.fileNameToBpMap r)) as [fi|] eqn:G.
  { destruct T as (p & bp & Gp & Hin); [discriminate|].
    exfalso. eapply Hno; eauto. }
  destruct (Obj.inherited name) eqn:I; [|reflexivity].
  destruct Hname as [Hname|Hname]; [discriminate|].
  cbn [Obj.prop ToString]. cbv zeta. rewrite Hname. reflexivity.
Qed.

Lemma FontInfoOf_unknown_witness :
  exists r st',
    BuildPlans collidingPlans initialState = (Ok r, st')
    /\ FontInfoOf false r "1.0" "iosevka-thin" initialState
       = (Throw (Failure (planNotFound false "iosevka-thin")), initialState).
Proof.
  pose (x := BuildPlans collidingPlans initialState).
  assert (E : BuildPlans collidingPlans initialState = x) by reflexivity.
  vm_compute in x.
  assert (WF : Obj.wf (Raw.buildPlans collidingPlans)).
  { repeat constructor; simpl; intuition discriminate. }
  eexists. eexists. split; [exact E|].
  apply (FontInfoOf_unknown false collidingPlans initialState _ _ "1.0"
           "iosevka-thin" WF E); [|left; reflexivity].
  intros p bp G Hin. cbn [BuildPlansResult.buildPlans] in G.
  cbn [Obj.get] in G.
  destruct (String.eqb _ p); [injection G as <-; cbn in Hin;
                              intuition discriminate|].
  destruct (String.eqb _ p); [injection G as <-; cbn in Hin;
                              intuition discriminate|].
  discriminate.
Defined.



(** X11. In the plans that [getCollectPlans] returns, the list of
    containers of a collection repeats no name, so the de-duplication of
    [ExportSuperTtc] changes nothing; every container of the list is
    built from at least one intermediate container, and each of those
    from at least one font. *)
Theorem super_ttc_parts privateExists buildPlans rawCollectPlans
    suffixMapping config fnFileName cp :
  getCollectPlans privateExists buildPlans rawCollectPlans suffixMapping
                  config fnFileName = Ok cp ->
  forall gr,
    ExportSuperTtc_parts cp gr
    = default [] (Obj.get gr (CollectPlansResult.ttcContents cp))
    /\ forall f,
         In f (ExportSuperTtc_parts cp gr) ->
         ExportTtcFile_parts cp f <> []
         /\ forall g,
              In g (ExportTtcFile_parts cp f) ->
              exists parts, glyfTtc_parts cp g = Some parts /\ parts <> [].
Proof.
  intros H gr.
  destruct (ArchiveFacts.getCollectPlans_catalogued _ _ _ _ _ _ _ H) as [N C].
  pose proof (ArchiveFacts.getCollectPlans_composed _ _ _ _ _ _ _ H) as Co.
  unfold ExportSuperTtc_parts.
  destruct (Obj.get gr (CollectPlansResult.ttcContents cp)) as [files|] eqn:G.
  - destruct (C gr files G) as [ND K]. cbn [from_option Datatypes.id].
    rewrite (ArchiveFacts.setFrom_NoDup files ND). split; [reflexivity|].
    intros f Hf. unfold ExportTtcFile_parts, glyfTtc_parts.
    destruct (Obj.get f (CollectPlansResult.ttcComposition cp))
      as [glyfs|] eqn:Gf; [|now destruct (K f Hf)].
    cbn [from_option Datatypes.id]. split.
    + pose proof (N f glyfs Gf) as Hne.
      destruct glyfs as [|a rest]; [congruence|]. intros E.
      assert (Ha : In a (setFrom (a :: rest)))
        by (rewrite CollectFacts.In_setFrom; now left).
      rewrite E in Ha. destruct Ha.
    + intros g Hg. rewrite CollectFacts.In_setFrom in Hg.
      exact (Co f glyfs g Gf Hg).
  - cbn [from_option Datatypes.id]. split; [reflexivity | intros f []].
Qed.

Lemma super_ttc_parts_witness :
  exists cp,
    sparseCollectPlans = Ok cp
    /\ ExportSuperTtc_parts cp "c"
       = default [] (Obj.get "c" (CollectPlansResult.ttcContents cp)).
Proof.
  pose (x := sparseCollectPlans).
  assert (E : sparseCollectPlans = x) by reflexivity.
  vm_compute in x.
  eexists. split; [exact E|].
  exact (proj1 (super_ttc_parts _ _ _ _ _ _ _ E "c")).
Defined.

(** X12. In the plans that [getCollectPlans] returns, a collection has a
    source list and a container list exactly when its raw list of
    sources is present and not empty, and the source list is that raw
    list.  So [CollectionArchiveFile] asks for these two lists for such
    a collection and raises a TypeError for every other name, for which
    [ExportSuperTtc] has no part at all. *)
Theorem archive_needs privateExists buildPlans rawCollectPlans
    suffixMapping config fnFileName cp :
  getCollectPlans privateExists buildPlans rawCollectPlans suffixMapping
                  config fnFileName = Ok cp ->
  forall gr,
    Obj.get gr (CollectPlansResult.groupDecomposition cp)
    = groupSources rawCollectPlans gr
    /\ CollectionArchiveFile_needs cp gr
       = match groupSources rawCollectPlans gr with
         | Some from =>
             Ok (from,
                 default [] (Obj.get gr (CollectPlansResult.ttcContents cp)))
         | None => Throw (TypeError "Cannot read properties of undefined")
         end
    /\ (groupSources rawCollectPlans gr = None ->
        ExportSuperTtc_parts cp gr = []).
Proof.
  intros H gr.
  destruct (ArchiveFacts.getCollectPlans_groups _ _ _ _ _ _ _ H gr)
    as [Eg Et].
  destruct (ArchiveFacts.getCollectPlans_catalogued _ _ _ _ _ _ _ H) as [_ C].
  split; [exact Eg|]. split.
  - unfold CollectionArchiveFile_needs. rewrite Eg.
    destruct (groupSources rawCollectPlans gr) as [from|]; [|reflexivity].
    destruct (Obj.get gr (CollectPlansResult.ttcContents cp))
      as [files|] eqn:G; [|reflexivity].
    cbn [from_option Datatypes.id].
    now rewrite (ArchiveFacts.setFrom_NoDup files (proj1 (C gr files G))).
  - intros Gs. unfold ExportSuperTtc_parts.
    rewrite (proj2 Et Gs). reflexivity.
Qed.

Lemma archive_needs_witness :
  exists cp,
    getCollectPlans true sparseBuildPlans partialCollections
                    sparseStandardSuffixes standardCollectConfig fnStandardTtc
      = Ok cp
    /\ CollectionArchiveFile_needs cp "f"
       = Throw (TypeError "Cannot read properties of undefined")
    /\ ExportSuperTtc_parts cp "f" = [].
Proof.
  pose (x := getCollectPlans true sparseBuildPlans partialCollections
               sparseStandardSuffixes standardCollectConfig fnStandardTtc).
  assert (E : getCollectPlans true sparseBuildPlans partialCollections
                sparseStandardSuffixes standardCollectConfig fnStandardTtc
              = x) by reflexivity.
  vm_compute in x.
  destruct (archive_needs _ _ _ _ _ _ _ E "f") as (_ & Hn & Hs).
  eexists. split; [exact E|]. split; [exact Hn | exact (Hs eq_refl)].
Defined.

(** X13. With [distinguishWidths] set in the collect configuration and
    the standard naming [fnStandardTtc], every container of the returned
    plans is built from the one intermediate container of its own
    name. *)
Theorem own_width_containers privateExists buildPlans rawCollectPlans
    suffixMapping config cp f glyfs :
  truthy (CollectConfig.distinguishWidths config) = true ->
  getCollectPlans privateExists buildPlans rawCollectPlans suffixMapping
                  config fnStandardTtc = Ok cp ->
  Obj.get f (CollectPlansResult.ttcComposition cp) = Some glyfs ->
  ExportTtcFile_parts cp f = [f].
Proof.
  intros Hw H G. unfold ExportTtcFile_parts. rewrite G. cbn [from_option Datatypes.id].
  apply ArchiveFacts.setFrom_single.
  - intros g Hg.
    exact (ArchiveFacts.getCollectPlans_own _ _ _ _ _ _ Hw H f glyfs g G Hg).
  - exact (proj1 (ArchiveFacts.getCollectPlans_catalogued _ _ _ _ _ _ _ H)
             f glyfs G).
Qed.

Lemma own_width_containers_witness :
  exists cp,
    sparseCollectPlans = Ok cp
    /\ ExportTtcFile_parts cp "c-regular" = ["c-regular"].
Proof.
  pose (x := sparseCollectPlans).
  assert (E : sparseCollectPlans = x) by reflexivity.
  vm_compute in x.
  eexists. split; [exact E|].
  eapply (own_width_containers true sparseBuildPlans
            (Raw.collectPlans sparsePlans) sparseStandardSuffixes
            (Raw.collectConfig sparsePlans) _ "c-regular");
    [reflexivity | exact E | reflexivity].
Defined.

(** X14. Given a collect configuration and a naming function,
    [getCollectPlans] fails exactly when a collection that it does not
    skip names a source for which the read of the build plans finds
    nothing: a source that is no key of the build plans and no name of a
    member of [Object.prototype].  Its error is then the failure [Build
    plan for '<source>' not found.] for such a source.  For the name of
    such a member the read finds the member, and the planner goes on
    without a font of that source. *)
Theorem collect_plans_failure privateExists buildPlans rawCollectPlans
    suffixMapping config fnFileName :
  (forall e,
     getCollectPlans privateExists buildPlans rawCollectPlans suffixMapping
                     config fnFileName = Throw e ->
     exists c from q,
       groupSources rawCollectPlans c = Some from /\ In q from
       /\ Obj.get q buildPlans = None /\ Obj.inherited q = false
       /\ e = Failure (planNotFound privateExists q))
  /\ (forall c from q,
        groupSources rawCollectPlans c = Some from -> In q from ->
        Obj.get q buildPlans = None -> Obj.inherited q = false ->
        exists q',
          Obj.get q' buildPlans = None /\ Obj.inherited q' = false
          /\ getCollectPlans privateExists buildPlans rawCollectPlans
                             suffixMapping config fnFileName
             = Throw (Failure (planNotFound privateExists q')))
  /\ ((forall c from q,
         groupSources rawCollectPlans c = Some from -> In q from ->
         Obj.get q buildPlans <> None \/ Obj.inherited q = true) ->
      exists cp,
        getCollectPlans privateExists buildPlans rawCollectPlans
                        suffixMapping config fnFileName = Ok cp).
Proof.
  split; [|split].
  - apply ArchiveFacts.getCollectPlans_throw_inv.
  - intros c from q Gs Hq Gq Iq.
    destruct (ArchiveFacts.getCollectPlans_throws privateExists buildPlans
                rawCollectPlans suffixMapping config fnFileName c from q
                Gs Hq Gq Iq) as (e & E).
    destruct (ArchiveFacts.getCollectPlans_throw_inv _ _ _ _ _ _ _ E)
      as (c' & from' & q' & _ & _ & Gq' & Iq' & ->).
    exists q'. split; [exact Gq'|]. split; [exact Iq' | exact E].
  - apply ArchiveFacts.getCollectPlans_returns.
Qed.

Lemma collect_plans_failure_witness :
  (exists q',
     Obj.get q' sparseBuildPlans = None /\ Obj.inherited q' = false
     /\ getCollectPlans false sparseBuildPlans strayCollections
                        sparseStandardSuffixes standardCollectConfig
                        fnStandardTtc
        = Throw (Failure (planNotFound false q')))
  /\ exists cp,
       getCollectPlans false sparseBuildPlans memberCollections
                       sparseStandardSuffixes standardCollectConfig
                       fnStandardTtc = Ok cp.
Proof.
  destruct (collect_plans_failure false sparseBuildPlans strayCollections
              sparseStandardSuffixes standardCollectConfig fnStandardTtc)
    as (_ & Hfail & _).
  destruct (collect_plans_failure false sparseBuildPlans memberCollections
              sparseStandardSuffixes standardCollectConfig fnStandardTtc)
    as (_ & _ & Hret).
  split.
  - apply (Hfail "c" ["a"; "zz"] "zz"); try reflexivity.
    right. left. reflexivity.
  - apply Hret. intros c from q Gs Hq.
    unfold groupSources in Gs. cbn [Obj.get memberCollections] in Gs.
    destruct (String.eqb "c" c); [|discriminate].
    injection Gs as <-. destruct Hq as [<-|[<-|[]]].
    + left. vm_compute. discriminate.
    + right. reflexivity.
Defined.

(** X15. [OptimizeWithTtx] on the plans that [RawPlans] returns raises no
    error, also when build-plans.toml has no [buildOptions] section: it
    is true exactly when ttx is there and the option is truthy, the
    option of the private file winning over the one of build-plans.toml
    whenever the private file sets it.  On plans without that section it
    would raise a TypeError when ttx is there, and be false otherwise. *)
Theorem OptimizeWithTtx_RawPlans (hasTtx : bool) (base : Raw.t) :
  (forall privateBP,
     OptimizeWithTtx hasTtx (RawPlans base privateBP)
     = Ok (hasTtx
           && truthy
                match
                  match privateBP with
                  | Some pv =>
                      Obj.get "optimizeWithTtx"
                              (default [] (Private.buildOptions pv))
                  | None => None
                  end
                with
                | Some v => v
                | None =>
                    default VUndefined
                      (Obj.get "optimizeWithTtx"
                               (default [] (Raw.buildOptions base)))
                end))
  /\ (Raw.buildOptions base = None ->
      OptimizeWithTtx hasTtx base
      = if hasTtx
        then Throw (TypeError "Cannot read properties of undefined")
        else Ok false).
Proof.
  split.
  - intros [pv|]; unfold OptimizeWithTtx, RawPlans; cbn [Raw.buildOptions];
      destruct hasTtx; cbn [andb]; try reflexivity.
    rewrite ObjFacts.get_assign.
    destruct (Obj.get "optimizeWithTtx"
                      (default [] (Private.buildOptions pv)));
      reflexivity.
  - intros E. unfold OptimizeWithTtx. rewrite E. reflexivity.
Qed.

Lemma OptimizeWithTtx_RawPlans_witness :
  OptimizeWithTtx true sparsePlans
  = Throw (TypeError "Cannot read properties of undefined").
Proof.
  apply (proj2 (OptimizeWithTtx_RawPlans true sparsePlans)). reflexivity.
Defined.

(** ** Failures of the plan expansion *)

Module FailureFacts.



End FailureFacts.



(** ** No font is left behind *)

Module DeliverFacts.

Lemma holds_pushTo_old {A} (o : Obj.t (list A)) k x k' x' :
  holds o k x -> holds (pushTo k' x' o) k x.
Proof.
  intros (l & G & Hin). unfold holds. rewrite CollectFacts.get_pushTo.
  destruct (String.eqb_spec k' k) as [->|N]; [|eauto].
  rewrite G. eexists. split; [reflexivity|].
  cbn [from_option Datatypes.id]. apply in_app_iff. now left.
Qed.

Lemma holds_pushTo_new {A} (o : Obj.t (list A)) k x :
  holds (pushTo k x o) k x.
Proof.
  unfold holds. rewrite CollectFacts.get_pushTo, String.eqb_refl.
  eexists. split; [reflexivity|]. apply in_app_iff. right. now left.
Qed.

Lemma grown_refl acc : grown acc acc.
Proof. repeat split; auto. Qed.

Lemma grown_trans a b c : grown a b -> grown b c -> grown a c.
Proof. intros (A1 & A2 & A3) (B1 & B2 & B3). repeat split; auto. Qed.

Lemma reached_grown fn config c p k sfi acc acc' :
  reached fn config c p k sfi acc -> grown acc acc' ->
  reached fn config c p k sfi acc'.
Proof. intros (R1 & R2 & R3) (G1 & G2 & G3). repeat split; auto. Qed.

Lemma collectSuffix_grown fn config c p set mapping k acc :
  grown acc (collectSuffix fn config c p set mapping k acc).
Proof.
  destruct acc as [[g t] files]. unfold collectSuffix.
  destruct (Obj.get k mapping) as [sfi|]; [|apply grown_refl].
  destruct (negb (setHas _ set)); [apply grown_refl|].
  split; [|split]; cbn [fst snd].
  - intros g0 part. apply holds_pushTo_old.
  - intros t0 g0. apply holds_pushTo_old.
  - intros f Hf. apply CollectFacts.In_setAdd. now right.
Qed.

Lemma collectSuffix_reached fn config c p set mapping k sfi acc :
  Obj.get k mapping = Some sfi ->
  setHas (makeFileName p k) set = true ->
  reached fn config c p k sfi (collectSuffix fn config c p set mapping k acc).
Proof.
  destruct acc as [[g t] files]. intros G Hs. unfold collectSuffix.
  rewrite G, Hs. cbn [negb]. split; [|split]; cbn [fst snd].
  - apply holds_pushTo_new.
  - apply holds_pushTo_new.
  - apply CollectFacts.In_setAdd. now left.
Qed.

Lemma collectSource_reached pe buildPlans mapping config fn c p acc acc' :
  collectSource pe buildPlans mapping config fn c p acc = Ok acc' ->
  grown acc acc'
  /\ forall k sfi plan,
       Obj.get k mapping = Some sfi ->
       Obj.get p buildPlans = Some plan ->
       In (makeFileName p k) (Plan.targets plan) ->
       reached fn config c p k sfi acc'.
Proof.
  intros H.
  apply CollectFacts.collectSource_inv in H as [(gri & Gp & ->)|(G & _ & ->)];
    [|split; [apply grown_refl | intros k sfi plan _ Gplan; congruence]].
  pose (P := fun (dk : list string) (a : CollectAcc) =>
    grown acc a
    /\ forall k sfi,
         In k dk -> Obj.get k mapping = Some sfi ->
         In (makeFileName p k) (Plan.targets gri) ->
         reached fn config c p k sfi a).
  assert (G : P (Obj.keys mapping)
                (fold_left
                   (fun a suffix =>
                      collectSuffix fn config c p (setFrom (Plan.targets gri))
                                    mapping suffix a)
                   (Obj.keys mapping) acc)).
  { apply (DistinctFacts.fold_left_pos P).
    - intros dk k rest a _ [Ga Ra]. split.
      + eapply grown_trans; [exact Ga | apply collectSuffix_grown].
      + intros k' sfi Hk' Gk' Hin.
        apply in_app_iff in Hk' as [Hk'|[<-|[]]].
        * eapply reached_grown; [now apply Ra | apply collectSuffix_grown].
        * apply collectSuffix_reached; [exact Gk'|].
          apply CollectFacts.setHas_In. now rewrite CollectFacts.In_setFrom.
    - split; [apply grown_refl | intros k sfi []]. }
  destruct G as [Ga Ra]. split; [exact Ga|].
  intros k sfi plan Gk Gplan Hin. rewrite Gp in Gplan. injection Gplan as <-.
  apply Ra; [eapply ObjFacts.get_In_keys, Gk | exact Gk | exact Hin].
Qed.

Lemma collectGroup_delivered pe buildPlans raw mapping config fn c cp cp' :
  collectGroup pe buildPlans raw mapping config fn c cp = Ok cp' ->
  ((forall g part,
      holds (CollectPlansResult.glyfTtcComposition cp) g part ->
      holds (CollectPlansResult.glyfTtcComposition cp') g part)
   /\ (forall t g,
         holds (CollectPlansResult.ttcComposition cp) t g ->
         holds (CollectPlansResult.ttcComposition cp') t g)
   /\ (forall c' f, c' <> c ->
         holds (CollectPlansResult.ttcContents cp) c' f ->
         holds (CollectPlansResult.ttcContents cp') c' f))
  /\ forall from p k sfi plan,
       groupSources raw c = Some from -> In p from ->
       Obj.get k mapping = Some sfi ->
       Obj.get p buildPlans = Some plan ->
       In (makeFileName p k) (Plan.targets plan) ->
       delivered fn config c p k sfi cp'.
Proof.
  intros H. unfold collectGroup in H. unfold groupSources.
  destruct (Obj.get c raw) as [[[[|p0 ps]|]]|];
    try (injection H as <-; split; [repeat split; auto | discriminate]).
  destruct (forEachR (p0 :: ps) _ _) as [[[g t] files]|e] eqn:E;
    [|discriminate].
  cbn [bindR] in H. injection H as <-.
  pose (acc0 := (CollectPlansResult.glyfTtcComposition cp,
                 CollectPlansResult.ttcComposition cp, @nil string)).
  pose (Q := fun (ds : list string) (a : CollectAcc) =>
    grown acc0 a
    /\ forall p k sfi plan,
         In p ds -> Obj.get k mapping = Some sfi ->
         Obj.get p buildPlans = Some plan ->
         In (makeFileName p k) (Plan.targets plan) ->
         reached fn config c p k sfi a).
  assert (G : Q (p0 :: ps) (g, t, files)).
  { eapply (DistinctFacts.forEachR_pos Q); [| |exact E].
    - intros ds p rest a a' _ [Ga Ra] Hp.
      apply collectSource_reached in Hp as [Gp Rp]. split.
      + eapply grown_trans; eauto.
      + intros p' k sfi plan Hp' Gk Gplan Hin.
        apply in_app_iff in Hp' as [Hp'|[<-|[]]].
        * eapply reached_grown; [eapply Ra; eauto | exact Gp].
        * eapply Rp; eauto.
    - split; [apply grown_refl | intros p k sfi plan []]. }
  destruct G as [(G1 & G2 & _) R].
  cbn [CollectPlansResult.glyfTtcComposition CollectPlansResult.ttcComposition
       CollectPlansResult.ttcContents].
  split; [split; [exact G1 | split; [exact G2|]]|].
  - intros c' f N (l & Gl & Hl). exists l.
    rewrite ObjFacts.get_set_ne by congruence. auto.
  - intros from p k sfi plan Ef Hp Gk Gplan Hin. injection Ef as <-.
    destruct (R p k sfi plan Hp Gk Gplan Hin) as (R1 & R2 & R3).
    cbn [fst snd] in R1, R2, R3.
    split; [exact R1 | split; [exact R2|]].
    exists files. cbn [CollectPlansResult.ttcContents].
    rewrite ObjFacts.get_set_eq. auto.
Qed.

Lemma getCollectPlans_delivered pe buildPlans raw mapping config fn cp :
  getCollectPlans pe buildPlans raw mapping config fn = Ok cp ->
  forall c from p k sfi plan,
    groupSources raw c = Some from -> In p from ->
    Obj.get k mapping = Some sfi ->
    Obj.get p buildPlans = Some plan ->
    In (makeFileName p k) (Plan.targets plan) ->
    delivered fn config c p k sfi cp.
Proof.
  intros H. unfold getCollectPlans in H.
  pose (P := fun (done : list string) (cp : CollectPlansResult.t) =>
    forall c from p k sfi plan,
      In c done ->
      groupSources raw c = Some from -> In p from ->
      Obj.get k mapping = Some sfi ->
      Obj.get p buildPlans = Some plan ->
      In (makeFileName p k) (Plan.targets plan) ->
      delivered fn config c p k sfi cp).
  assert (G : P (Obj.keys raw) cp).
  { eapply (DistinctFacts.forEachR_pos P); [| |exact H].
    - intros done x rest a a' _ Pa Hx c from p k sfi plan Hc Gs Hp Gk Gp Hin.
      apply collectGroup_delivered in Hx as [(M1 & M2 & M3) D].
      destruct (string_dec c x) as [->|N]; [eapply D; eauto|].
      apply in_app_iff in Hc as [Hc|[->|[]]]; [|contradiction].
      destruct (Pa c from p k sfi plan Hc Gs Hp Gk Gp Hin) as (D1 & D2 & D3).
      split; [auto | split; auto].
    - intros c from p k sfi plan []. }
  intros c from p k sfi plan Gs. apply G.
  unfold groupSources in Gs.
  destruct (Obj.get c raw) eqn:Gc; [|discriminate].
  eapply ObjFacts.get_In_keys, Gc. exact Gs.
Qed.

End DeliverFacts.

(** X16. No font of a collection is left behind by [getCollectPlans]:
    for a collection that is not skipped, a source of its list and a
    suffix of the standard mapping, if the source's build plan has the
    target [source-suffix], then the pair of the source and that target
    stands in the list of its intermediate container, that container in
    the list of its container, and that one in the file list of the
    collection. *)
Theorem collect_plans_complete privateExists buildPlans rawCollectPlans
    suffixMapping config fnFileName cp c from p k sfi plan :
  getCollectPlans privateExists buildPlans rawCollectPlans suffixMapping
                  config fnFileName = Ok cp ->
  groupSources rawCollectPlans c = Some from -> In p from ->
  Obj.get k suffixMapping = Some sfi ->
  Obj.get p buildPlans = Some plan ->
  In (makeFileName p k) (Plan.targets plan) ->
  (exists parts,
     glyfTtc_parts cp (glyfName fnFileName config c sfi) = Some parts
     /\ In {| GlyfPart.dir := p; GlyfPart.file := makeFileName p k |} parts)
  /\ In (glyfName fnFileName config c sfi)
        (ExportTtcFile_parts cp
           (fnFileName config c (SuffixItem.weight sfi) (SuffixItem.width sfi)
                       (SuffixItem.slope sfi)))
  /\ In (fnFileName config c (SuffixItem.weight sfi) (SuffixItem.width sfi)
                    (SuffixItem.slope sfi))
        (ExportSuperTtc_parts cp c).
Proof.
  intros H Gs Hp Gk Gp Hin.
  destruct (DeliverFacts.getCollectPlans_delivered _ _ _ _ _ _ _ H
              c from p k sfi plan Gs Hp Gk Gp Hin)
    as (D1 & (glyfs & G2 & H2) & (files & G3 & H3)).
  split; [exact D1|]. split.
  - unfold ExportTtcFile_parts. rewrite G2. cbn [from_option Datatypes.id].
    now rewrite CollectFacts.In_setFrom.
  - unfold ExportSuperTtc_parts. rewrite G3. cbn [from_option Datatypes.id].
    now rewrite CollectFacts.In_setFrom.
Qed.

Lemma collect_plans_complete_witness :
  exists cp,
    sparseCollectPlans = Ok cp
    /\ In "c-regular" (ExportSuperTtc_parts cp "c").
Proof.
  pose (x := sparseCollectPlans).
  assert (E : sparseCollectPlans = x) by reflexivity.
  vm_compute in x.
  pose (y := Obj.get "regular" sparseStandardSuffixes).
  assert (Ey : Obj.get "regular" sparseStandardSuffixes = y) by reflexivity.
  vm_compute in y.
  pose (z := Obj.get "b" sparseBuildPlans).
  assert (Ez : Obj.get "b" sparseBuildPlans = z) by reflexivity.
  vm_compute in z.
  eexists. split; [exact E|].
  exact (proj2 (proj2
    (collect_plans_complete true sparseBuildPlans
       (Raw.collectPlans sparsePlans) sparseStandardSuffixes
       (Raw.collectConfig sparsePlans) fnStandardTtc _ "c" ["a"; "b"] "b"
       "regular" _ _ E eq_refl (or_intror (or_introl eq_refl)) Ey Ez
       (or_introl eq_refl)))).
Defined.

(** ** A shape weight out of range *)

Module RejectFacts.

Lemma forEach_ok {A B} (l : list A) (body : A -> B -> M B) :
  (forall x, In x l -> forall a st, exists a' st', body x a st = (Ok a', st')) ->
  forall acc st, exists res st', forEach l body acc st = (Ok res, st').
Proof.
  induction l as [|x l IH]; intros Hb acc st; cbn [forEach].
  - eexists. eexists. reflexivity.
  - unfold bind. destruct (Hb x (or_introl eq_refl) acc st) as (a' & st1 & ->).
    apply IH. intros y Hy. apply Hb. now right.
Qed.

Lemma forEach_app_throw {A B} (l1 l2 : list A) (body : A -> B -> M B) x
    acc st acc1 st1 e st2 :
  forEach l1 body acc st = (Ok acc1, st1) ->
  body x acc1 st1 = (Throw e, st2) ->
  forEach (l1 ++ x :: l2) body acc st = (Throw e, st2).
Proof.
  revert acc st. induction l1 as [|y l1 IH]; intros acc st H1 Hx.
  - cbn [forEach] in H1. unfold ret in H1. injection H1 as <- <-.
    cbn [app forEach]. unfold bind. now rewrite Hx.
  - cbn [app forEach] in *. unfold bind in *.
    destruct (body y acc st) as [[a'|e'] st'] eqn:E; [|discriminate].
    now apply IH.
Qed.

Lemma item_ok ws w we ss s wds wd wde st :
  Obj.get w ws = Some we -> Obj.get wd wds = Some wde ->
  validWeight we = true -> validWidth wde = true ->
  exists item,
    getSuffixMappingItem (Some ws) w (Some ss) s (Some wds) wd st
    = (Ok item, st).
Proof.
  intros Gw Gwd Vw Vwd.
  rewrite (ItemFacts.item_run ws w we ss s wds wd wde st Gw Gwd).
  unfold validWeight in Vw. unfold validWidth in Vwd.
  destruct (accepted VlShapeWeight _); [|discriminate].
  destruct (accepted VlCssWeight _); [|discriminate].
  destruct (accepted VlMenuWeight _); [|discriminate].
  destruct (accepted VlShapeWidth _); [|discriminate].
  destruct (accepted VlMenuWidth _); [|discriminate].
  eexists. reflexivity.
Qed.

(** The step of the loop over the weights for an entry that passes, all
    widths passing. *)
Lemma weight_step_ok ws w we ss wds acc st :
  Obj.get w ws = Some we -> validWeight we = true ->
  (forall wd wde, Obj.get wd wds = Some wde -> validWidth wde = true) ->
  exists acc' st',
    (let* we := entryOf (Some ws) w in
     let* _ := validateRecommendedWeight w (AxisEntry.menu we) "Menu" in
     let* _ := validateRecommendedWeight w (AxisEntry.css we) "CSS" in
     forEach (ownKeys (Some ss)) (fun s mapping =>
       forEach (ownKeys (Some wds)) (fun wd mapping =>
         let suffix := makeSuffix w wd s DEFAULT_SUBFAMILY in
         let* item :=
           getSuffixMappingItem (Some ws) w (Some ss) s (Some wds) wd in
         ret (Obj.set suffix item mapping))
       mapping)
     acc) st = (Ok acc', st').
Proof.
  intros Gw Vw Vwds. unfold bind at 1, entryOf. rewrite Gw. unfold ret at 1.
  unfold bind at 1.
  destruct (ItemFacts.validateRecommendedWeight_ok w (AxisEntry.menu we)
              "Menu" st) as (st1 & -> & _).
  unfold bind at 1.
  destruct (ItemFacts.validateRecommendedWeight_ok w (AxisEntry.css we)
              "CSS" st1) as (st2 & -> & _).
  apply forEach_ok. intros s _ a st3.
  apply forEach_ok. intros wd Hwd b st4. cbn [ownKeys] in Hwd.
  destruct (ItemFacts.In_keys_get wds wd Hwd) as (wde & Gwd).
  destruct (item_ok ws w we ss s wds wd wde st4 Gw Gwd Vw (Vwds _ _ Gwd))
    as (item & E).
  cbv zeta. unfold bind. rewrite E. eexists. eexists. reflexivity.
Qed.

(** The step for an entry whose shape value does not pass: the first
    item of the entry is the first thing resolved. *)
Lemma weight_step_throws ws w we ss wds acc st :
  Obj.get w ws = Some we ->
  accepted VlShapeWeight (AxisEntry.shape we) = None ->
  ss <> [] -> wds <> [] ->
  exists st',
    (let* we := entryOf (Some ws) w in
     let* _ := validateRecommendedWeight w (AxisEntry.menu we) "Menu" in
     let* _ := validateRecommendedWeight w (AxisEntry.css we) "CSS" in
     forEach (ownKeys (Some ss)) (fun s mapping =>
       forEach (ownKeys (Some wds)) (fun wd mapping =>
         let suffix := makeSuffix w wd s DEFAULT_SUBFAMILY in
         let* item :=
           getSuffixMappingItem (Some ws) w (Some ss) s (Some wds) wd in
         ret (Obj.set suffix item mapping))
       mapping)
     acc) st
    = (Throw (TypeError (notValidNumber ("Shape weight of " +:+ w)
                           (AxisEntry.shape we))), st').
Proof.
  intros Gw Hs Hss Hwds. unfold bind at 1, entryOf. rewrite Gw.
  unfold ret at 1. unfold bind at 1.
  destruct (ItemFacts.validateRecommendedWeight_ok w (AxisEntry.menu we)
              "Menu" st) as (st1 & -> & _).
  unfold bind at 1.
  destruct (ItemFacts.validateRecommendedWeight_ok w (AxisEntry.css we)
              "CSS" st1) as (st2 & -> & _).
  destruct ss as [|[s0 v0] ss']; [congruence|].
  destruct wds as [|[wd0 e0] wds']; [congruence|].
  cbn [ownKeys Obj.keys map fst forEach].
  unfold bind at 1. unfold bind at 1. unfold bind at 1.
  rewrite (ItemFacts.item_shape_weight_rejected ws w we _ s0 _ wd0 st2 Gw Hs).
  eexists. reflexivity.
Qed.

(** The error of the mapping is the error of the entry when everything
    resolved before it passes. *)
Lemma mapping_rejects ws w we ss wds before after st :
  Obj.keys ws = before ++ w :: after ->
  Obj.get w ws = Some we ->
  accepted VlShapeWeight (AxisEntry.shape we) = None ->
  ss <> [] -> wds <> [] ->
  (forall w0 we0, In w0 before -> Obj.get w0 ws = Some we0 ->
                  validWeight we0 = true) ->
  before = []
  \/ (forall wd wde, Obj.get wd wds = Some wde -> validWidth wde = true) ->
  exists st',
    getSuffixMapping (Some ws) (Some ss) (Some wds) st
    = (Throw (TypeError (notValidNumber ("Shape weight of " +:+ w)
                           (AxisEntry.shape we))), st').
Proof.
  intros Hkeys Gw Hs Hss Hwds Hbefore Hwidths.
  unfold getSuffixMapping. cbn [ownKeys]. rewrite Hkeys.
  match goal with |- context [forEach _ ?b _ _] => set (body := b) end.
  assert (E1 : exists acc1 st1, forEach before body [] st = (Ok acc1, st1)).
  { destruct Hwidths as [->|Hwidths]; [eexists; eexists; reflexivity|].
    apply forEach_ok. intros w0 Hw0 a st0.
    assert (Hin : In w0 (Obj.keys ws))
      by (rewrite Hkeys; apply in_app_iff; now left).
    destruct (ItemFacts.In_keys_get ws w0 Hin) as (we0 & G0).
    exact (weight_step_ok ws w0 we0 ss wds a st0 G0
             (Hbefore w0 we0 Hw0 G0) Hwidths). }
  destruct E1 as (acc1 & st1 & E1).
  destruct (weight_step_throws ws w we ss wds acc1 st1 Gw Hs Hss Hwds)
    as (st' & E2).
  exists st'. exact (forEach_app_throw before after body w [] st acc1 st1
                       _ st' E1 E2).
Qed.

End RejectFacts.

(** C4, as the code has it.  Resolving a suffix-mapping item of a weight
    entry whose shape value is not a number in [100, 900] fails at the
    first check with a TypeError, and for the values whose text the model
    prints as the engine does (every value but the numbers beyond the
    safe integers) its message is "Shape weight of <name> = <value> is not
    a valid number." (for 950: "Shape weight of <name> = 950 ...").  The
    shape-weight check returns an accepted number as it is, never
    another one.  The resolution of the whole mapping fails only when
    there is a slope and a width: then it fails with the TypeError of a
    check, "<key> = <value> is not a valid number."; this is the error of
    the entry when the entry is the first weight, or when every weight
    before it and every width passes its checks.  When the slopes or the
    widths have no own key the mapping is returned empty and no value is
    checked. *)
Theorem shape_weight_rejected :
  (forall ws w we slopes s widths wd st,
     Obj.get w ws = Some we ->
     accepted VlShapeWeight (AxisEntry.shape we) = None ->
     exists msg,
       getSuffixMappingItem (Some ws) w slopes s widths wd st
       = (Throw (TypeError msg), st)
       /\ (printable (AxisEntry.shape we) = true ->
           msg = "Shape weight of " +:+ w +:+ " = "
                 +:+ ToString (AxisEntry.shape we)
                 +:+ " is not a valid number."))
  /\ (forall ws w css menu slopes s widths wd st,
        Obj.get w ws = Some (AxisEntry.mk (VNum 950) css menu) ->
        getSuffixMappingItem (Some ws) w slopes s widths wd st =
          (Throw (TypeError ("Shape weight of " +:+ w
                             +:+ " = 950 is not a valid number.")), st))
  /\ (forall key v st n st',
        nValidate key v VlShapeWeight st = (Ok n, st') ->
        v = VNum n /\ 100 <= n <= 900 /\ st' = st)
  /\ (forall ws w we ss wds st,
        Obj.get w ws = Some we ->
        accepted VlShapeWeight (AxisEntry.shape we) = None ->
        ss <> [] -> wds <> [] ->
        exists key v st',
          getSuffixMapping (Some ws) (Some ss) (Some wds) st
            = (Throw (TypeError (key +:+ " = " +:+ ToString v
                                 +:+ " is not a valid number.")), st'))
  /\ (forall ws w we ss wds before after st,
        Obj.keys ws = before ++ w :: after ->
        Obj.get w ws = Some we ->
        accepted VlShapeWeight (AxisEntry.shape we) = None ->
        ss <> [] -> wds <> [] ->
        (forall w0 we0, In w0 before -> Obj.get w0 ws = Some we0 ->
                        validWeight we0 = true) ->
        before = []
        \/ (forall wd wde, Obj.get wd wds = Some wde ->
                           validWidth wde = true) ->
        exists msg st',
          getSuffixMapping (Some ws) (Some ss) (Some wds) st
          = (Throw (TypeError msg), st')
          /\ (printable (AxisEntry.shape we) = true ->
              msg = "Shape weight of " +:+ w +:+ " = "
                    +:+ ToString (AxisEntry.shape we)
                    +:+ " is not a valid number."))
  /\ (forall weights slopes widths st,
        ownKeys slopes = [] \/ ownKeys widths = [] ->
        exists st',
          getSuffixMapping weights slopes widths st = (Ok [], st')).
Proof.
  split; [|split; [|split; [|split; [|split]]]].
  - intros ws w we slopes s widths wd st Gw Hs. eexists. split.
    + exact (ItemFacts.item_shape_weight_rejected ws w we slopes s widths wd
               st Gw Hs).
    + reflexivity.
  - intros ws w css menu slopes s widths wd st Hw.
    now rewrite (ItemFacts.item_shape_weight_rejected _ _ _ _ _ _ _ _ Hw).
  - intros key v st n st' H.
    rewrite ItemFacts.nValidate_plain in H by reflexivity.
    destruct (accepted VlShapeWeight v) as [m|] eqn:E; [|discriminate].
    injection H as -> ->. apply ItemFacts.accepted_inv in E as [-> V].
    simpl in V. apply andb_true_iff in V as [V1 V2].
    apply Z.leb_le in V1, V2. split; [reflexivity|]. split; [lia | reflexivity].
  - intros. eapply ItemFacts.mapping_shape_weight_rejected; eauto.
  - intros ws w we ss wds before after st Hk Gw Hs Hss Hwds Hb Hw.
    destruct (RejectFacts.mapping_rejects ws w we ss wds before after st
                Hk Gw Hs Hss Hwds Hb Hw) as (st' & E).
    eexists. exists st'. split; [exact E | reflexivity].
  - intros weights slopes widths st Hempty.
    apply CoverFacts.mapping_empty. now right.
Qed.

Lemma shape_weight_rejected_witness :
  getSuffixMappingItem (Some weight950) "heavy" (Some uprightOnly) "upright"
                       (Some normalWidth) "normal" initialState
  = (Throw (TypeError "Shape weight of heavy = 950 is not a valid number."),
     initialState)
  /\ exists st',
       getSuffixMapping (Some weightsValidThen950) (Some uprightOnly)
                        (Some normalWidth) initialState
       = (Throw (TypeError "Shape weight of b = 950 is not a valid number."),
          st').
Proof.
  destruct shape_weight_rejected as (H1 & _ & _ & _ & H5 & _).
  split.
  - destruct (H1 weight950 "heavy" _ (Some uprightOnly) "upright"
                (Some normalWidth) "normal" initialState eq_refl eq_refl)
      as (msg & E & Hmsg).
    rewrite (Hmsg eq_refl) in E. exact E.
  - destruct (H5 weightsValidThen950 "b" _ uprightOnly normalWidth
                ["a"] [] initialState eq_refl eq_refl eq_refl)
      as (msg & st' & E & Hmsg).
    + discriminate.
    + discriminate.
    + intros w0 we0 [<-|[]] G. cbn in G. injection G as <-. reflexivity.
    + right. intros wd wde G. cbn [Obj.get normalWidth] in G.
      destruct (String.eqb "normal" wd); [|discriminate].
      injection G as <-. reflexivity.
    + rewrite (Hmsg eq_refl) in E. exists st'. exact E.
Defined.

(** C4, as stated, fails.  With a shape weight of 950 and no slope, the
    resolution of the suffix mapping returns the empty mapping: no item
    is built and the value is never checked.  And after a weight whose
    CSS value is out of range, the error of the resolution names that
    value, not the shape weight 950 of the later entry. *)
Lemma shape_weight_unchecked :
  getSuffixMapping (Some weight950) (Some []) (Some normalWidth) initialState
  = (Ok [], initialState)
  /\ getSuffixMapping (Some weightsCssThen950) (Some uprightOnly)
                      (Some normalWidth) initialState
     = (Throw (TypeError "CSS weight of a = 0 is not a valid number."),
        initialState).
Proof. split; reflexivity. Qed.
